(** * IGCLI: the session engine of [cli.py], embedded and checked

    The development follows [src/cli.py]: the module global [stop_threads],
    the [RepeatTimer] thread loop, the [IGCLI] object with its configuration
    dictionary, its thread handles and its text fields, the command
    interpreter [parse] and the [_cmd__*] handlers.

    Python objects are modelled as the code uses them:
    - a [dict] with string keys is a [gmap string _];
    - the attributes of [self] and the module globals are the fields of one
      record, [world], threaded through a state-and-exception monad [M]
      (a Python exception keeps the mutations made before it was raised);
    - [threading.Event] objects live in a table indexed by identity;
    - every [RepeatTimer] thread is a little state machine advanced by a
      scheduler, one step at a time, interleaved with the calls made by the
      interactive thread. *)

From Stdlib Require Import ZArith Ascii String List.
From stdpp Require Import base option list gmap strings pretty.

Local Open Scope string_scope.

(** ** Text *)

(** Characters are code points below 256.  [isspace] is [str.isspace] on
    that range: TAB..CR, FS..US, SPACE, NEL and NBSP. *)
Definition isspace (c : ascii) : bool :=
  let n := nat_of_ascii c in
  ((9 <=? n) && (n <=? 13))%nat || ((28 <=? n) && (n <=? 32))%nat
  || (n =? 133)%nat || (n =? 160)%nat.

Definition snoc (s : string) (c : ascii) : string := s +:+ String c "".

(** [str.split()] with no separator: runs of whitespace separate the
    tokens and no empty token is produced.  [cur] is the token being read. *)
Fixpoint split_ws_go (s cur : string) : list string :=
  match s with
  | "" => if decide (cur = "") then [] else [cur]
  | String c s' =>
      if isspace c
      then (if decide (cur = "") then split_ws_go s' ""
            else cur :: split_ws_go s' "")
      else split_ws_go s' (snoc cur c)
  end.

Definition split_ws (s : string) : list string := split_ws_go s "".

(** [str.split(' ')]: every single space separates, empty tokens are kept,
    and the result is never empty ([''.split(' ') == ['']]). *)
Fixpoint split_on_go (sep : ascii) (s cur : string) : list string :=
  match s with
  | "" => [cur]
  | String c s' =>
      if decide (c = sep) then cur :: split_on_go sep s' ""
      else split_on_go sep s' (snoc cur c)
  end.

Definition split_space (s : string) : list string :=
  split_on_go " "%char s "".

(** [sep.join(l)]. *)
Fixpoint join (sep : string) (l : list string) : string :=
  match l with
  | [] => ""
  | [x] => x
  | x :: l' => x +:+ sep +:+ join sep l'
  end.

Definition repeat_char (c : ascii) (n : nat) : string :=
  fold_right String "" (repeat c n).

(** Format specifications [{x:w}] / [{x:<w}], [{x:>w}] and [{x:f^w}] applied
    to a string: padding up to a minimum width, never truncating. *)
Definition ljust (w : nat) (s : string) : string :=
  s +:+ repeat_char " " (w - String.length s).

Definition rjust (w : nat) (s : string) : string :=
  repeat_char " " (w - String.length s) +:+ s.

Definition center_fill (fill : ascii) (w : nat) (s : string) : string :=
  let pad := (w - String.length s)%nat in
  let left := (pad / 2)%nat in
  repeat_char fill left +:+ s +:+ repeat_char fill (pad - left).

Definition NL : string := String (ascii_of_nat 10) "".

(** ** Exceptions *)

Inductive exn : Type :=
| KeyError (key : string)
| IndexError
| AttributeError (attr : string)
| TypeError
| FileNotFoundError (name : string)
| ValueError
| RuntimeError
| NotFoundError
| BadRequestError
| OtherError (what : string).

#[global] Instance exn_eq_dec : EqDecision exn.
Proof. solve_decision. Defined.

(** ** Python values stored in the configuration dictionary *)

(** The only list object reachable from two places is the class attribute
    [IGCLI.config_default['tracked']]: [dict.copy()] is shallow and the
    back-fill loop of [load_config] stores the default object itself.  A
    list held by one dictionary only is kept inline. *)
Inductive pylist : Type :=
| DefaultTracked
| OwnList (l : list string).

Inductive value : Type :=
| VInt (n : Z)
| VStr (s : string)
| VList (r : pylist)
| VDict (d : gmap string string).

(** ** Numbers of the remote service

    Prices and sizes arrive as JSON numbers (Python [int] or [float]).  Their
    arithmetic plays no role here; the three operations the code applies to
    them are an interface. *)
Class PyNumber (num : Type) : Type := {
  num_truthy : num -> bool;   (* bool(x) *)
  num_str : num -> string;    (* format(x, '') *)
  num_fixed2 : num -> string  (* format(x, '.2f') *)
}.

#[global] Instance Z_number : PyNumber Z := {
  num_truthy z := negb (z =? 0)%Z;
  num_str z := pretty z;
  num_fixed2 z := pretty z +:+ ".00"
}.

(** The five functions handed to [RepeatTimer]. *)
Inductive task : Type :=
| update_status_task
| update_positions_task
| update_activity_task
| update_orders_task
| update_trackers_task.

(** Where a [RepeatTimer] thread stands in
    [while not stop_threads.wait(self.interval): self.func()]. *)
Inductive pc : Type :=
| Created               (* constructed, [start()] not called yet *)
| LoopHead              (* about to evaluate the global [stop_threads] *)
| Waiting (e : nat)     (* blocked in [wait] of the Event object [e] *)
| InAction              (* inside [self.func()] *)
| Finished              (* [wait] returned True, [run] returned *)
| Crashed (x : exn).    (* an exception left [run] *)

(** [t_gen] and [t_ticks] are ghost fields: the number of the
    [start_threads] call that created the thread (0 for the status thread)
    and the number of times its function has been invoked. *)
Record thread : Type := {
  t_func : task;
  t_interval : Z;
  t_gen : nat;
  t_pc : pc;
  t_ticks : nat
}.

Definition set_pc (p : pc) (t : thread) : thread :=
  {| t_func := t_func t; t_interval := t_interval t; t_gen := t_gen t;
     t_pc := p; t_ticks := t_ticks t |}.

Definition tick (t : thread) : thread :=
  {| t_func := t_func t; t_interval := t_interval t; t_gen := t_gen t;
     t_pc := InAction; t_ticks := S (t_ticks t) |}.

(** A YAML document: [None] for an empty file (where [yaml.safe_load]
    returns [None]), else account id to configuration entry.  A key is an
    [option] because [self._id] may be [None] when it is used as one. *)
Abbreviation document :=
  (option (gmap (option string) (gmap string value))).

Section Model.

Context {num : Type} `{PyNumber num}.

(** ** Answers of the remote service ([igapi_python.client.IGClient]) *)

Record position : Type := {
  pos_direction : string;
  pos_instrumentName : string;
  pos_size : num;
  pos_currency : string;
  pos_level : num;
  pos_profitloss : num
}.

Record order : Type := {
  ord_direction : string;
  ord_instrumentName : string;
  ord_orderSize : num;
  ord_currencyCode : string;
  ord_orderLevel : num
}.

Record activity : Type := {
  act_date : string;
  act_activity : string;
  act_marketName : string;
  act_size : string;
  act_currency : string;
  act_level : string;
  act_actionStatus : string
}.

(** A market detail: [instrument.name] and the four [snapshot] prices, each
    of which may be JSON null. *)
Record market : Type := {
  mk_name : string;
  mk_low : option num;
  mk_high : option num;
  mk_bid : option num;
  mk_offer : option num
}.

(** The client is external.  Each method is an oracle giving the answer or
    the exception of a call; answers do not change over time. *)
Record IGClient : Type := {
  client_login : string -> string -> exn + bool;
  get_positions_profitloss : exn + list position;
  get_activity : exn + list activity;
  get_working_orders : exn + list order;
  get_market : string -> exn + unit;
  get_markets : list string -> exn + list market;
  search_market : string -> exn + list (string * string);
  add_position : string -> string -> string -> string -> value -> exn + unit
}.

(** ** The state *)

(** Module globals, the class attribute and the file system. *)
Record globals : Type := {
  g_stop_threads : option nat;   (* the global [stop_threads]: None or an Event *)
  events : list bool;            (* the flag of every Event object created *)
  pool : list thread;            (* every RepeatTimer started, by identity *)
  generation : nat;              (* ghost: start_threads calls that created threads *)
  default_tracked : list string; (* the list object config_default['tracked'] *)
  files : gmap string document
}.

Record handles : Type := {
  positions_thread : option nat;
  activity_thread : option nat;
  orders_thread : option nat;
  trackers_thread : option nat
}.

Record screen : Type := {
  trackers_field : string;
  positions_field : string;
  orders_field : string;
  activity_field : string;
  msg_field : string;
  status_field : string
}.

Record world : Type := {
  glob : globals;
  config_file : string;
  config : gmap string value;
  _id : option string;
  authd : bool;
  client : option IGClient;
  hs : handles;
  status_thread : nat;
  scr : screen;
  errors : list string           (* records written by [logger.error] *)
}.

Definition set_g_stop_threads (x : option nat) (g : globals) : globals :=
  {| g_stop_threads := x; events := events g; pool := pool g;
     generation := generation g; default_tracked := default_tracked g;
     files := files g |}.

Definition set_events (x : list bool) (g : globals) : globals :=
  {| g_stop_threads := g_stop_threads g; events := x; pool := pool g;
     generation := generation g; default_tracked := default_tracked g;
     files := files g |}.

Definition set_pool (x : list thread) (g : globals) : globals :=
  {| g_stop_threads := g_stop_threads g; events := events g; pool := x;
     generation := generation g; default_tracked := default_tracked g;
     files := files g |}.

Definition set_generation (x : nat) (g : globals) : globals :=
  {| g_stop_threads := g_stop_threads g; events := events g; pool := pool g;
     generation := x; default_tracked := default_tracked g;
     files := files g |}.

Definition set_default_tracked (x : list string) (g : globals) : globals :=
  {| g_stop_threads := g_stop_threads g; events := events g; pool := pool g;
     generation := generation g; default_tracked := x; files := files g |}.

Definition set_files (x : gmap string document) (g : globals) : globals :=
  {| g_stop_threads := g_stop_threads g; events := events g; pool := pool g;
     generation := generation g; default_tracked := default_tracked g;
     files := x |}.

Definition set_glob (x : globals) (w : world) : world :=
  {| glob := x; config_file := config_file w; config := config w;
     _id := _id w; authd := authd w; client := client w; hs := hs w;
     status_thread := status_thread w; scr := scr w; errors := errors w |}.

Definition set_config (x : gmap string value) (w : world) : world :=
  {| glob := glob w; config_file := config_file w; config := x;
     _id := _id w; authd := authd w; client := client w; hs := hs w;
     status_thread := status_thread w; scr := scr w; errors := errors w |}.

Definition set_id (x : option string) (w : world) : world :=
  {| glob := glob w; config_file := config_file w; config := config w;
     _id := x; authd := authd w; client := client w; hs := hs w;
     status_thread := status_thread w; scr := scr w; errors := errors w |}.

Definition set_authd (x : bool) (w : world) : world :=
  {| glob := glob w; config_file := config_file w; config := config w;
     _id := _id w; authd := x; client := client w; hs := hs w;
     status_thread := status_thread w; scr := scr w; errors := errors w |}.

Definition set_client (x : option IGClient) (w : world) : world :=
  {| glob := glob w; config_file := config_file w; config := config w;
     _id := _id w; authd := authd w; client := x; hs := hs w;
     status_thread := status_thread w; scr := scr w; errors := errors w |}.

Definition set_hs (x : handles) (w : world) : world :=
  {| glob := glob w; config_file := config_file w; config := config w;
     _id := _id w; authd := authd w; client := client w; hs := x;
     status_thread := status_thread w; scr := scr w; errors := errors w |}.

Definition set_scr (x : screen) (w : world) : world :=
  {| glob := glob w; config_file := config_file w; config := config w;
     _id := _id w; authd := authd w; client := client w; hs := hs w;
     status_thread := status_thread w; scr := x; errors := errors w |}.

Definition set_errors (x : list string) (w : world) : world :=
  {| glob := glob w; config_file := config_file w; config := config w;
     _id := _id w; authd := authd w; client := client w; hs := hs w;
     status_thread := status_thread w; scr := scr w; errors := x |}.

Definition set_trackers_field (x : string) (s : screen) : screen :=
  {| trackers_field := x; positions_field := positions_field s;
     orders_field := orders_field s; activity_field := activity_field s;
     msg_field := msg_field s; status_field := status_field s |}.

Definition set_positions_field (x : string) (s : screen) : screen :=
  {| trackers_field := trackers_field s; positions_field := x;
     orders_field := orders_field s; activity_field := activity_field s;
     msg_field := msg_field s; status_field := status_field s |}.

Definition set_orders_field (x : string) (s : screen) : screen :=
  {| trackers_field := trackers_field s; positions_field := positions_field s;
     orders_field := x; activity_field := activity_field s;
     msg_field := msg_field s; status_field := status_field s |}.

Definition set_activity_field (x : string) (s : screen) : screen :=
  {| trackers_field := trackers_field s; positions_field := positions_field s;
     orders_field := orders_field s; activity_field := x;
     msg_field := msg_field s; status_field := status_field s |}.

Definition set_msg_field (x : string) (s : screen) : screen :=
  {| trackers_field := trackers_field s; positions_field := positions_field s;
     orders_field := orders_field s; activity_field := activity_field s;
     msg_field := x; status_field := status_field s |}.

Definition set_status_field (x : string) (s : screen) : screen :=
  {| trackers_field := trackers_field s; positions_field := positions_field s;
     orders_field := orders_field s; activity_field := activity_field s;
     msg_field := msg_field s; status_field := x |}.

(** ** The monad: state that survives an exception *)

Definition M (A : Type) : Type := world -> (exn + A) * world.

Definition ret {A} (a : A) : M A := fun w => (inr a, w).

Definition raise {A} (x : exn) : M A := fun w => (inl x, w).

Definition bind {A B} (m : M A) (k : A -> M B) : M B :=
  fun w => match m w with
           | (inl x, w') => (inl x, w')
           | (inr a, w') => k a w'
           end.

(** [try: body except <handled>: handler]. *)
Definition try_except {A} (body : M A) (handled : exn -> bool)
    (handler : exn -> M A) : M A :=
  fun w => match body w with
           | (inl x, w') => if handled x then handler x w' else (inl x, w')
           | r => r
           end.

Definition get : M world := fun w => (inr w, w).

Definition modify (f : world -> world) : M unit := fun w => (inr tt, f w).

(** The answer of a client call is a value or a raised exception. *)
Definition call {A} (r : exn + A) : M A :=
  match r with inl x => raise x | inr a => ret a end.

End Model.

Arguments position : clear implicits.
Arguments order : clear implicits.
Arguments market : clear implicits.
Arguments IGClient : clear implicits.
Arguments world : clear implicits.
Arguments M : clear implicits.

(** What lies outside the program text: what [IGClient(api_key=...)]
    constructs, the text [get_time()] returns (the passage of time is not
    modelled), the text the guard [req_auth] reports and the environment
    variables of the process. *)
Record environment {num : Type} : Type := {
  connect : string -> IGClient num;
  now : string;
  auth_required : string;
  getenv : string -> option string
}.

Arguments environment : clear implicits.

Notation "'do' x <- m ; k" := (bind m (fun x => k))
  (at level 10, x name, m at level 100, k at level 200,
   format "'[v' 'do'  x  <-  m ; '/' k ']'").
Notation "m ;; k" := (bind m (fun _ => k))
  (at level 100, k at level 200, right associativity).

Section Engine.

Context {num : Type} `{PyNumber num}.

Variable env : environment num.

#[local] Abbreviation M := (M num).
#[local] Abbreviation world := (world num).

(** *** Small helpers for Python expressions *)

Definition str_id (i : option string) : string :=
  match i with Some s => s | None => "None" end.

Definition repr_str (s : string) : string := "'" +:+ s +:+ "'".

Definition tracked_list (w : world) (r : pylist) : list string :=
  match r with
  | DefaultTracked => default_tracked (glob w)
  | OwnList l => l
  end.

(** [str(v)] as an f-string shows it (strings free of quotes and escapes). *)
Definition str_value (w : world) (v : value) : string :=
  match v with
  | VInt n => pretty n
  | VStr s => s
  | VList r => "[" +:+ join ", " (map repr_str (tracked_list w r)) +:+ "]"
  | VDict d =>
      "{" +:+ join ", " (map (fun kv => repr_str kv.1 +:+ ": " +:+ repr_str kv.2)
                             (map_to_list d)) +:+ "}"
  end.

(** [self.config[key]]. *)
Definition getitem (key : string) : M value :=
  do w <- get;
  match config w !! key with
  | Some v => ret v
  | None => raise (KeyError key)
  end.

(** An entry of an unexpected type: Python goes on with some of them (a
    string is iterable, [int('5')] parses); the model raises [TypeError]
    there, and the results below are about well-typed configurations. *)
Definition as_list (v : value) : M pylist :=
  match v with VList r => ret r | _ => raise TypeError end.

Definition as_dict (v : value) : M (gmap string string) :=
  match v with VDict d => ret d | _ => raise TypeError end.

Definition as_int (v : value) : M Z :=
  match v with VInt n => ret n | _ => raise TypeError end.

(** [len(v)]. *)
Definition len_value (v : value) : M nat :=
  do w <- get;
  match v with
  | VInt _ => raise TypeError
  | VStr s => ret (String.length s)
  | VList r => ret (length (tracked_list w r))
  | VDict d => ret (size d)
  end.

(** [self.client.<method>]: the attribute of [None] does not exist. *)
Definition the_client (method : string) : M (IGClient num) :=
  do w <- get;
  match client w with
  | Some c => ret c
  | None => raise (AttributeError method)
  end.

Definition log_error (text : string) : M unit :=
  modify (fun w => set_errors (errors w ++ [text]) w).

(** *** [msg_out] *)

Definition msg_out (text : string) : M unit :=
  modify (fun w =>
    set_scr (set_msg_field (msg_field (scr w) +:+ NL +:+ text) (scr w)) w).

(** Modelled from the spec: the decorator [req_auth] of [utils.py], which is
    not among the sources.  The spec gives it as the guard
    [if not session.authenticated: report(AuthRequiredError); return] in
    front of the decorated method. *)
Definition req_auth (f : M unit) : M unit :=
  do w <- get;
  if authd w then f else msg_out (auth_required env).

(** *** [get_time], [status], [update_status] *)

Definition get_time : string := now env.

Definition status (w : world) : string :=
  let s := get_time in
  let s := s +:+ " || Status: " in
  if negb (authd w) then s +:+ "Offline |"
  else s +:+ "Online | ID: " +:+ str_id (_id w) +:+ " ".

Definition update_status : M unit :=
  modify (fun w => set_scr (set_status_field (status w) (scr w)) w).

(** *** [config_default], [load_config], [write_config] *)

Definition config_default_items : list (string * value) :=
  [("refresh", VInt 5); ("currency", VStr "USD");
   ("tracked", VList DefaultTracked)].

Definition config_default : gmap string value :=
  list_to_map config_default_items.

(** [for key, default in items: if key not in cfg: cfg[key] = default]. *)
Definition backfill (items : list (string * value))
    (cfg : gmap string value) : gmap string value :=
  fold_left (fun c kd => match c !! kd.1 with
                         | Some _ => c
                         | None => <[kd.1 := kd.2]> c
                         end) items cfg.

(** Truth value of a dictionary: it is not empty. *)
Definition dict_truthy {K} `{Countable K} {V} (d : gmap K V) : bool :=
  negb (Nat.eqb (size d) 0).

Definition open_read (filename : string) : M document :=
  do w <- get;
  match files (glob w) !! filename with
  | Some doc => ret doc
  | None => raise (FileNotFoundError filename)
  end.

Definition load_config_body (filename : string) : M unit :=
  do w <- get;
  msg_out ("Loading " +:+ str_id (_id w) +:+ " configuration...");;
  do loaded <- open_read filename;
  (match loaded with
   | Some l =>
       if dict_truthy l then
         modify (set_config (default ∅ (l !! _id w)));;
         do w1 <- get;
         if dict_truthy (config w1)
         then modify (set_config (backfill config_default_items (config w1)))
         else ret tt
       else modify (set_config config_default)
   | None => modify (set_config config_default)
   end);;
  do refresh <- getitem "refresh";
  do currency <- getitem "currency";
  do tracked <- getitem "tracked";
  do n <- len_value tracked;
  do w2 <- get;
  msg_out ("... Refresh rate: " +:+ str_value w2 refresh +:+ " s" +:+ NL +:+
           "... Currency: " +:+ str_value w2 currency +:+ NL +:+
           "... Added " +:+ pretty n +:+ " trackers").

Definition load_config (filename : string) : M unit :=
  req_auth (load_config_body filename).

(** What [yaml.dump] writes for a configuration: the contents of the lists. *)
Definition dump_value (w : world) (v : value) : value :=
  match v with
  | VList r => VList (OwnList (tracked_list w r))
  | _ => v
  end.

Definition write_config_body : M unit :=
  do w <- get;
  do loaded <- open_read (config_file w);
  let loaded := match loaded with
                | Some l => if dict_truthy l then l else ∅
                | None => ∅
                end in
  let loaded := <[_id w := dump_value w <$> config w]> loaded in
  modify (fun w => set_glob
    (set_files (<[config_file w := Some loaded]> (files (glob w))) (glob w)) w).

Definition write_config : M unit := req_auth write_config_body.

(** *** [set_api] *)

Definition set_api (api_key : string) : M unit :=
  modify (set_client (Some (connect env api_key))).

(** *** [RepeatTimer] objects and [threading.Event] objects *)

(** [RepeatTimer(func, interval)]: [int(interval)], then a thread object
    that is not started yet.  The result is its identity. *)
Definition RepeatTimer (func : task) (interval : value) : M nat :=
  do n <- as_int interval;
  do w <- get;
  let t := {| t_func := func; t_interval := n;
              t_gen := generation (glob w); t_pc := Created; t_ticks := 0 |} in
  modify (fun w => set_glob (set_pool (pool (glob w) ++ [t]) (glob w)) w);;
  ret (length (pool (glob w))).

(** [thread.start()]: a thread can only be started once. *)
Definition thread_start (handle : option nat) : M unit :=
  match handle with
  | None => raise (AttributeError "start")
  | Some tid => fun w =>
      match pool (glob w) !! tid with
      | Some t =>
          match t_pc t with
          | Created =>
              (inr tt,
               set_glob (set_pool (<[tid := set_pc LoopHead t]> (pool (glob w)))
                                  (glob w)) w)
          | _ => (inl RuntimeError, w)
          end
      | None => (inr tt, w)
      end
  end.

(** [Event()]: a new object, flag down. *)
Definition Event : M nat :=
  do w <- get;
  modify (fun w => set_glob (set_events (events (glob w) ++ [false]) (glob w)) w);;
  ret (length (events (glob w))).

(** [e.set()]. *)
Definition event_set (e : nat) : M unit :=
  modify (fun w =>
    set_glob (set_events (<[e := true]> (events (glob w))) (glob w)) w).

Definition is_set (w : world) (e : nat) : bool :=
  default false (events (glob w) !! e).

Definition no_handles : handles :=
  {| positions_thread := None; activity_thread := None;
     orders_thread := None; trackers_thread := None |}.

(** *** [start_threads], [stop_threads], [restart_threads] *)

(** The second half of [start_threads]: the four timers are created, each
    with [self.config['refresh']], and then started. *)
Definition create_and_start : M unit :=
  do r <- getitem "refresh";
  do p <- RepeatTimer update_positions_task r;
  modify (fun w => set_hs
    {| positions_thread := Some p; activity_thread := activity_thread (hs w);
       orders_thread := orders_thread (hs w);
       trackers_thread := trackers_thread (hs w) |} w);;
  do r <- getitem "refresh";
  do a <- RepeatTimer update_activity_task r;
  modify (fun w => set_hs
    {| positions_thread := positions_thread (hs w); activity_thread := Some a;
       orders_thread := orders_thread (hs w);
       trackers_thread := trackers_thread (hs w) |} w);;
  do r <- getitem "refresh";
  do o <- RepeatTimer update_orders_task r;
  modify (fun w => set_hs
    {| positions_thread := positions_thread (hs w);
       activity_thread := activity_thread (hs w); orders_thread := Some o;
       trackers_thread := trackers_thread (hs w) |} w);;
  do r <- getitem "refresh";
  do t <- RepeatTimer update_trackers_task r;
  modify (fun w => set_hs
    {| positions_thread := positions_thread (hs w);
       activity_thread := activity_thread (hs w);
       orders_thread := orders_thread (hs w); trackers_thread := Some t |} w);;
  do w <- get;
  thread_start (positions_thread (hs w));;
  thread_start (activity_thread (hs w));;
  thread_start (orders_thread (hs w));;
  thread_start (trackers_thread (hs w)).

(** [if stop_threads is None: stop_threads = Event()]. *)
Definition reset_stop_threads : M unit :=
  do w <- get;
  match g_stop_threads (glob w) with
  | None =>
      do e <- Event;
      modify (fun w => set_glob (set_g_stop_threads (Some e) (glob w)) w)
  | Some _ => ret tt
  end.

(** The first half: the guard, and the reset of the global when
    [stop_threads] has left it [None].  The generation count is ghost. *)
Definition start_threads_body : M unit :=
  do w <- get;
  if bool_decide (is_Some (positions_thread (hs w)))
     && bool_decide (is_Some (trackers_thread (hs w)))
  then log_error "Threads already running!"
  else
    reset_stop_threads;;
    modify (fun w =>
      set_glob (set_generation (S (generation (glob w))) (glob w)) w);;
    create_and_start.

Definition start_threads : M unit := req_auth start_threads_body.

Definition stop_threads_body : M unit :=
  do w <- get;
  match g_stop_threads (glob w) with
  | None => raise (AttributeError "set")
  | Some e =>
      event_set e;;
      modify (set_hs no_handles);;
      modify (fun w => set_glob (set_g_stop_threads None (glob w)) w)
  end.

Definition stop_threads : M unit := req_auth stop_threads_body.

Definition restart_threads : M unit :=
  req_auth (stop_threads;; start_threads).

(** *** [login], [logout] *)

Definition login (identifier password : string) : M bool :=
  do c <- the_client "login";
  do successful <- call (client_login c identifier password);
  if (successful : bool) then
    modify (set_authd true);;
    modify (set_id (Some identifier));;
    load_config "config.yml";;
    start_threads;;
    ret true
  else ret false.

(** The methods of [IGCLI] that take no argument, by attribute name. *)
Definition methods : list (string * M unit) :=
  [("update_status", update_status);
   ("start_threads", start_threads);
   ("stop_threads", stop_threads);
   ("restart_threads", restart_threads);
   ("write_config", write_config)].

Fixpoint assoc {A} (name : string) (table : list (string * A)) : option A :=
  match table with
  | [] => None
  | (k, v) :: rest => if decide (k = name) then Some v else assoc name rest
  end.

(** [self.<name>()]. *)
Definition call_method (name : string) : M unit :=
  match assoc name methods with
  | Some m => m
  | None => raise (AttributeError name)
  end.

(** [self.__api_key] and [self.__password] are private names nobody reads;
    the last line calls [self.stop_treads()], as the source spells it. *)
Definition logout_body : M unit :=
  modify (set_id None);;
  modify (set_config ∅);;
  call_method "stop_treads".

Definition logout : M unit := req_auth logout_body.

(** *** [add_tracker], [del_tracker] *)

Definition is_NotFoundError (x : exn) : bool :=
  match x with NotFoundError => true | _ => false end.

Definition is_BadRequestError (x : exn) : bool :=
  match x with BadRequestError => true | _ => false end.

Definition is_AttributeError (x : exn) : bool :=
  match x with AttributeError _ => true | _ => false end.

(** [self.config['tracked'].append(tracker)]: the list object is changed
    in place, wherever it lives. *)
Definition append_tracked (tracker : string) : M unit :=
  do v <- getitem "tracked";
  match v with
  | VList DefaultTracked =>
      modify (fun w => set_glob
        (set_default_tracked (default_tracked (glob w) ++ [tracker]) (glob w)) w)
  | VList (OwnList l) =>
      modify (fun w =>
        set_config (<["tracked" := VList (OwnList (l ++ [tracker]))]> (config w)) w)
  | _ => raise (AttributeError "append")
  end.

Definition add_tracker_body (tracker : string) : M unit :=
  try_except
    (do c <- the_client "get_market";
     call (get_market c tracker);;
     append_tracked tracker)
    is_NotFoundError
    (fun _ => msg_out ("Unable to find market: " +:+ tracker)).

Definition add_tracker (tracker : string) : M unit :=
  req_auth (add_tracker_body tracker).

(** [list.remove(x)]: the first occurrence goes. *)
Fixpoint remove_first (x : string) (l : list string) : list string :=
  match l with
  | [] => []
  | y :: l' => if decide (y = x) then l' else y :: remove_first x l'
  end.

Definition del_tracker_body (tracker : string) : M unit :=
  do v <- getitem "tracked";
  do r <- as_list v;
  do w <- get;
  if bool_decide (tracker ∈ tracked_list w r) then
    match r with
    | DefaultTracked =>
        modify (fun w => set_glob
          (set_default_tracked (remove_first tracker (default_tracked (glob w)))
                               (glob w)) w)
    | OwnList l =>
        modify (fun w =>
          set_config (<["tracked" := VList (OwnList (remove_first tracker l))]>
                        (config w)) w)
    end
  else ret tt.

Definition del_tracker (tracker : string) : M unit :=
  req_auth (del_tracker_body tracker).

(** *** The four refreshers *)

(** [for i, x in enumerate(items): buf += line(x); if i+1 != n: buf += '\n']. *)
Fixpoint lines_loop {A} (line : A -> string) (n i : nat) (items : list A)
    (buf : string) : string :=
  match items with
  | [] => buf
  | x :: rest =>
      let buf := buf +:+ line x in
      let buf := if decide (i + 1 ≠ n) then buf +:+ NL else buf in
      lines_loop line n (S i) rest buf
  end.

Definition position_line (p : position num) : string :=
  ljust 4 (pos_direction p) +:+ " " +:+ ljust 15 (pos_instrumentName p) +:+ " "
  +:+ rjust 5 (num_fixed2 (pos_size p)) +:+ " " +:+ ljust 3 (pos_currency p)
  +:+ " @ " +:+ rjust 10 (num_fixed2 (pos_level p)) +:+ " "
  +:+ "|| " +:+ rjust 10 (num_str (pos_profitloss p)).

Definition update_positions_body : M unit :=
  do c <- the_client "get_positions_profitloss";
  do positions <- call (get_positions_profitloss c);
  let buf := center_fill "-" 60 " POSITIONS " +:+ NL in
  let buf := lines_loop position_line (length positions) 0 positions buf in
  modify (fun w => set_scr (set_positions_field buf (scr w)) w).

Definition update_positions : M unit := req_auth update_positions_body.

Definition activity_line (a : activity) : string :=
  act_date a +:+ " " +:+ ljust 15 (act_activity a) +:+ " "
  +:+ ljust 10 (act_marketName a) +:+ " " +:+ rjust 5 (act_size a) +:+ " "
  +:+ ljust 3 (act_currency a) +:+ " @ " +:+ rjust 10 (act_level a) +:+ " "
  +:+ "|| " +:+ rjust 10 (act_actionStatus a).

Definition update_activity_body : M unit :=
  do c <- the_client "get_activity";
  do activities <- call (get_activity c);
  let buf := "" in
  let buf := lines_loop activity_line (length activities) 0 activities buf in
  modify (fun w => set_scr (set_activity_field buf (scr w)) w).

Definition update_activity : M unit := req_auth update_activity_body.

Definition order_line (o : order num) : string :=
  ljust 4 (ord_direction o) +:+ " " +:+ ljust 15 (ord_instrumentName o) +:+ " "
  +:+ rjust 5 (num_fixed2 (ord_orderSize o)) +:+ " "
  +:+ ljust 3 (ord_currencyCode o) +:+ " @ "
  +:+ rjust 10 (num_fixed2 (ord_orderLevel o)) +:+ " ".

Definition update_orders_body : M unit :=
  do c <- the_client "get_working_orders";
  do orders <- call (get_working_orders c);
  let buf := center_fill "-" 60 " ORDERS " +:+ NL in
  let buf := lines_loop order_line (length orders) 0 orders buf in
  modify (fun w => set_scr (set_orders_field buf (scr w)) w).

Definition update_orders : M unit := req_auth update_orders_body.

(** [x or '-'] under the format [>9]: null and zero both give the dash. *)
Definition or_dash (x : option num) : string :=
  match x with
  | Some n => if num_truthy n then num_str n else "-"
  | None => "-"
  end.

Definition tracker_line (m : market num) : string :=
  ljust 15 (mk_name m) +:+ " || " +:+ rjust 9 (or_dash (mk_low m)) +:+ " | "
  +:+ rjust 9 (or_dash (mk_high m)) +:+ " || " +:+ rjust 9 (or_dash (mk_bid m))
  +:+ " | " +:+ rjust 9 (or_dash (mk_offer m)).

(** The loop of [update_trackers]: the last-element test reads
    [len(self.config['tracked'])] at every turn. *)
Fixpoint trackers_loop (i : nat) (markets : list (market num)) (buf : string)
    : M string :=
  match markets with
  | [] => ret buf
  | m :: rest =>
      let buf := buf +:+ tracker_line m in
      do v <- getitem "tracked";
      do n <- len_value v;
      let buf := if decide (i + 1 ≠ n) then buf +:+ NL else buf in
      trackers_loop (S i) rest buf
  end.

Definition update_trackers_body : M unit :=
  do c <- the_client "get_markets";
  do v <- getitem "tracked";
  do r <- as_list v;
  do w <- get;
  do markets <- call (get_markets c (tracked_list w r));
  let buf := center_fill "-" 60 " TRACKERS " +:+ NL in
  do buf <- trackers_loop 0 markets buf;
  modify (fun w => set_scr (set_trackers_field buf (scr w)) w).

Definition update_trackers : M unit := req_auth update_trackers_body.

(** *** User commands *)

Definition _cmd__update (args : list string) : M unit :=
  req_auth
    (update_positions;;
     update_orders;;
     update_trackers;;
     msg_out "Updated positions, orders and trackers").

Definition _cmd__api (args : list string) : M unit :=
  match args with
  | [key] => set_api key;; msg_out "Updated API key"
  | _ => msg_out "Invalid syntax, expected: api <key>"
  end.

Definition _cmd__login (args : list string) : M unit :=
  match args with
  | [username; password] =>
      do successful <- login username password;
      if (successful : bool) then msg_out "Login successful"
      else msg_out "Login failed"
  | _ => msg_out "Invalid syntax, expected: login: <username> <password>"
  end.

Definition _cmd__save (args : list string) : M unit :=
  write_config;;
  msg_out "Configuration saved".

(** [for arg in args: f(arg)]. *)
Fixpoint for_each (f : string -> M unit) (args : list string) : M unit :=
  match args with
  | [] => ret tt
  | arg :: rest => f arg;; for_each f rest
  end.

Definition _cmd__track (args : list string) : M unit :=
  for_each add_tracker args;;
  msg_out "Added tracked market(s)".

Definition _cmd__stoptrack (args : list string) : M unit :=
  for_each del_tracker args;;
  msg_out "Removed tracked market(s)".

Definition _cmd__search (args : list string) : M unit :=
  do c <- the_client "search_market";
  match args with
  | [] => raise IndexError
  | term :: _ =>
      do markets <- call (search_market c term);
      let s := "Found epics: " in
      let s := s +:+ join ", " (map (fun m => m.1 +:+ ": " +:+ m.2) markets) in
      msg_out s
  end.

Definition _cmd__buy (args : list string) : M unit :=
  match args with
  | [size; epic] =>
      do currency <- getitem "currency";
      do found <- try_except
        (do c <- the_client "get_market"; call (get_market c epic);; ret true)
        is_BadRequestError
        (fun _ => msg_out ("Unable to find market: " +:+ epic);; ret false);
      if (found : bool) then
        do c <- the_client "add_position";
        call (add_position c "BUY" "MARKET" epic size currency);;
        do w <- get;
        msg_out ("Submitted position on " +:+ epic +:+ " @ " +:+ size +:+ " "
                 +:+ str_value w currency)
      else ret tt
  | _ => raise ValueError
  end.

(** [self.config['alias'][args[0]] = ' '.join(args[1:])]: the right-hand
    side first, then the dictionary, then the key. *)
Definition _cmd__alias (args : list string) : M unit :=
  let expansion := join " " (tail args) in
  do v <- getitem "alias";
  match args with
  | [] => raise IndexError
  | name :: _ =>
      match v with
      | VDict d =>
          modify (fun w =>
            set_config (<["alias" := VDict (<[name := expansion]> d)]> (config w)) w)
      | _ => raise TypeError
      end;;
      msg_out ("Added alias: " +:+ name +:+ " = " +:+ expansion)
  end.

(** The attributes of [IGCLI] whose name starts with [_cmd__]. *)
Definition commands : list (string * (list string -> M unit)) :=
  [("_cmd__update", _cmd__update);
   ("_cmd__api", _cmd__api);
   ("_cmd__login", _cmd__login);
   ("_cmd__save", _cmd__save);
   ("_cmd__track", _cmd__track);
   ("_cmd__stoptrack", _cmd__stoptrack);
   ("_cmd__search", _cmd__search);
   ("_cmd__buy", _cmd__buy);
   ("_cmd__alias", _cmd__alias)].

(** [getattr(self, name)] for such a name. *)
Definition getattr (name : string) : M (list string -> M unit) :=
  match assoc name commands with
  | Some command => ret command
  | None => raise (AttributeError name)
  end.

(** *** [parse] *)

(** The alias loop: [arg in self.config['alias']] is evaluated for every
    token of the line, and what an expansion appends is not looked at. *)
Fixpoint replace_aliases (args a_args : list string) : M (list string) :=
  match args with
  | [] => ret a_args
  | arg :: rest =>
      do v <- getitem "alias";
      do d <- as_dict v;
      match d !! arg with
      | Some expansion => replace_aliases rest (a_args ++ split_space expansion)
      | None => replace_aliases rest (a_args ++ [arg])
      end
  end.

(** [args[0]]. *)
Definition item0 (args : list string) : M string :=
  match args with
  | [] => raise IndexError
  | a :: _ => ret a
  end.

Definition parse (text : string) : M unit :=
  let args := split_ws text in
  (* replace aliases *)
  do args <- replace_aliases args [];
  (* try find command *)
  do found <- try_except
    (do a0 <- item0 args;
     do command <- getattr ("_cmd__" +:+ a0);
     ret (Some command))
    is_AttributeError
    (fun _ =>
       do a0 <- item0 args;
       msg_out ("Unrecognised command: " +:+ a0);;
       ret None);
  (* run command *)
  match found with
  | Some command => command (tail args)
  | None => ret tt
  end.

(** What [parse] does once the tokens are known: the first one selects
    the handler, the others are its arguments. *)
Definition dispatch (a0 : string) (rest : list string) : M unit :=
  match assoc ("_cmd__" +:+ a0) commands with
  | Some command => command rest
  | None => msg_out ("Unrecognised command: " +:+ a0)
  end.

(** [exit_ctrl_q], bound to Ctrl-Q and Ctrl-C. *)
Definition exit_ctrl_q : M unit :=
  do w <- get;
  match g_stop_threads (glob w) with
  | None => raise (AttributeError "set")
  | Some e => event_set e
  end.

(** [__del__]: the finalizer calls [self.stop_threads()]. *)
Definition __del__ : M unit := stop_threads.

(** ** The threads *)

(** The function a [RepeatTimer] was given. *)
Definition run_task (f : task) : M unit :=
  match f with
  | update_status_task => update_status
  | update_positions_task => update_positions
  | update_activity_task => update_activity
  | update_orders_task => update_orders
  | update_trackers_task => update_trackers
  end.

Definition set_thread (tid : nat) (t : thread) (w : world) : world :=
  set_glob (set_pool (<[tid := t]> (pool (glob w))) (glob w)) w.

(** One step of thread [tid] in [RepeatTimer.run]:
    - at the loop head the global [stop_threads] is read, and [.wait] of
      [None] does not exist;
    - a thread blocked in [wait] leaves the loop when the flag is up, and
      otherwise times out and calls its function (a step the scheduler may
      take at any time: durations are not modelled);
    - the effects of the call take place when it ends; a call that returns
      leads back to the loop head, an exception leaves [run]. *)
Definition step_thread (tid : nat) (w : world) : world :=
  match pool (glob w) !! tid with
  | None => w
  | Some t =>
      match t_pc t with
      | Created | Finished | Crashed _ => w
      | LoopHead =>
          match g_stop_threads (glob w) with
          | None => set_thread tid (set_pc (Crashed (AttributeError "wait")) t) w
          | Some e => set_thread tid (set_pc (Waiting e) t) w
          end
      | Waiting e =>
          if is_set w e then set_thread tid (set_pc Finished t) w
          else set_thread tid (tick t) w
      | InAction =>
          match run_task (t_func t) w with
          | (inr _, w') => set_thread tid (set_pc LoopHead t) w'
          | (inl x, w') => set_thread tid (set_pc (Crashed x) t) w'
          end
      end
  end.

(** What the interactive thread may call. *)
Inductive request : Type :=
| Parse (text : string)
| SetApi (api_key : string)
| Login (identifier password : string)
| Logout
| StartThreads
| StopThreads
| RestartThreads
| ExitCtrlQ.

Definition serve (r : request) : M unit :=
  match r with
  | Parse text => parse text
  | SetApi api_key => set_api api_key
  | Login identifier password => login identifier password;; ret tt
  | Logout => logout
  | StartThreads => start_threads
  | StopThreads => stop_threads
  | RestartThreads => restart_threads
  | ExitCtrlQ => exit_ctrl_q
  end.

(** A schedule interleaves calls of the interactive thread, each run to
    its end, with single steps of the timer threads. *)
Inductive label : Type :=
| Main (r : request)
| Thread (tid : nat).

Definition step (l : label) (w : world) : world :=
  match l with
  | Main r => (serve r w).2
  | Thread tid => step_thread tid w
  end.

Definition exec (schedule : list label) (w : world) : world :=
  fold_left (fun w l => step l w) schedule w.

(** *** [autologin] and [__init__] *)

(** [os.getenv(name)] is truthy: the variable is set and not empty. *)
Definition env_set (name : string) : bool :=
  match getenv env name with
  | Some s => negb (String.eqb s "")
  | None => false
  end.

(** With the three variables set, [self.login(api_key, identifier,
    password)] passes one positional argument more than [login] takes. *)
Definition autologin : M unit :=
  if env_set "IG_API_KEY" && env_set "IG_ID" && env_set "IG_PWD"
  then set_api (default "" (getenv env "IG_API_KEY"));; raise TypeError
  else ret tt.

(** What [__init__] has assigned when it reaches [self.autologin()]: the
    module-level Event is object 0 and the status timer, thread 0, is not
    started yet.  ([self._stop_update] is an Event nobody uses; it is left
    out.) *)
Definition constructed (files : gmap string document) : world :=
  {| glob := {| g_stop_threads := Some 0; events := [false];
                pool := [ {| t_func := update_status_task; t_interval := 1;
                             t_gen := 0; t_pc := Created; t_ticks := 0 |} ];
                generation := 0; default_tracked := []; files := files |};
     config_file := default "config.yml" (getenv env "IG_CLI_CONFIG");
     config := ∅;
     _id := None;
     authd := false;
     client := None;
     hs := no_handles;
     status_thread := 0;
     scr := {| trackers_field := ""; positions_field := "";
               orders_field := ""; activity_field := ""; msg_field := "";
               status_field := now env +:+ " || Status: Offline |" |};
     errors := [] |}.

(** [IGCLI()]: the object, or the exception that left [__init__]. *)
Definition IGCLI_init (files : gmap string document) : exn + world :=
  match (autologin;; thread_start (Some 0)) (constructed files) with
  | (inl x, _) => inl x
  | (inr _, w) => inr w
  end.

(** The object [IGCLI()] gives when it gives one: nobody is logged in and
    the status timer is started. *)
Definition fresh (files : gmap string document) : world :=
  {| glob := {| g_stop_threads := Some 0; events := [false];
                pool := [ {| t_func := update_status_task; t_interval := 1;
                             t_gen := 0; t_pc := LoopHead; t_ticks := 0 |} ];
                generation := 0; default_tracked := []; files := files |};
     config_file := default "config.yml" (getenv env "IG_CLI_CONFIG");
     config := ∅;
     _id := None;
     authd := false;
     client := None;
     hs := no_handles;
     status_thread := 0;
     scr := {| trackers_field := ""; positions_field := "";
               orders_field := ""; activity_field := ""; msg_field := "";
               status_field := now env +:+ " || Status: Offline |" |};
     errors := [] |}.

(** A timer of generation [g] as [start_threads] leaves it. *)
Definition started (n : Z) (g : nat) (f : task) : thread :=
  {| t_func := f; t_interval := n; t_gen := g; t_pc := LoopHead; t_ticks := 0 |}.

(** An epic the client accepts. *)
Definition accepted (c : IGClient num) (e : string) : bool :=
  bool_decide (get_market c e = inr tt).

(** The refresh threads that are inside their loop. *)
Definition live (t : thread) : bool :=
  match t_func t, t_pc t with
  | update_status_task, _ => false
  | _, (LoopHead | Waiting _ | InAction) => true
  | _, _ => false
  end.

Definition live_refreshers (w : world) : nat :=
  length (filter (fun t => live t = true) (pool (glob w))).

(** The tracked markets of a state, wherever the list object lives. *)
Definition tracked_of (w : world) : option (list string) :=
  match config w !! "tracked" with
  | Some (VList r) => Some (tracked_list w r)
  | _ => None
  end.

(** *** Vocabulary of the statements about threads *)

(** [m] keeps the relation [R] between the state before and the state
    after, whether it returns or raises. *)
Definition stable (R : world -> world -> Prop) {A} (m : M A) : Prop :=
  forall w, R w (m w).2.

(** The flags only go up and a started thread is changed by its own steps
    only. *)
Definition undisturbed (w w' : world) : Prop :=
  (forall e, is_set w e = true -> is_set w' e = true)
  /\ (forall tid t, pool (glob w) !! tid = Some t -> t_pc t <> Created ->
                    pool (glob w') !! tid = Some t).

(** The Events and the global [stop_threads] are as they were. *)
Definition same_token (w w' : world) : Prop :=
  events (glob w') = events (glob w)
  /\ g_stop_threads (glob w') = g_stop_threads (glob w).

(** The Event [e] exists and the global [stop_threads] does not hold it. *)
Definition retired (e : nat) (w : world) : Prop :=
  e < length (events (glob w)) /\ g_stop_threads (glob w) <> Some e.

(** A retired Event stays retired, and no thread comes to wait on it. *)
Definition stays_retired (e : nat) (w w' : world) : Prop :=
  (retired e w -> retired e w')
  /\ (forall tid t', pool (glob w') !! tid = Some t' -> t_pc t' = Waiting e ->
                     pool (glob w) !! tid = Some t').

(** Once logged in, always logged in. *)
Definition stays_logged_in (w w' : world) : Prop :=
  authd w = true -> authd w' = true.

(** A session that is not logged in has the empty configuration. *)
Definition logged_out_empty (w : world) : Prop :=
  authd w = false -> config w = ∅.

(** A thread at rest will not call its function again: it is blocked on an
    Event whose flag is up, or it has left [run]. *)
Definition rests (w : world) (t : thread) : Prop :=
  match t_pc t with
  | Waiting e => is_set w e = true
  | Finished | Crashed _ => True
  | _ => False
  end.

(** The Events and the threads are as they were. *)
Definition same_threads (w w' : world) : Prop :=
  events (glob w') = events (glob w)
  /\ pool (glob w') = pool (glob w)
  /\ g_stop_threads (glob w') = g_stop_threads (glob w).

(** Nothing is left to keep a timer going: the Event the global holds, if
    it holds one, is set, and so is every Event a thread is blocked on. *)
Definition quiescent (w : world) : Prop :=
  (forall e, g_stop_threads (glob w) = Some e -> is_set w e = true)
  /\ (forall tid t e, pool (glob w) !! tid = Some t -> t_pc t = Waiting e ->
                      is_set w e = true).

(** A thread that is not running: never started, or out of [run]. *)
Definition idle (t : thread) : bool :=
  match t_pc t with
  | Created | Finished | Crashed _ => true
  | _ => false
  end.

(** How many steps of its own a thread needs at most to leave [run] once
    nothing keeps it going. *)
Definition steps_left (t : thread) : nat :=
  match t_pc t with
  | InAction => 3
  | LoopHead => 2
  | Waiting _ => 1
  | _ => 0
  end.

(** [k] turns of the loop of thread [tid], nothing in between: the global
    is read, the wait times out, the function is called and returns. *)
Fixpoint turns (tid k : nat) : list label :=
  match k with
  | 0 => []
  | S k => Thread tid :: Thread tid :: Thread tid :: turns tid k
  end.

(** The thread [t] back at the loop head after [k] more calls. *)
Definition after_calls (k : nat) (t : thread) : thread :=
  {| t_func := t_func t; t_interval := t_interval t; t_gen := t_gen t;
     t_pc := LoopHead; t_ticks := t_ticks t + k |}.

(** The same session in a process whose [config_file] is [f] and whose
    file system is [fs]. *)
Definition transplanted (f : string) (fs : gmap string document)
    (w : world) : world :=
  {| glob := set_files fs (glob w); config_file := f; config := config w;
     _id := _id w; authd := authd w; client := client w; hs := hs w;
     status_thread := status_thread w; scr := scr w; errors := errors w |}.

(** [m] looks neither at [config_file] nor at any path but [config.yml]:
    where the file systems agree on that path, [m] run in the transplanted
    session has the same outcome and ends in the transplanted state. *)
Definition blind (f : string) (fs : gmap string document) {A}
    (m : M A) : Prop :=
  forall w, files (glob w) !! "config.yml" = fs !! "config.yml" ->
    m (transplanted f fs w) = ((m w).1, transplanted f fs (m w).2)
    /\ files (glob (m w).2) !! "config.yml" = fs !! "config.yml".

(** The session of a new object, as far as the timers go: no
    configuration, no timer but the status timer, no handle. *)
Definition bare (w : world) : Prop :=
  config w = ∅ /\ length (pool (glob w)) = 1 /\ hs w = no_handles.

(** A step of the scheduler that belongs to a timer thread. *)
Definition timer_step (l : label) : bool :=
  match l with
  | Thread _ => true
  | Main _ => false
  end.

End Engine.

(** ** Closed forms used in the statements *)

(** What the alias loop does to one token of the line. *)
Definition expand_token (d : gmap string string) (arg : string) : list string :=
  match d !! arg with
  | Some expansion => split_space expansion
  | None => [arg]
  end.

(** The same with the expansion tokenized on whitespace, as the
    specification words it. *)
Definition expand_token_ws (d : gmap string string) (arg : string) : list string :=
  match d !! arg with
  | Some expansion => split_ws expansion
  | None => [arg]
  end.

(** A token that holds no space, as the tokens of a line are. *)
Definition no_space (s : string) : bool :=
  forallb (fun c => negb (Ascii.eqb c " ")) (list_ascii_of_string s).

(** The names a line can start with. *)
Definition command_names : list string :=
  ["update"; "api"; "login"; "save"; "track"; "stoptrack"; "search"; "buy";
   "alias"].


(** ** Concrete scenarios

    A remote service with integer prices, three configuration files and a
    few runs of the system, used to exercise the statements below.  The
    states are stored evaluated. *)

Definition quote (epic : string) : market Z :=
  {| mk_name := epic; mk_low := Some 10%Z; mk_high := None;
     mk_bid := Some 0%Z; mk_offer := Some 12%Z |}.

(** Accepts the password "secret"; knows every epic but "nosuch" (not
    found) and "badepic" (bad request). *)
Definition quiet_client : IGClient Z :=
  {| client_login := fun _ password => inr (bool_decide (password = "secret"));
     get_positions_profitloss := inr [];
     get_activity := inr [];
     get_working_orders := inr [];
     get_market := fun epic =>
       if decide (epic = "badepic") then inl BadRequestError
       else if decide (epic = "nosuch") then inl NotFoundError
       else inr tt;
     get_markets := fun epics => inr (map quote epics);
     search_market := fun _ => inr [];
     add_position := fun _ _ _ _ _ => inr tt |}.

(** The same service when the positions request fails. *)
Definition flaky_client : IGClient Z :=
  {| client_login := client_login quiet_client;
     get_positions_profitloss := inl (OtherError "ConnectionError");
     get_activity := get_activity quiet_client;
     get_working_orders := get_working_orders quiet_client;
     get_market := get_market quiet_client;
     get_markets := get_markets quiet_client;
     search_market := search_market quiet_client;
     add_position := add_position quiet_client |}.

Definition quiet_env : environment Z :=
  {| connect := fun _ => quiet_client;
     now := "Mon 01 Jan 2024 | 00:00:00";
     auth_required := "Not logged in";
     getenv := fun _ => None |}.

Definition flaky_env : environment Z :=
  {| connect := fun _ => flaky_client;
     now := "Mon 01 Jan 2024 | 00:00:00";
     auth_required := "Not logged in";
     getenv := fun _ => None |}.

Definition aliases_me : gmap string string :=
  {[ "a" := "b c"; "b" := "update" ]}.

(** [config.yml] with an entry for the account "me" that holds an alias
    table only; with an entry for another account only; and empty. *)
Definition files_me : gmap string document :=
  {[ "config.yml" := Some {[ Some "me" := {[ "alias" := VDict aliases_me ]} ]} ]}.

Definition files_other : gmap string document :=
  {[ "config.yml" := Some {[ Some "other" := {[ "refresh" := VInt 9 ]} ]} ]}.

Definition files_empty : gmap string document := {[ "config.yml" := None ]}.

Definition log_in : list label :=
  [Main (SetApi "key"); Main (Login "me" "secret")].

(** Logged in as "me", the four timers started. *)
Definition logged_in : world Z :=
  Eval vm_compute in
  exec quiet_env log_in (fresh quiet_env files_me).

(** The state [login] has reached when it calls [load_config], the store
    holding no entry for "me". *)
Definition loading_other : world Z :=
  Eval vm_compute in
  set_id (Some "me") (set_authd true (set_client (Some quiet_client)
    (fresh quiet_env files_other))).

(** The operator has typed [alias x], an alias with nothing after it. *)
Definition aliased : world Z :=
  Eval vm_compute in
  exec quiet_env [Main (Parse "alias x")] logged_in.

(** Two markets tracked. *)
Definition tracking : world Z :=
  Eval vm_compute in
  exec quiet_env [Main (Parse "track epic1 epic2")] logged_in.

(** All four timers blocked in [wait], then the positions timer times out
    and is inside [update_positions]. *)
Definition mid_tick : list label :=
  [Thread 1; Thread 2; Thread 3; Thread 4; Thread 1].

Definition before_restart : world Z :=
  Eval vm_compute in exec quiet_env mid_tick logged_in.

Definition after_restart : world Z :=
  Eval vm_compute in
  exec quiet_env [Main RestartThreads] before_restart.

(** The old timers that were waiting leave, the new ones reach [wait], the
    old positions timer returns from its call, reads the global and times
    out again. *)
Definition after_second_tick : world Z :=
  Eval vm_compute in
  exec quiet_env
    [Thread 2; Thread 3; Thread 4; Thread 5; Thread 6; Thread 7; Thread 8;
     Thread 1; Thread 1; Thread 1] after_restart.

(** The positions timer inside a call that is going to fail. *)
Definition failing_tick : world Z :=
  Eval vm_compute in
  exec flaky_env (log_in ++ [Thread 1; Thread 1])
       (fresh flaky_env files_me).

(** The same service when it answers a request for several markets with
    the first one only. *)
Definition terse_client : IGClient Z :=
  {| client_login := client_login quiet_client;
     get_positions_profitloss := get_positions_profitloss quiet_client;
     get_activity := get_activity quiet_client;
     get_working_orders := get_working_orders quiet_client;
     get_market := get_market quiet_client;
     get_markets := fun epics => inr (map quote (take 1 epics));
     search_market := search_market quiet_client;
     add_position := add_position quiet_client |}.

(** The same service when it answers such a request in the reverse
    order, and when the request fails. *)
Definition backward_client : IGClient Z :=
  {| client_login := client_login quiet_client;
     get_positions_profitloss := get_positions_profitloss quiet_client;
     get_activity := get_activity quiet_client;
     get_working_orders := get_working_orders quiet_client;
     get_market := get_market quiet_client;
     get_markets := fun epics => inr (map quote (rev epics));
     search_market := search_market quiet_client;
     add_position := add_position quiet_client |}.

Definition down_client : IGClient Z :=
  {| client_login := client_login quiet_client;
     get_positions_profitloss := get_positions_profitloss quiet_client;
     get_activity := get_activity quiet_client;
     get_working_orders := get_working_orders quiet_client;
     get_market := get_market quiet_client;
     get_markets := fun _ => inl (OtherError "ConnectionError");
     search_market := search_market quiet_client;
     add_position := add_position quiet_client |}.

(** A service with something to show: two positions, one working order
    and two lines of activity. *)
Definition gold : position Z :=
  {| pos_direction := "BUY"; pos_instrumentName := "Gold"; pos_size := 2%Z;
     pos_currency := "USD"; pos_level := 1800%Z; pos_profitloss := 15%Z |}.

Definition oil : position Z :=
  {| pos_direction := "SELL"; pos_instrumentName := "Oil - US Crude";
     pos_size := 10%Z; pos_currency := "GBP"; pos_level := 75%Z;
     pos_profitloss := (-120)%Z |}.

Definition silver_order : order Z :=
  {| ord_direction := "BUY"; ord_instrumentName := "Silver";
     ord_orderSize := 5%Z; ord_currencyCode := "USD"; ord_orderLevel := 23%Z |}.

Definition opened : activity :=
  {| act_date := "2024-01-01"; act_activity := "S&L"; act_marketName := "Gold";
     act_size := "+2"; act_currency := "USD"; act_level := "1800";
     act_actionStatus := "ACCEPT" |}.

Definition refused : activity :=
  {| act_date := "2024-01-02"; act_activity := "Order";
     act_marketName := "Silver"; act_size := "+5"; act_currency := "USD";
     act_level := "23"; act_actionStatus := "REJECT" |}.

Definition busy_client : IGClient Z :=
  {| client_login := client_login quiet_client;
     get_positions_profitloss := inr [gold; oil];
     get_activity := inr [opened; refused];
     get_working_orders := inr [silver_order];
     get_market := get_market quiet_client;
     get_markets := get_markets quiet_client;
     search_market := search_market quiet_client;
     add_position := add_position quiet_client |}.

(** The entries of [config.yml] in [files_me]. *)
Definition entry_me : gmap string value := {[ "alias" := VDict aliases_me ]}.

Definition entries_me : gmap (option string) (gmap string value) :=
  {[ Some "me" := entry_me ]}.

(** [config.yml] as in [files_me], beside an empty [mine.yml]. *)
Definition files_two : gmap string document :=
  <["mine.yml" := None]> files_me.

(** The API key given, nobody logged in; with [config.yml] and without. *)
Definition ready : world Z :=
  Eval vm_compute in
  exec quiet_env [Main (SetApi "key")] (fresh quiet_env files_me).

Definition ready_no_file : world Z :=
  Eval vm_compute in
  exec quiet_env [Main (SetApi "key")] (fresh quiet_env ∅).

(** Logged in as "me" with an empty [config.yml]: the defaults. *)
Definition on_defaults : world Z :=
  Eval vm_compute in
  exec quiet_env log_in (fresh quiet_env files_empty).

(** Logged in, the timers stopped. *)
Definition stopped : world Z :=
  Eval vm_compute in
  exec quiet_env [Main StopThreads] logged_in.

(** Logged in, [config.yml] deleted behind the back of the program. *)
Definition fileless : world Z :=
  Eval vm_compute in
  set_glob (set_files ∅ (glob logged_in)) logged_in.

(** Two markets tracked, and a service that answers for one. *)
Definition tracking_terse : world Z :=
  Eval vm_compute in
  set_client (Some terse_client) tracking.

Definition tracking_backward : world Z :=
  Eval vm_compute in
  set_client (Some backward_client) tracking.

Definition tracking_down : world Z :=
  Eval vm_compute in
  set_client (Some down_client) tracking.

(** Logged in as "me" with the service that has something to show. *)
Definition watching : world Z :=
  Eval vm_compute in
  set_client (Some busy_client) logged_in.

(** * Properties *)

Create HintDb frame.

Section Properties.

Context {num : Type} `{PyNumber num}.
Variable env : environment num.

#[local] Abbreviation M := (M num).
#[local] Abbreviation world := (world num).

Ltac msimpl :=
  cbv [bind ret raise get modify call try_except getitem as_dict as_list as_int
       the_client req_auth msg_out log_error] in *.

(* Projections of updated records. *)
Ltac wsimpl :=
  cbn [glob config_file config _id authd client hs status_thread scr errors
       g_stop_threads events pool generation default_tracked files
       positions_thread activity_thread orders_thread trackers_thread
       trackers_field positions_field orders_field activity_field msg_field
       status_field
       set_glob set_config set_id set_authd set_client set_hs set_scr set_errors
       set_g_stop_threads set_events set_pool set_generation
       set_default_tracked set_files
       set_trackers_field set_positions_field set_orders_field
       set_activity_field set_msg_field set_status_field
       fst snd] in *.

(** ** Tokenizing *)

Lemma split_on_go_nonempty sep s cur : split_on_go sep s cur <> [].
Proof.
  revert cur. induction s as [|c s IH]; intros cur; simpl; [done|].
  destruct (decide (c = sep)); [done | apply IH].
Qed.

Lemma split_space_nonempty s : split_space s <> [].
Proof. apply split_on_go_nonempty. Qed.

Lemma split_ws_go_blank s :
  forallb isspace (list_ascii_of_string s) = true -> split_ws_go s "" = [].
Proof.
  induction s as [|c s IH]; simpl; [done|].
  intros [Hc Hs]%andb_prop. rewrite Hc. auto.
Qed.

(** ** The alias loop *)

Lemma replace_aliases_state args : forall a_args (w : world),
  (replace_aliases args a_args w).2 = w.
Proof.
  induction args as [|arg rest IH]; intros a_args w; [done|].
  simpl. msimpl.
  destruct (config w !! "alias") as [[| | |d]|]; try done.
  destruct (d !! arg); apply IH.
Qed.

Lemma replace_aliases_closed d args : forall a_args (w : world),
  config w !! "alias" = Some (VDict d) ->
  replace_aliases args a_args w
  = (inr (a_args ++ flat_map (expand_token d) args)%list, w).
Proof.
  induction args as [|arg rest IH]; intros a_args w Hd; simpl.
  - by rewrite app_nil_r.
  - msimpl. rewrite Hd.
    destruct (d !! arg) eqn:E; rewrite IH by done; rewrite <- app_assoc;
      unfold expand_token; by rewrite E.
Qed.

Lemma replace_aliases_no_tokens args : forall a_args (w : world),
  (replace_aliases args a_args w).1 = inr [] -> args = [] /\ a_args = [].
Proof.
  induction args as [|arg rest IH]; intros a_args w; simpl.
  - intros [= ->]. done.
  - msimpl.
    destruct (config w !! "alias") as [[| | |d]|]; try done.
    destruct (d !! arg) as [e|]; intros [_ Hnil]%IH;
      apply app_eq_nil in Hnil as [_ Hnil]; [|done].
    by apply split_space_nonempty in Hnil.
Qed.

Lemma parse_tokens text (w : world) a0 rest :
  replace_aliases (split_ws text) [] w = (inr (a0 :: rest), w) ->
  parse env text w = dispatch env a0 rest w.
Proof.
  intros Hargs. unfold parse, dispatch, bind at 1. rewrite Hargs.
  unfold getattr. cbv [bind try_except item0 ret].
  destruct (assoc _ _); [done|].
  cbv [raise is_AttributeError]. simpl. unfold msg_out, modify. done.
Qed.

(** The three ways [parse] can go once the alias loop is over. *)
Lemma parse_cases text (w : world) :
  parse env text w
  = match (replace_aliases (split_ws text) [] w).1 with
    | inl x => (inl x, w)
    | inr [] => (inl IndexError, w)
    | inr (a0 :: rest) => dispatch env a0 rest w
    end.
Proof.
  pose proof (replace_aliases_state (split_ws text) [] w) as Hw.
  destruct (replace_aliases (split_ws text) [] w) as [[x|[|a0 rest]] w'] eqn:E;
    simpl in *; subst w'.
  - unfold parse, bind at 1. by rewrite E.
  - unfold parse, bind at 1. by rewrite E.
  - by apply parse_tokens.
Qed.

(** C10: a line that leaves no token after splitting and alias expansion
    makes [parse] raise [IndexError] at [args[0]]: the exception is not the
    [AttributeError] the [try] handles, no message is written and nothing
    else changes. *)
Theorem parse_no_tokens_IndexError text (w : world) :
  (replace_aliases (split_ws text) [] w).1 = inr [] ->
  parse env text w = (inl IndexError, w).
Proof.
  intros Hnil. unfold parse, bind at 1.
  pose proof (replace_aliases_state (split_ws text) [] w) as Hw.
  destruct (replace_aliases (split_ws text) [] w) as [r w'].
  simpl in Hnil, Hw. subst r w'.
  unfold try_except, bind, item0, raise. reflexivity.
Qed.

(** Such lines are the blank ones: an expansion is never empty. *)
Lemma no_tokens_iff_blank text (w : world) :
  (replace_aliases (split_ws text) [] w).1 = inr [] <-> split_ws text = [].
Proof.
  split.
  - by intros [? _]%replace_aliases_no_tokens.
  - intros ->. done.
Qed.

Lemma parse_blank_line text (w : world) :
  forallb isspace (list_ascii_of_string text) = true ->
  parse env text w = (inl IndexError, w).
Proof.
  intros Hb. rewrite parse_cases.
  assert (split_ws text = []) as -> by (by apply split_ws_go_blank). done.
Qed.


(** C5, as amended: the alias loop is one pass over the tokens of the
    line.  Each token that is a key of the alias table is replaced in place
    by its expansion split at every single space (empty tokens are kept,
    other whitespace does not split); what an expansion produced is not
    looked up again.  So when a one-token line is an alias whose expansion
    starts with [b], the handler is selected by [b], whether or not [b] is
    an alias. *)
Theorem alias_expansion_single_pass (w : world) d text :
  config w !! "alias" = Some (VDict d) ->
  replace_aliases (split_ws text) [] w
  = (inr (flat_map (expand_token d) (split_ws text)), w)
  /\ (forall a e b rest,
        split_ws text = [a] -> d !! a = Some e -> split_space e = b :: rest ->
        parse env text w
        = dispatch env b rest w).
Proof.
  intros Hd. split; [exact (replace_aliases_closed d _ [] w Hd)|].
  intros a e b rest Ha He Hb. apply parse_tokens.
  rewrite (replace_aliases_closed d) by done.
  rewrite Ha. simpl. unfold expand_token. rewrite He, Hb.
  by rewrite app_nil_r.
Qed.

(** ** [load_config] *)

Lemma backfill_union items : forall c : gmap string value,
  backfill items c = c ∪ list_to_map items.
Proof.
  induction items as [|[k v] rest IH]; intros c; simpl.
  - by rewrite (right_id_L ∅ (∪)).
  - destruct (c !! k) eqn:Hk; rewrite IH.
    + apply map_eq. intros j. rewrite !lookup_union, lookup_insert.
      destruct (decide (k = j)) as [->|]; [|done].
      rewrite Hk. by destruct (list_to_map rest !! j).
    + by rewrite <- insert_union_l, insert_union_r.
Qed.

Lemma backfill_defaults (c : gmap string value) :
  backfill config_default_items c = c ∪ config_default.
Proof. apply backfill_union. Qed.

Lemma config_default_no_alias : config_default !! "alias" = None.
Proof. reflexivity. Qed.

Lemma dict_truthy_empty {K} `{Countable K} {V} :
  dict_truthy (∅ : gmap K V) = false.
Proof. unfold dict_truthy. by rewrite map_size_empty. Qed.

(** C8 fails on the code when the store holds entries but none for the
    account: [self.config] is left empty, no default is filled in, and the
    report line of [load_config] itself raises [KeyError: 'refresh']. *)
Theorem load_config_no_entry (w : world) i l :
  authd w = true -> _id w = Some i ->
  files (glob w) !! "config.yml" = Some (Some l) ->
  dict_truthy l = true -> l !! Some i = None ->
  (load_config env "config.yml" w).1 = inl (KeyError "refresh")
  /\ config (load_config env "config.yml" w).2 = ∅.
Proof.
  intros Hauth Hid Hfile Hl Hi.
  unfold load_config, load_config_body, open_read. msimpl.
  rewrite Hauth. wsimpl.
  rewrite Hfile. wsimpl. rewrite Hl, Hid, Hi. wsimpl.
  change (default ∅ None) with (∅ : gmap string value).
  rewrite dict_truthy_empty. wsimpl. rewrite lookup_empty. done.
Qed.


(** The other two cases of the load, for comparison: an empty store gives
    a copy of the defaults, an entry with some keys is back-filled.  Neither
    gives an alias table unless the entry has one. *)
Lemma load_config_empty_store (w : world) :
  authd w = true ->
  files (glob w) !! "config.yml" = Some None ->
  (load_config env "config.yml" w).1 = inr tt
  /\ config (load_config env "config.yml" w).2 = config_default.
Proof.
  intros Hauth Hfile.
  unfold load_config, load_config_body, open_read. msimpl.
  rewrite Hauth. wsimpl. rewrite Hfile. wsimpl.
  change (config_default !! "refresh") with (Some (VInt 5)).
  change (config_default !! "currency") with (Some (VStr "USD")).
  change (config_default !! "tracked") with (Some (VList DefaultTracked)).
  unfold len_value. msimpl. wsimpl. done.
Qed.

Lemma load_config_partial_entry (w : world) i l e :
  authd w = true -> _id w = Some i ->
  files (glob w) !! "config.yml" = Some (Some l) ->
  l !! Some i = Some e -> dict_truthy e = true ->
  config (load_config env "config.yml" w).2 = e ∪ config_default.
Proof.
  intros Hauth Hid Hfile Hi He.
  assert (dict_truthy l = true) as Hl.
  { unfold dict_truthy. destruct (size l) eqn:Hs; [|done].
    apply map_size_empty_iff in Hs. subst. by rewrite lookup_empty in Hi. }
  unfold load_config, load_config_body, open_read. msimpl.
  rewrite Hauth. wsimpl. rewrite Hfile. wsimpl. rewrite Hl, Hid, Hi. wsimpl.
  change (default ∅ (Some e)) with e. rewrite He. wsimpl.
  rewrite backfill_defaults.
  destruct ((e ∪ config_default) !! "refresh"); wsimpl; [|done].
  destruct ((e ∪ config_default) !! "currency"); wsimpl; [|done].
  destruct ((e ∪ config_default) !! "tracked") as [vt|]; wsimpl; [|done].
  unfold len_value. msimpl. by destruct vt.
Qed.

(** ** [logout] *)

(** C4, on the code: in every authenticated state [logout] clears the
    account id and the configuration and then raises [AttributeError]
    at [self.stop_treads()].  The stop Event is not set, the global is not
    cleared, the four handles stay and [authd] stays true. *)
Theorem logout_raises_AttributeError (w : world) :
  authd w = true ->
  logout env w
  = (inl (AttributeError "stop_treads"), set_config ∅ (set_id None w))
  /\ events (glob (logout env w).2) = events (glob w)
  /\ g_stop_threads (glob (logout env w).2) = g_stop_threads (glob w)
  /\ hs (logout env w).2 = hs w
  /\ authd (logout env w).2 = true.
Proof.
  intros Hauth.
  assert (logout env w
          = (inl (AttributeError "stop_treads"), set_config ∅ (set_id None w)))
    as ->.
  { unfold logout, logout_body. msimpl. rewrite Hauth. done. }
  done.
Qed.

(** ** Commands while logged out *)

Lemma parse_without_alias_table text (w : world) :
  config w !! "alias" = None -> split_ws text <> [] ->
  parse env text w = (inl (KeyError "alias"), w).
Proof.
  intros Hno Hargs. unfold parse, bind at 1.
  destruct (split_ws text) as [|arg rest]; [done|].
  simpl. msimpl. by rewrite Hno.
Qed.

(** Called directly, the guarded handler does what the guard says. *)
Lemma cmd_update_guarded args (w : world) :
  authd w = false ->
  _cmd__update env args w = msg_out (auth_required env) w.
Proof.
  intros Hauth. unfold _cmd__update. msimpl. by rewrite Hauth.
Qed.


(** ** [track] *)

Section Track.

Variable c : IGClient num.

Lemma add_tracker_accepted (w : world) e l :
  authd w = true -> client w = Some c -> tracked_of w = Some l ->
  get_market c e = inr tt ->
  exists w', add_tracker env e w = (inr tt, w')
    /\ tracked_of w' = Some (l ++ [e])%list
    /\ authd w' = true /\ client w' = Some c /\ scr w' = scr w.
Proof.
  intros Hauth Hc Hl He. unfold tracked_of in Hl.
  unfold add_tracker, add_tracker_body, append_tracked. msimpl.
  rewrite Hauth, Hc. wsimpl. rewrite He. wsimpl.
  destruct (config w !! "tracked") as [[| |[|l0]|]|] eqn:Ht; try done;
    simplify_eq; eexists; (split; [reflexivity|]); unfold tracked_of; wsimpl.
  - by rewrite Ht.
  - by rewrite lookup_insert_eq.
Qed.

Lemma add_tracker_not_found (w : world) e :
  authd w = true -> client w = Some c ->
  get_market c e = inl NotFoundError ->
  add_tracker env e w
  = (inr tt, (msg_out ("Unable to find market: " +:+ e) w).2).
Proof.
  intros Hauth Hc He.
  unfold add_tracker, add_tracker_body. msimpl.
  rewrite Hauth, Hc. wsimpl. by rewrite He.
Qed.

Lemma add_tracker_bad_request (w : world) e :
  authd w = true -> client w = Some c ->
  get_market c e = inl BadRequestError ->
  add_tracker env e w = (inl BadRequestError, w).
Proof.
  intros Hauth Hc He.
  unfold add_tracker, add_tracker_body. msimpl.
  rewrite Hauth, Hc. wsimpl. by rewrite He.
Qed.

Lemma for_each_accepted pre : forall (w : world) l,
  authd w = true -> client w = Some c -> tracked_of w = Some l ->
  Forall (fun e => get_market c e = inr tt) pre ->
  exists w', for_each (add_tracker env) pre w = (inr tt, w')
    /\ tracked_of w' = Some (l ++ pre)%list
    /\ authd w' = true /\ client w' = Some c /\ scr w' = scr w.
Proof.
  induction pre as [|e pre IH]; intros w l Hauth Hc Hl Hpre.
  - exists w. by rewrite app_nil_r.
  - apply Forall_cons in Hpre as [He Hpre].
    destruct (add_tracker_accepted w e l) as (w1 & Hrun & Hl1 & Ha1 & Hc1 & Hs1);
      try done.
    destruct (IH w1 (l ++ [e])%list) as (w2 & Hrun2 & Hl2 & Ha2 & Hc2 & Hs2);
      try done.
    exists w2. simpl. unfold bind. rewrite Hrun, Hrun2.
    rewrite <- app_assoc in Hl2. by rewrite Hs2.
Qed.

Lemma for_each_bad_request bad post pre : forall (w : world) l,
  authd w = true -> client w = Some c -> tracked_of w = Some l ->
  Forall (fun e => get_market c e = inr tt) pre ->
  get_market c bad = inl BadRequestError ->
  exists w', for_each (add_tracker env) (pre ++ bad :: post) w
             = (inl BadRequestError, w')
    /\ tracked_of w' = Some (l ++ pre)%list /\ scr w' = scr w.
Proof.
  induction pre as [|e pre IH]; intros w l Hauth Hc Hl Hpre Hbad.
  - exists w. simpl. unfold bind.
    rewrite add_tracker_bad_request by done. by rewrite app_nil_r.
  - apply Forall_cons in Hpre as [He Hpre].
    destruct (add_tracker_accepted w e l) as (w1 & Hrun & Hl1 & Ha1 & Hc1 & Hs1);
      try done.
    destruct (IH w1 (l ++ [e])%list) as (w2 & Hrun2 & Hl2 & Hs2); try done.
    exists w2. simpl. unfold bind. rewrite Hrun, Hrun2.
    rewrite <- app_assoc in Hl2. by rewrite Hs2.
Qed.

(** C6, on the code: an epic that [get_market] rejects with
    [BadRequestError] is not skipped.  The exception leaves [add_tracker]
    and the loop of [_cmd__track]; the epics before it are tracked, those
    after it are never looked at and no message is written. *)
Theorem track_bad_request_aborts (w : world) l pre bad post :
  authd w = true -> client w = Some c -> tracked_of w = Some l ->
  Forall (fun e => get_market c e = inr tt) pre ->
  get_market c bad = inl BadRequestError ->
  exists w', _cmd__track env (pre ++ bad :: post) w
             = (inl BadRequestError, w')
    /\ tracked_of w' = Some (l ++ pre)%list
    /\ msg_field (scr w') = msg_field (scr w).
Proof.
  intros Hauth Hc Hl Hpre Hbad.
  destruct (for_each_bad_request bad post pre w l) as (w' & Hrun & Hl' & Hs');
    try done.
  exists w'. unfold _cmd__track, bind. rewrite Hrun. by rewrite Hs'.
Qed.

(** What the code does handle: rejections by [NotFoundError]. *)
Lemma track_skips_not_found epics : forall (w : world) l,
  authd w = true -> client w = Some c -> tracked_of w = Some l ->
  Forall (fun e => get_market c e = inr tt
                   \/ get_market c e = inl NotFoundError) epics ->
  exists w', for_each (add_tracker env) epics w = (inr tt, w')
    /\ tracked_of w' = Some (l ++ filter (fun e => accepted c e = true) epics)%list
    /\ authd w' = true /\ client w' = Some c.
Proof.
  induction epics as [|e epics IH]; intros w l Hauth Hc Hl Hall.
  - exists w. by rewrite app_nil_r.
  - apply Forall_cons in Hall as [[He|He] Hall].
    + destruct (add_tracker_accepted w e l) as (w1 & Hrun & Hl1 & Ha1 & Hc1 & _);
        try done.
      destruct (IH w1 (l ++ [e])%list) as (w2 & Hrun2 & Hl2 & Ha2 & Hc2);
        try done.
      exists w2. simpl. unfold bind. rewrite Hrun, Hrun2.
      rewrite filter_cons_True by (unfold accepted; by rewrite bool_decide_eq_true).
      by rewrite <- app_assoc in Hl2.
    + destruct (IH (msg_out ("Unable to find market: " +:+ e) w).2 l)
        as (w2 & Hrun2 & Hl2 & Ha2 & Hc2); try done.
      exists w2. simpl. unfold bind.
      rewrite add_tracker_not_found, Hrun2 by done.
      rewrite filter_cons_False; [done|].
      unfold accepted. rewrite bool_decide_eq_true. by rewrite He.
Qed.

End Track.


(** ** The trackers buffer *)

Lemma append_assoc (a b c : string) : (a +:+ b) +:+ c = a +:+ b +:+ c.
Proof.
  induction a as [|x a IH]; [done|].
  change (String x ((a +:+ b) +:+ c) = String x (a +:+ b +:+ c)). congruence.
Qed.

Lemma append_nil_r (a : string) : a +:+ "" = a.
Proof.
  induction a as [|x a IH]; [done|].
  change (String x (a +:+ "") = String x a). congruence.
Qed.

(** The enumerate loop, when the length it tests against is the length of
    what it walks over: the lines joined by newlines, none at the end. *)
Lemma lines_loop_join {A} (line : A -> string) n items : forall i buf,
  (i + length items = n)%nat ->
  lines_loop line n i items buf = buf +:+ join NL (map line items).
Proof.
  induction items as [|x rest IH]; intros i buf Hn; simpl.
  - by rewrite append_nil_r.
  - rewrite IH by (simpl in Hn; lia).
    destruct rest as [|y rest]; simpl in *.
    + rewrite decide_False by lia. by rewrite append_nil_r.
    + rewrite decide_True by lia. by rewrite !append_assoc.
Qed.

Lemma trackers_loop_lines (w : world) r markets : forall i buf,
  config w !! "tracked" = Some (VList r) ->
  trackers_loop i markets buf w
  = (inr (lines_loop tracker_line (length (tracked_list w r)) i markets buf), w).
Proof.
  induction markets as [|m rest IH]; intros i buf Ht; simpl; [done|].
  unfold len_value. msimpl. rewrite Ht. wsimpl. by rewrite IH.
Qed.

(** C9, as amended.  On a tick of the trackers task the field is built
    from the answer of the service, not from the tracked list.  When the
    request for the tracked epics is answered with as many market details
    as there are tracked epics, the trackers field becomes the header line
    followed by one line per detail, in the order of the answer, separated
    by newlines, none after the last; so when the answer holds the detail
    of each tracked epic in the stored order, the field lists the tracked
    markets in that order.  When the request raises, the exception leaves
    the task and the field is not written.  Each of the four prices is shown
    as a dash when it is null, whatever the others are; a price of zero is
    shown as a dash too, any other price as the number.  With nothing
    tracked and an empty answer the field is the header line alone. *)
Theorem update_trackers_buffer (w : world) c r :
  authd w = true -> client w = Some c ->
  config w !! "tracked" = Some (VList r) ->
  (forall markets,
     get_markets c (tracked_list w r) = inr markets ->
     length markets = length (tracked_list w r) ->
     update_trackers env w
     = (inr tt,
        set_scr (set_trackers_field
                   (center_fill "-" 60 " TRACKERS " +:+ NL +:+
                    join NL (map tracker_line markets))
                   (scr w)) w))
  /\ (forall detail : string -> market num,
        get_markets c (tracked_list w r)
        = inr (map detail (tracked_list w r)) ->
        trackers_field (scr (update_trackers env w).2)
        = center_fill "-" 60 " TRACKERS " +:+ NL +:+
          join NL (map (fun epic => tracker_line (detail epic))
                       (tracked_list w r)))
  /\ (forall x,
        get_markets c (tracked_list w r) = inl x ->
        update_trackers env w = (inl x, w))
  /\ (forall m : market num,
        (mk_low m = None ->
         tracker_line m
         = ljust 15 (mk_name m) +:+ " || " +:+ rjust 9 "-" +:+ " | " +:+
           rjust 9 (or_dash (mk_high m)) +:+ " || " +:+
           rjust 9 (or_dash (mk_bid m)) +:+ " | " +:+
           rjust 9 (or_dash (mk_offer m)))
        /\ (mk_high m = None ->
            tracker_line m
            = ljust 15 (mk_name m) +:+ " || " +:+
              rjust 9 (or_dash (mk_low m)) +:+ " | " +:+ rjust 9 "-" +:+
              " || " +:+ rjust 9 (or_dash (mk_bid m)) +:+ " | " +:+
              rjust 9 (or_dash (mk_offer m)))
        /\ (mk_bid m = None ->
            tracker_line m
            = ljust 15 (mk_name m) +:+ " || " +:+
              rjust 9 (or_dash (mk_low m)) +:+ " | " +:+
              rjust 9 (or_dash (mk_high m)) +:+ " || " +:+ rjust 9 "-" +:+
              " | " +:+ rjust 9 (or_dash (mk_offer m)))
        /\ (mk_offer m = None ->
            tracker_line m
            = ljust 15 (mk_name m) +:+ " || " +:+
              rjust 9 (or_dash (mk_low m)) +:+ " | " +:+
              rjust 9 (or_dash (mk_high m)) +:+ " || " +:+
              rjust 9 (or_dash (mk_bid m)) +:+ " | " +:+ rjust 9 "-"))
  /\ (forall n : num,
        or_dash (Some n) = if num_truthy n then num_str n else "-")
  /\ (tracked_list w r = [] -> get_markets c [] = inr [] ->
      trackers_field (scr (update_trackers env w).2)
      = center_fill "-" 60 " TRACKERS " +:+ NL).
Proof.
  intros Hauth Hc Ht.
  assert (forall markets,
            get_markets c (tracked_list w r) = inr markets ->
            length markets = length (tracked_list w r) ->
            update_trackers env w
            = (inr tt,
               set_scr (set_trackers_field
                          (center_fill "-" 60 " TRACKERS " +:+ NL +:+
                           join NL (map tracker_line markets))
                          (scr w)) w)) as Hrun.
  { intros markets Hans Hlen.
    unfold update_trackers, update_trackers_body. msimpl.
    rewrite Hauth, Hc. wsimpl. rewrite Ht. wsimpl. rewrite Hans.
    rewrite (trackers_loop_lines w r) by done.
    rewrite lines_loop_join by (by rewrite Hlen).
    by rewrite append_assoc. }
  split; [exact Hrun|]. split; [|split; [|split; [|split]]].
  - intros detail Hans. rewrite (Hrun _ Hans) by (by rewrite length_map).
    wsimpl. by rewrite map_map.
  - intros x Hans. unfold update_trackers, update_trackers_body. msimpl.
    rewrite Hauth, Hc. wsimpl. rewrite Ht. wsimpl. by rewrite Hans.
  - intros m. unfold tracker_line.
    split; [|split; [|split]]; by intros ->.
  - done.
  - intros Hnil Hans. rewrite Hnil in Hrun.
    rewrite (Hrun [] Hans) by done. wsimpl. simpl.
    by rewrite append_nil_r.
Qed.


(** ** What a call leaves alone

    A relation between the state before and the state after that is a
    preorder and looks at the Event flags, the threads, the global
    [stop_threads] and the flag [authd] only is kept by every call, as soon
    as it is kept by the few assignments that reach one of those. *)

Section Frame.

Variable R : world -> world -> Prop.
Hypothesis R_refl : forall w, R w w.
Hypothesis R_trans : forall w1 w2 w3, R w1 w2 -> R w2 w3 -> R w1 w3.
Hypothesis R_glob : forall w w',
  events (glob w') = events (glob w) ->
  pool (glob w') = pool (glob w) ->
  g_stop_threads (glob w') = g_stop_threads (glob w) ->
  authd w' = authd w ->
  R w w'.

#[local] Abbreviation stable := (stable R).

Lemma stable_ret {A} (a : A) : stable (ret a).
Proof. intros w. apply R_refl. Qed.

Lemma stable_raise {A} x : stable (raise x : M A).
Proof. intros w. apply R_refl. Qed.

Lemma stable_get : stable get.
Proof. intros w. apply R_refl. Qed.

Lemma stable_call {A} (r : exn + A) : stable (call r).
Proof. destruct r; [apply stable_raise | apply stable_ret]. Qed.

Lemma stable_bind {A B} (m : M A) (k : A -> M B) :
  stable m -> (forall a, stable (k a)) -> stable (bind m k).
Proof.
  intros Hm Hk w. unfold bind. specialize (Hm w).
  destruct (m w) as [[x|a] w']; [done|].
  eapply R_trans; [exact Hm | apply Hk].
Qed.

Lemma stable_try_except {A} (body : M A) handled handler :
  stable body -> (forall x, stable (handler x)) ->
  stable (try_except body handled handler).
Proof.
  intros Hb Hh w. unfold try_except. specialize (Hb w).
  destruct (body w) as [[x|a] w']; [|done].
  destruct (handled x); [|done].
  eapply R_trans; [exact Hb | apply Hh].
Qed.

Lemma stable_modify (f : world -> world) :
  (forall w, events (glob (f w)) = events (glob w)
             /\ pool (glob (f w)) = pool (glob w)
             /\ g_stop_threads (glob (f w)) = g_stop_threads (glob w)
             /\ authd (f w) = authd w) ->
  stable (modify f).
Proof. intros Hf w. destruct (Hf w) as (? & ? & ? & ?). by apply R_glob. Qed.

Ltac frame_step :=
  first
    [ apply stable_ret | apply stable_raise | apply stable_get
    | apply stable_call
    | apply stable_modify; intros ?; wsimpl; done
    | solve [auto with frame nocore]
    | apply stable_bind; [ | intros ? ]
    | apply stable_try_except; [ | intros ? ]
    | match goal with
      | |- stable (match ?x with _ => _ end) => destruct x
      end
    | progress cbv zeta ].

Ltac frame := repeat frame_step.

Lemma stable_msg_out text : stable (msg_out text).
Proof. unfold msg_out. frame. Qed.
Hint Resolve stable_msg_out : frame.

Lemma stable_log_error text : stable (log_error text).
Proof. unfold log_error. frame. Qed.
Hint Resolve stable_log_error : frame.

Lemma stable_getitem key : stable (getitem key).
Proof. unfold getitem. frame. Qed.
Hint Resolve stable_getitem : frame.

Lemma stable_as_list v : stable (as_list v).
Proof. unfold as_list. frame. Qed.
Lemma stable_as_dict v : stable (as_dict v).
Proof. unfold as_dict. frame. Qed.
Lemma stable_as_int v : stable (as_int v).
Proof. unfold as_int. frame. Qed.
Lemma stable_len_value v : stable (len_value v).
Proof. unfold len_value. frame. Qed.
Lemma stable_the_client name : stable (the_client name).
Proof. unfold the_client. frame. Qed.
Hint Resolve stable_as_list stable_as_dict stable_as_int stable_len_value
  stable_the_client : frame.

Lemma stable_req_auth f : stable f -> stable (req_auth env f).
Proof. intros Hf. unfold req_auth. frame. Qed.

Lemma stable_update_status : stable (update_status env).
Proof. unfold update_status. frame. Qed.

Lemma stable_update_positions : stable (update_positions env).
Proof.
  apply stable_req_auth. unfold update_positions_body. frame.
Qed.

Lemma stable_update_activity : stable (update_activity env).
Proof. apply stable_req_auth. unfold update_activity_body. frame. Qed.

Lemma stable_update_orders : stable (update_orders env).
Proof. apply stable_req_auth. unfold update_orders_body. frame. Qed.

Lemma stable_trackers_loop markets : forall i buf,
  stable (trackers_loop i markets buf).
Proof.
  induction markets as [|m rest IH]; intros i buf; simpl; frame.
Qed.
Hint Resolve stable_trackers_loop : frame.

Lemma stable_update_trackers : stable (update_trackers env).
Proof. apply stable_req_auth. unfold update_trackers_body. frame. Qed.

Hint Resolve stable_update_status stable_update_positions
  stable_update_activity stable_update_orders stable_update_trackers : frame.

Lemma stable_run_task f : stable (run_task env f).
Proof. destruct f; simpl; auto with frame nocore. Qed.


(** Calls that create or start timers. *)
Hypothesis R_timer : forall f v, stable (RepeatTimer f v).
Hypothesis R_start : forall h, stable (thread_start h).

Lemma stable_create_and_start : stable create_and_start.
Proof using R_refl R_trans R_glob R_timer R_start.
  pose proof R_timer. pose proof R_start.
  unfold create_and_start. frame.
Qed.

Lemma stable_load_config filename : stable (load_config env filename).
Proof.
  apply stable_req_auth. unfold load_config_body, open_read. frame.
Qed.

Lemma stable_write_config : stable (write_config env).
Proof. apply stable_req_auth. unfold write_config_body, open_read. frame. Qed.

Lemma stable_set_api api_key : stable (set_api env api_key).
Proof. unfold set_api. frame. Qed.

Lemma stable_add_tracker tracker : stable (add_tracker env tracker).
Proof.
  apply stable_req_auth. unfold add_tracker_body, append_tracked. frame.
Qed.

Lemma stable_del_tracker tracker : stable (del_tracker env tracker).
Proof. apply stable_req_auth. unfold del_tracker_body. frame. Qed.

Lemma stable_for_each f args :
  (forall arg, stable (f arg)) -> stable (for_each f args).
Proof. intros Hf. induction args as [|arg rest IH]; simpl; frame. Qed.

Lemma stable_replace_aliases args a_args : stable (replace_aliases args a_args).
Proof. intros w. rewrite replace_aliases_state. apply R_refl. Qed.

Hint Resolve stable_create_and_start stable_load_config stable_write_config
  stable_set_api stable_add_tracker stable_del_tracker stable_replace_aliases
  : frame.

(** Calls that reach the Events or the global. *)
Hypothesis R_reset : stable reset_stop_threads.
Hypothesis R_event_set : forall e, stable (event_set e).
Hypothesis R_clear :
  stable (modify (fun w => set_glob (set_g_stop_threads None (glob w)) w)).

Lemma stable_start_threads : stable (start_threads env).
Proof using R_refl R_trans R_glob R_timer R_start R_reset.
  pose proof R_reset.
  apply stable_req_auth. unfold start_threads_body. frame.
Qed.

Lemma stable_stop_threads : stable (stop_threads env).
Proof using R_refl R_trans R_glob R_event_set R_clear.
  pose proof R_event_set. pose proof R_clear.
  apply stable_req_auth. unfold stop_threads_body. frame.
Qed.

Hint Resolve stable_start_threads stable_stop_threads : frame.

Lemma stable_restart_threads : stable (restart_threads env).
Proof. apply stable_req_auth. frame. Qed.

(** The one assignment to [authd]. *)
Hypothesis R_authd : stable (modify (set_authd true)).

Lemma stable_login identifier password :
  stable (login env identifier password).
Proof using R_refl R_trans R_glob R_timer R_start R_reset R_authd.
  pose proof R_authd. unfold login. frame.
Qed.

Lemma stable_logout : stable (logout env).
Proof.
  apply stable_req_auth. unfold logout_body, call_method. simpl. frame.
Qed.

Lemma stable_exit_ctrl_q : stable exit_ctrl_q.
Proof using R_refl R_trans R_event_set.
  pose proof R_event_set. unfold exit_ctrl_q. frame.
Qed.

Hint Resolve stable_restart_threads stable_login stable_logout
  stable_exit_ctrl_q : frame.

Lemma stable_commands name command args :
  assoc name (commands env) = Some command ->
  stable (command args).
Proof using R_refl R_trans R_glob R_timer R_start R_reset R_authd.
  unfold commands. simpl.
  repeat (case_decide; [intros [= <-]|]); [..|done].
  - unfold _cmd__update. apply stable_req_auth. frame.
  - unfold _cmd__api. frame.
  - unfold _cmd__login. frame.
  - unfold _cmd__save. frame.
  - unfold _cmd__track. frame. apply stable_for_each. auto with frame nocore.
  - unfold _cmd__stoptrack. frame. apply stable_for_each. auto with frame nocore.
  - unfold _cmd__search. frame.
  - unfold _cmd__buy. frame.
  - unfold _cmd__alias. frame.
Qed.

Lemma stable_dispatch a0 rest : stable (dispatch env a0 rest).
Proof.
  unfold dispatch.
  destruct (assoc _ _) as [command|] eqn:Hc; [|frame].
  by eapply stable_commands.
Qed.

Lemma stable_parse text : stable (parse env text).
Proof.
  intros w. rewrite parse_cases.
  destruct (replace_aliases (split_ws text) [] w).1 as [x|[|a0 rest]];
    [apply R_refl | apply R_refl | apply stable_dispatch].
Qed.

Lemma stable_serve r : stable (serve env r).
Proof.
  pose proof stable_parse.
  destruct r; simpl; frame.
Qed.

End Frame.


(** ** Threads at rest *)

Lemma undisturbed_refl (w : world) : undisturbed w w.
Proof. by split. Qed.

Lemma undisturbed_trans (w1 w2 w3 : world) :
  undisturbed w1 w2 -> undisturbed w2 w3 -> undisturbed w1 w3.
Proof. intros [E1 P1] [E2 P2]. split; eauto. Qed.

Lemma undisturbed_glob (w w' : world) :
  events (glob w') = events (glob w) ->
  pool (glob w') = pool (glob w) ->
  g_stop_threads (glob w') = g_stop_threads (glob w) ->
  authd w' = authd w ->
  undisturbed w w'.
Proof. intros He Hp _ _. unfold undisturbed, is_set. by rewrite He, Hp. Qed.

Lemma undisturbed_timer f v : stable (@undisturbed num) (RepeatTimer f v).
Proof.
  intros w. unfold RepeatTimer. destruct v; try apply undisturbed_refl.
  msimpl. wsimpl. split; [done|].
  intros tid t Ht _. wsimpl. by apply lookup_app_l_Some.
Qed.

Lemma undisturbed_start h : stable (@undisturbed num) (thread_start h).
Proof.
  intros w. destruct h as [tid|]; [|apply undisturbed_refl].
  unfold thread_start.
  destruct (pool (glob w) !! tid) as [t|] eqn:Ht; [|apply undisturbed_refl].
  destruct (t_pc t) eqn:Hpc; try apply undisturbed_refl.
  split; [done|]. intros tid' t' Ht' Hpc'. wsimpl.
  destruct (decide (tid = tid')) as [->|]; [congruence|].
  by rewrite list_lookup_insert_ne.
Qed.

Lemma undisturbed_reset : stable (@undisturbed num) reset_stop_threads.
Proof.
  intros w. unfold reset_stop_threads, Event. msimpl.
  destruct (g_stop_threads (glob w)); [apply undisturbed_refl|].
  wsimpl. split; [|done].
  intros e. unfold is_set. wsimpl.
  destruct (events (glob w) !! e) as [b|] eqn:He; [|done].
  intros. by rewrite (lookup_app_l_Some _ _ _ _ He).
Qed.

Lemma undisturbed_event_set e : stable (@undisturbed num) (@event_set num e).
Proof.
  intros w. unfold event_set. msimpl. wsimpl. split; [|done].
  intros e'. unfold is_set. wsimpl.
  destruct (decide (e = e')) as [->|]; [|by rewrite list_lookup_insert_ne].
  destruct (events (glob w) !! e') as [b|] eqn:He; [|done].
  intros. rewrite list_lookup_insert_eq; [done|]. by eapply lookup_lt_Some.
Qed.

Lemma undisturbed_clear :
  stable (@undisturbed num)
    (modify (fun w : world => set_glob (set_g_stop_threads None (glob w)) w)).
Proof. intros w. by split. Qed.

Lemma undisturbed_authd : stable (@undisturbed num) (modify (set_authd true)).
Proof. intros w. by split. Qed.

Lemma serve_undisturbed r (w : world) : undisturbed w (serve env r w).2.
Proof.
  apply (stable_serve undisturbed);
    [ exact undisturbed_refl | exact undisturbed_trans | exact undisturbed_glob
    | exact undisturbed_timer | exact undisturbed_start
    | exact undisturbed_reset | exact undisturbed_event_set
    | exact undisturbed_clear | exact undisturbed_authd ].
Qed.

Lemma run_task_undisturbed f (w : world) : undisturbed w (run_task env f w).2.
Proof.
  apply (stable_run_task undisturbed);
    [ exact undisturbed_refl | exact undisturbed_trans
    | exact undisturbed_glob ].
Qed.

Lemma rests_started (w : world) t : rests w t -> t_pc t <> Created.
Proof. unfold rests. by destruct (t_pc t). Qed.

Lemma undisturbed_rests (w w' : world) t :
  undisturbed w w' -> rests w t -> rests w' t.
Proof. intros [He _]. unfold rests. destruct (t_pc t); auto. Qed.

(** One step of the system keeps a thread at rest at rest, with the same
    count of calls; a thread that has crashed stays as it is. *)
Lemma rest_step l (w : world) tid t :
  pool (glob w) !! tid = Some t -> rests w t ->
  exists t', pool (glob (step env l w)) !! tid = Some t'
    /\ t_ticks t' = t_ticks t /\ rests (step env l w) t'
    /\ (forall x, t_pc t = Crashed x -> t_pc t' = Crashed x).
Proof.
  intros Ht Hrest. destruct l as [r|tid']; simpl.
  - destruct (serve_undisturbed r w) as [He Hp].
    exists t. split; [by eapply Hp, rests_started|].
    split; [done|]. split; [|done].
    eapply undisturbed_rests; [|done]. by split.
  - unfold step_thread.
    destruct (pool (glob w) !! tid') as [t0|] eqn:Ht0; [|by exists t].
    destruct (decide (tid' = tid)) as [->|Hne].
    + assert (t0 = t) as -> by congruence.
      assert (tid < length (pool (glob w))) by (by eapply lookup_lt_Some).
      unfold rests in Hrest.
      destruct (t_pc t) eqn:Hpc; try done; try (exists t; unfold rests; by rewrite Hpc).
      rewrite Hrest. exists (set_pc Finished t).
      unfold set_thread. wsimpl. by rewrite list_lookup_insert_eq.
    + destruct (t_pc t0) eqn:Hpc0; try (by exists t).
      * destruct (g_stop_threads (glob w)); exists t; unfold set_thread; wsimpl;
          by rewrite list_lookup_insert_ne.
      * destruct (is_set w e); exists t; unfold set_thread; wsimpl;
          by rewrite list_lookup_insert_ne.
      * pose proof (run_task_undisturbed (t_func t0) w) as Hun.
        assert (pool (glob (run_task env (t_func t0) w).2) !! tid = Some t)
          as Ht' by (by eapply Hun, rests_started).
        assert (rests (run_task env (t_func t0) w).2 t) as Hrest'
          by (by eapply undisturbed_rests).
        destruct (run_task env (t_func t0) w) as [[x|[]] w']; simpl in *;
          exists t; unfold set_thread; wsimpl;
          by rewrite list_lookup_insert_ne.
Qed.

Lemma rest_forever schedule : forall (w : world) tid t,
  pool (glob w) !! tid = Some t -> rests w t ->
  exists t', pool (glob (exec env schedule w)) !! tid = Some t'
    /\ t_ticks t' = t_ticks t /\ rests (exec env schedule w) t'
    /\ (forall x, t_pc t = Crashed x -> t_pc t' = Crashed x).
Proof.
  induction schedule as [|l schedule IH]; intros w tid t Ht Hrest.
  - by exists t.
  - destruct (rest_step l w tid t) as (t1 & Ht1 & Hticks1 & Hrest1 & Hx1);
      try done.
    destruct (IH (step env l w) tid t1) as (t2 & Ht2 & Hticks2 & Hrest2 & Hx2);
      try done.
    exists t2. simpl. split; [done|]. split; [congruence|]. split; [done|].
    eauto.
Qed.


(** ** An Event that has been replaced *)

Section Retired.

Variable e : nat.

Lemma retired_refl (w : world) : stays_retired e w w.
Proof. by split. Qed.

Lemma retired_trans (w1 w2 w3 : world) :
  stays_retired e w1 w2 -> stays_retired e w2 w3 -> stays_retired e w1 w3.
Proof. intros [J1 P1] [J2 P2]. split; eauto. Qed.

Lemma retired_glob (w w' : world) :
  events (glob w') = events (glob w) ->
  pool (glob w') = pool (glob w) ->
  g_stop_threads (glob w') = g_stop_threads (glob w) ->
  authd w' = authd w ->
  stays_retired e w w'.
Proof.
  intros He Hp Hg _. unfold stays_retired, retired. by rewrite He, Hp, Hg.
Qed.

Lemma retired_timer f v : stable (@stays_retired num e) (RepeatTimer f v).
Proof.
  intros w. unfold RepeatTimer. destruct v; try apply retired_refl.
  msimpl. wsimpl. split; [done|].
  intros tid t' Ht' Hpc. wsimpl.
  apply lookup_app_Some in Ht' as [Ht'|[_ Ht']]; [done|].
  apply list_lookup_singleton_Some in Ht' as [_ <-]. done.
Qed.

Lemma retired_start h : stable (@stays_retired num e) (thread_start h).
Proof.
  intros w. destruct h as [tid|]; [|apply retired_refl].
  unfold thread_start.
  destruct (pool (glob w) !! tid) as [t|] eqn:Ht; [|apply retired_refl].
  destruct (t_pc t) eqn:Hpc; try apply retired_refl.
  split; [done|]. intros tid' t' Ht' Hpc'. wsimpl.
  apply list_lookup_insert_Some in Ht' as [(_ & <- & _)|[_ Ht']]; done.
Qed.

Lemma retired_reset : stable (@stays_retired num e) reset_stop_threads.
Proof.
  intros w. unfold reset_stop_threads, Event. msimpl.
  destruct (g_stop_threads (glob w)) eqn:Hg; [apply retired_refl|].
  wsimpl. split; [|done]. unfold retired. wsimpl.
  intros [Hlt _]. rewrite length_app. simpl. split; [lia|].
  intros [= Heq]. lia.
Qed.

Lemma retired_event_set e0 : stable (@stays_retired num e) (@event_set num e0).
Proof.
  intros w. unfold event_set. msimpl. wsimpl. split; [|done].
  unfold retired. wsimpl. by rewrite length_insert.
Qed.

Lemma retired_clear :
  stable (@stays_retired num e)
    (modify (fun w : world => set_glob (set_g_stop_threads None (glob w)) w)).
Proof. intros w. split; [|done]. unfold retired. by intros [? _]. Qed.

Lemma retired_authd : stable (@stays_retired num e) (modify (set_authd true)).
Proof. intros w. by split. Qed.

Lemma serve_stays_retired r (w : world) : stays_retired e w (serve env r w).2.
Proof.
  apply (stable_serve (stays_retired e));
    [ exact retired_refl | exact retired_trans | exact retired_glob
    | exact retired_timer | exact retired_start
    | exact retired_reset | exact retired_event_set
    | exact retired_clear | exact retired_authd ].
Qed.

Lemma run_task_stays_retired f (w : world) :
  stays_retired e w (run_task env f w).2.
Proof.
  apply (stable_run_task (stays_retired e));
    [ exact retired_refl | exact retired_trans | exact retired_glob ].
Qed.

(** While [e] is retired, a thread that is not waiting on it does not come
    to wait on it: at the loop head a thread takes the Event the global
    holds. *)
Lemma away_step l (w : world) tid :
  retired e w ->
  (forall t, pool (glob w) !! tid = Some t -> t_pc t <> Waiting e) ->
  retired e (step env l w)
  /\ (forall t, pool (glob (step env l w)) !! tid = Some t ->
                t_pc t <> Waiting e).
Proof.
  intros Hret Haway. destruct l as [r|tid']; simpl.
  - destruct (serve_stays_retired r w) as [HJ HP].
    split; [auto|]. intros t Ht Hpc. eapply Haway; eauto.
  - unfold step_thread.
    destruct (pool (glob w) !! tid') as [t0|] eqn:Ht0; [|done].
    assert (forall t1 (w' : world),
              retired e w' ->
              (forall t, pool (glob w') !! tid = Some t -> t_pc t <> Waiting e) ->
              t_pc t1 <> Waiting e ->
              retired e (set_thread tid' t1 w')
              /\ (forall t, pool (glob (set_thread tid' t1 w')) !! tid = Some t ->
                            t_pc t <> Waiting e)) as Hset.
    { intros t1 w' Hret' Haway' Hpc1. split; [done|].
      intros t. unfold set_thread. wsimpl.
      intros [(_ & <- & _)|[_ Ht]]%list_lookup_insert_Some; eauto. }
    destruct (t_pc t0) eqn:Hpc0; try done.
    + destruct (g_stop_threads (glob w)) as [e0|] eqn:Hg; apply Hset; try done.
      simpl. intros [= ->]. by destruct Hret as [_ Hne].
    + destruct (is_set w e0); by apply Hset.
    + destruct (run_task_stays_retired (t_func t0) w) as [HJ HP].
      destruct (run_task env (t_func t0) w) as [[x|[]] w']; simpl in *;
        apply Hset; auto; intros t Ht Hpc; eapply Haway; eauto.
Qed.

Lemma away_forever schedule : forall (w : world) tid,
  retired e w ->
  (forall t, pool (glob w) !! tid = Some t -> t_pc t <> Waiting e) ->
  forall t, pool (glob (exec env schedule w)) !! tid = Some t ->
            t_pc t <> Waiting e.
Proof.
  induction schedule as [|l schedule IH]; intros w tid Hret Haway; [done|].
  destruct (away_step l w tid Hret Haway) as [Hret' Haway'].
  simpl. by apply IH.
Qed.

End Retired.

(** ** A failing tick *)

(** C2, as amended: an exception raised by the function of a timer is not
    caught by [run].  It ends the loop of that thread for good: the thread is
    dead and its function is never called again, whatever happens next.  The
    loop goes on to its next turn only after a call that returned. *)
Theorem failing_tick_ends_loop (w : world) tid t :
  pool (glob w) !! tid = Some t -> t_pc t = InAction ->
  (forall x w', run_task env (t_func t) w = (inl x, w') ->
     forall schedule,
     exists t', pool (glob (exec env schedule (step_thread env tid w))) !! tid
                = Some t'
       /\ t_pc t' = Crashed x /\ t_ticks t' = t_ticks t)
  /\ (forall w', run_task env (t_func t) w = (inr tt, w') ->
        pool (glob (step_thread env tid w)) !! tid = Some (set_pc LoopHead t)).
Proof.
  intros Ht Hpc.
  assert (forall r w', run_task env (t_func t) w = (r, w') ->
            tid < length (pool (glob w'))) as Hlen.
  { intros r w' Hrun. pose proof (run_task_undisturbed (t_func t) w) as [_ Hp].
    rewrite Hrun in Hp. eapply lookup_lt_Some, Hp; [done|]. by rewrite Hpc. }
  split.
  - intros x w' Hrun schedule.
    assert (step_thread env tid w = set_thread tid (set_pc (Crashed x) t) w')
      as -> by (unfold step_thread; by rewrite Ht, Hpc, Hrun).
    destruct (rest_forever schedule
                (set_thread tid (set_pc (Crashed x) t) w') tid
                (set_pc (Crashed x) t)) as (t' & Ht' & Hticks & _ & Hx).
    + unfold set_thread. wsimpl. rewrite list_lookup_insert_eq; eauto.
    + done.
    + exists t'. eauto.
  - intros w' Hrun. unfold step_thread. rewrite Ht, Hpc, Hrun.
    unfold set_thread. wsimpl. rewrite list_lookup_insert_eq; eauto.
Qed.

(** ** Stop and start *)

Lemma stop_threads_run (w : world) e :
  authd w = true -> g_stop_threads (glob w) = Some e ->
  stop_threads env w
  = (inr tt,
     set_glob (set_g_stop_threads None
                 (set_events (<[e := true]> (events (glob w))) (glob w)))
              (set_hs no_handles w)).
Proof.
  intros Hauth Hg. unfold stop_threads, stop_threads_body, event_set. msimpl.
  by rewrite Hauth, Hg.
Qed.

(** The creation and the start of the timers leave the Events and the
    global as they are. *)
Lemma create_and_start_same_token (w : world) :
  same_token w (create_and_start (num := num) w).2.
Proof.
  apply (stable_create_and_start same_token).
  - by split.
  - intros w1 w2 w3 [E1 G1] [E2 G2]. split; congruence.
  - intros w1 w2 He _ Hg _. by split.
  - intros f v w1. unfold RepeatTimer. destruct v; by split.
  - intros [tid|] w1; [|by split]. unfold thread_start.
    destruct (pool (glob w1) !! tid) as [t|]; [|by split].
    destruct (t_pc t); by split.
Qed.

Lemma start_threads_mints (w : world) :
  authd w = true -> g_stop_threads (glob w) = None -> hs w = no_handles ->
  g_stop_threads (glob (start_threads env w).2) = Some (length (events (glob w)))
  /\ events (glob (start_threads env w).2) = (events (glob w) ++ [false])%list.
Proof.
  intros Hauth Hg Hhs.
  unfold start_threads, start_threads_body, reset_stop_threads, Event. msimpl.
  rewrite Hauth, Hhs. wsimpl.
  rewrite (bool_decide_eq_false_2 (is_Some (positions_thread no_handles)))
    by (by intros [? ?]).
  cbn [andb]. rewrite Hg. wsimpl.
  match goal with
  | |- context [create_and_start ?w1] =>
      destruct (create_and_start_same_token w1) as [He Hg'];
      destruct (create_and_start w1) as [[x|[]] w2]
  end; wsimpl; by rewrite He, Hg'.
Qed.

(** C1, as amended.  [stop_threads] sets the Event the global holds and
    clears the global, and the [start_threads] that follows installs a new
    Event, flag down, leaving the old one set.  A thread that is blocked in
    [wait] on the stopped Event is at rest from then on: along every
    schedule, with any number of later starts and stops, its function is
    not called again.  No thread created later ever waits on the stopped
    Event, so nothing that still refers to it can stop the next generation.
    (The threads do not hold their Event: a thread that is inside its
    function during the stop reads the global afresh afterwards and is
    not covered by the second statement.) *)
Theorem stopped_generation_at_rest (w : world) e tid t schedule :
  authd w = true -> g_stop_threads (glob w) = Some e ->
  is_Some (events (glob w) !! e) ->
  pool (glob w) !! tid = Some t -> t_pc t = Waiting e ->
  (is_set (stop_threads env w).2 e = true
   /\ g_stop_threads (glob (stop_threads env w).2) = None
   /\ hs (stop_threads env w).2 = no_handles)
  /\ (g_stop_threads (glob (start_threads env (stop_threads env w).2).2)
      = Some (length (events (glob w)))
      /\ is_set (start_threads env (stop_threads env w).2).2
                (length (events (glob w))) = false
      /\ is_set (start_threads env (stop_threads env w).2).2 e = true)
  /\ (exists t',
        pool (glob (exec env schedule (stop_threads env w).2)) !! tid = Some t'
        /\ t_ticks t' = t_ticks t
        /\ rests (exec env schedule (stop_threads env w).2) t')
  /\ (forall tid' t',
        length (pool (glob w)) <= tid' ->
        pool (glob (exec env schedule (stop_threads env w).2)) !! tid' = Some t' ->
        t_pc t' <> Waiting e).
Proof.
  intros Hauth Hg [b He] Ht Hpc.
  assert (e < length (events (glob w))) as Hlt by (by eapply lookup_lt_Some).
  rewrite (stop_threads_run w e) by done. simpl.
  set (w1 := set_glob _ _).
  assert (is_set w1 e = true) as Hset.
  { unfold is_set, w1. wsimpl. by rewrite list_lookup_insert_eq. }
  split; [done|]. split; [|split].
  - destruct (start_threads_mints w1) as [Hg2 He2]; try done.
    unfold is_set. rewrite Hg2, He2. unfold w1. wsimpl.
    rewrite length_insert. split; [done|]. split.
    + rewrite lookup_app_r by (by rewrite length_insert).
      by rewrite length_insert, Nat.sub_diag.
    + rewrite lookup_app_l by (by rewrite length_insert).
      by rewrite list_lookup_insert_eq.
  - destruct (rest_forever schedule w1 tid t) as (t' & Ht' & Hticks & Hrest & _).
    + done.
    + unfold rests. by rewrite Hpc.
    + exists t'. eauto.
  - intros tid' t' Hnew. apply (away_forever e schedule w1 tid').
    + unfold retired, w1. wsimpl. by rewrite length_insert.
    + intros t0 Ht0. unfold w1 in Ht0. wsimpl.
      apply lookup_lt_Some in Ht0. lia.
Qed.

(** ** The guard of [start_threads] *)

(** C7, as amended: while the session holds the handles of a started set,
    [start_threads] creates no thread.  It writes the error record
    'Threads already running!' and changes nothing else.  (The guard reads
    the handles; a thread of a stopped set that is still running is not
    seen by it.) *)
Theorem start_threads_guard (w : world) :
  authd w = true ->
  is_Some (positions_thread (hs w)) -> is_Some (trackers_thread (hs w)) ->
  start_threads env w
  = (inr tt, set_errors (errors w ++ ["Threads already running!"]) w).
Proof.
  intros Hauth Hp Ht. unfold start_threads, start_threads_body. msimpl.
  rewrite Hauth. by rewrite !bool_decide_eq_true_2.
Qed.


Lemma lookup_app_plus {A} (l1 l2 : list A) k :
  (l1 ++ l2)%list !! (length l1 + k) = l2 !! k.
Proof. induction l1; simpl; auto. Qed.

Lemma insert_app_plus {A} (l1 l2 : list A) k x :
  <[length l1 + k := x]> (l1 ++ l2)%list = (l1 ++ <[k := x]> l2)%list.
Proof. induction l1; simpl; [done | by f_equal]. Qed.

Lemma thread_start_app (w : world) tid l1 t l2 :
  pool (glob w) = (l1 ++ t :: l2)%list -> tid = length l1 -> t_pc t = Created ->
  thread_start (Some tid) w
  = (inr tt, set_glob (set_pool (l1 ++ set_pc LoopHead t :: l2) (glob w)) w).
Proof.
  intros Hp -> Hpc. unfold thread_start.
  rewrite Hp, list_lookup_middle by done. rewrite Hpc.
  rewrite <- (Nat.add_0_r (length l1)). by rewrite insert_app_plus.
Qed.

Lemma create_and_start_run (w : world) n :
  config w !! "refresh" = Some (VInt n) ->
  create_and_start w
  = (inr tt,
     set_glob
       (set_pool (pool (glob w) ++
                  map (started n (generation (glob w)))
                      [update_positions_task; update_activity_task;
                       update_orders_task; update_trackers_task])
                 (glob w))
       (set_hs {| positions_thread := Some (length (pool (glob w)));
                  activity_thread := Some (length (pool (glob w)) + 1);
                  orders_thread := Some (length (pool (glob w)) + 2);
                  trackers_thread := Some (length (pool (glob w)) + 3) |} w)).
Proof.
  intros Hr. unfold create_and_start, RepeatTimer. msimpl. wsimpl.
  repeat (rewrite Hr; wsimpl).
  rewrite <- !app_assoc. simpl app. rewrite !length_app. simpl length.
  erewrite (thread_start_app _ _ (pool (glob w)));
    [|wsimpl; reflexivity|done|done].
  erewrite (thread_start_app _ _ (pool (glob w) ++ [_]));
    [|wsimpl; rewrite <- app_assoc; reflexivity
     |rewrite length_app; reflexivity|done].
  rewrite <- app_assoc. simpl app.
  erewrite (thread_start_app _ _ (pool (glob w) ++ [_; _]));
    [|wsimpl; rewrite <- app_assoc; reflexivity
     |rewrite length_app; reflexivity|done].
  rewrite <- app_assoc. simpl app.
  erewrite (thread_start_app _ _ (pool (glob w) ++ [_; _; _]));
    [|wsimpl; rewrite <- app_assoc; reflexivity
     |rewrite length_app; reflexivity|done].
  rewrite <- app_assoc. simpl app.
  reflexivity.
Qed.

(** From a stopped session [start_threads] creates the four timers, and
    holding their handles it creates none: a second call is the guard's. *)
Lemma start_threads_twice (w : world) n :
  authd w = true -> hs w = no_handles ->
  config w !! "refresh" = Some (VInt n) ->
  exists w1, start_threads env w = (inr tt, w1)
    /\ length (pool (glob w1)) = length (pool (glob w)) + 4
    /\ (start_threads env w1).1 = inr tt
    /\ pool (glob (start_threads env w1).2) = pool (glob w1)
    /\ hs (start_threads env w1).2 = hs w1.
Proof.
  intros Hauth Hhs Hr.
  assert (exists w1, start_threads env w = (inr tt, w1)
            /\ length (pool (glob w1)) = length (pool (glob w)) + 4
            /\ authd w1 = true
            /\ is_Some (positions_thread (hs w1))
            /\ is_Some (trackers_thread (hs w1))) as (w1 & Hrun & Hlen & Ha & Hp & Ht).
  { unfold start_threads, start_threads_body, reset_stop_threads, Event.
    msimpl.
    rewrite Hauth, Hhs. wsimpl.
    rewrite (bool_decide_eq_false_2 (is_Some (positions_thread no_handles)))
      by (by intros [? ?]).
    cbn [andb].
    destruct (g_stop_threads (glob w)); wsimpl;
      (erewrite create_and_start_run by (wsimpl; exact Hr));
      eexists; (split; [reflexivity|]); wsimpl;
      rewrite length_app; simpl; eauto. }
  exists w1. split; [done|]. split; [done|].
  unfold start_threads, start_threads_body. msimpl.
  rewrite Ha. by rewrite !bool_decide_eq_true_2.
Qed.


(** ** The session that is not logged in *)

Lemma stays_refl (w : world) : stays_logged_in w w.
Proof. by intros ?. Qed.

Lemma stays_trans (w1 w2 w3 : world) :
  stays_logged_in w1 w2 -> stays_logged_in w2 w3 -> stays_logged_in w1 w3.
Proof. intros H12 H23 ?. auto. Qed.

Lemma stays_glob (w w' : world) :
  events (glob w') = events (glob w) ->
  pool (glob w') = pool (glob w) ->
  g_stop_threads (glob w') = g_stop_threads (glob w) ->
  authd w' = authd w ->
  stays_logged_in w w'.
Proof. intros _ _ _ Ha ?. congruence. Qed.

Lemma stays_same {A} (m : M A) :
  (forall w, authd (m w).2 = authd w) -> stable (@stays_logged_in num) m.
Proof. intros Hm w Ha. by rewrite Hm. Qed.

Lemma stays_timer f v : stable (@stays_logged_in num) (RepeatTimer f v).
Proof. apply stays_same. intros w. unfold RepeatTimer. by destruct v. Qed.

Lemma stays_start h : stable (@stays_logged_in num) (thread_start h).
Proof.
  apply stays_same. intros w. destruct h as [tid|]; [|done].
  unfold thread_start. destruct (pool (glob w) !! tid) as [t|]; [|done].
  by destruct (t_pc t).
Qed.

Lemma stays_reset : stable (@stays_logged_in num) reset_stop_threads.
Proof.
  apply stays_same. intros w. unfold reset_stop_threads, Event. msimpl.
  by destruct (g_stop_threads (glob w)).
Qed.

Lemma stays_event_set e : stable (@stays_logged_in num) (@event_set num e).
Proof. by apply stays_same. Qed.

Lemma stays_clear :
  stable (@stays_logged_in num)
    (modify (fun w : world => set_glob (set_g_stop_threads None (glob w)) w)).
Proof. by apply stays_same. Qed.

Lemma stays_authd : stable (@stays_logged_in num) (modify (set_authd true)).
Proof. by intros w ?. Qed.

Lemma serve_stays_logged_in r (w : world) :
  stays_logged_in w (serve env r w).2.
Proof.
  apply (stable_serve stays_logged_in);
    [ exact stays_refl | exact stays_trans | exact stays_glob
    | exact stays_timer | exact stays_start | exact stays_reset
    | exact stays_event_set | exact stays_clear | exact stays_authd ].
Qed.

Lemma run_task_stays_logged_in f (w : world) :
  stays_logged_in w (run_task env f w).2.
Proof.
  apply (stable_run_task stays_logged_in);
    [ exact stays_refl | exact stays_trans | exact stays_glob ].
Qed.

Lemma step_stays_logged_in l (w : world) : stays_logged_in w (step env l w).
Proof.
  destruct l as [r|tid]; simpl; [apply serve_stays_logged_in|].
  intros Ha. unfold step_thread.
  destruct (pool (glob w) !! tid) as [t|]; [|done].
  destruct (t_pc t); try done.
  - by destruct (g_stop_threads (glob w)).
  - by destruct (is_set w e).
  - pose proof (run_task_stays_logged_in (t_func t) w Ha) as Hrun.
    by destruct (run_task env (t_func t) w) as [[x|[]] w'].
Qed.

Lemma parse_empty_config_state text (w : world) :
  config w = ∅ -> (parse env text w).2 = w.
Proof.
  intros Hcfg. destruct (split_ws text) as [|arg rest] eqn:Hargs.
  - rewrite parse_cases, Hargs. done.
  - rewrite parse_without_alias_table; [done| |by rewrite Hargs].
    by rewrite Hcfg.
Qed.

Lemma guarded_logged_out f (w : world) :
  authd w = false -> req_auth env f w = msg_out (auth_required env) w.
Proof. intros Ha. unfold req_auth. msimpl. by rewrite Ha. Qed.

Lemma serve_logged_out r (w : world) :
  authd w = false -> config w = ∅ ->
  authd (serve env r w).2 = true \/ config (serve env r w).2 = ∅.
Proof.
  intros Ha Hcfg. destruct r; simpl.
  - right. by rewrite parse_empty_config_state.
  - by right.
  - unfold login, bind at 1, bind at 1. unfold the_client. msimpl.
    destruct (client w) as [c|]; [|by right].
    destruct (client_login c identifier password) as [x|[|]];
      [by right| |by right].
    left. wsimpl.
    set (w1 := set_id (Some identifier) (set_authd true w)).
    assert (stays_logged_in w1 (load_config env "config.yml" w1).2) as H1
      by (apply (stable_load_config stays_logged_in);
          [ exact stays_refl | exact stays_trans | exact stays_glob ]).
    specialize (H1 eq_refl).
    destruct (load_config env "config.yml" w1) as [[x|[]] w2]; [done|].
    assert (stays_logged_in w2 (start_threads env w2).2) as H2
      by (apply (stable_start_threads stays_logged_in);
          [ exact stays_refl | exact stays_trans | exact stays_glob
          | exact stays_timer | exact stays_start | exact stays_reset ]).
    specialize (H2 H1).
    by destruct (start_threads env w2) as [[x|[]] w3].
  - right. unfold logout. by rewrite guarded_logged_out.
  - right. unfold start_threads. by rewrite guarded_logged_out.
  - right. unfold stop_threads. by rewrite guarded_logged_out.
  - right. unfold restart_threads. by rewrite guarded_logged_out.
  - right. unfold exit_ctrl_q. msimpl. by destruct (g_stop_threads (glob w)).
Qed.

Lemma run_task_logged_out f (w : world) :
  authd w = false ->
  authd (run_task env f w).2 = false
  /\ config (run_task env f w).2 = config w.
Proof.
  intros Ha. destruct f; simpl;
    [by unfold update_status
    |unfold update_positions|unfold update_activity
    |unfold update_orders|unfold update_trackers];
    by rewrite guarded_logged_out.
Qed.

(** Every step keeps it: the configuration is assigned by [load_config]
    and [logout] only, both behind the guard, and [_cmd__alias] has no table
    to write into. *)
Lemma step_logged_out_empty l (w : world) :
  logged_out_empty w -> logged_out_empty (step env l w).
Proof.
  intros Hinv. destruct (authd w) eqn:Ha.
  - intros Hout. pose proof (step_stays_logged_in l w Ha). congruence.
  - specialize (Hinv Ha). destruct l as [r|tid]; simpl.
    + destruct (serve_logged_out r w Ha Hinv) as [Hin|Hcfg];
        intros Hout; [congruence|done].
    + intros _. unfold step_thread.
      destruct (pool (glob w) !! tid) as [t|]; [|done].
      destruct (t_pc t); try done.
      * by destruct (g_stop_threads (glob w)).
      * by destruct (is_set w e).
      * destruct (run_task_logged_out (t_func t) w Ha) as [_ Hcfg].
        destruct (run_task env (t_func t) w) as [[x|[]] w']; simpl in *;
          unfold set_thread; wsimpl; congruence.
Qed.

Lemma reachable_logged_out_empty schedule : forall w : world,
  logged_out_empty w -> logged_out_empty (exec env schedule w).
Proof.
  induction schedule as [|l schedule IH]; intros w Hinv; [done|].
  simpl. by apply IH, step_logged_out_empty.
Qed.

(** C3, on the code: in every state a new object can reach, as long as
    nobody is logged in, every line that has a token makes [parse] raise
    [KeyError: 'alias'] in the alias loop, before any handler or guard is
    reached.  No message is written and nothing changes. *)
Theorem parse_logged_out_KeyError schedule files text :
  authd (exec env schedule (fresh env files)) = false ->
  split_ws text <> [] ->
  parse env text (exec env schedule (fresh env files))
  = (inl (KeyError "alias"), exec env schedule (fresh env files)).
Proof.
  intros Hout Hargs. apply parse_without_alias_table; [|done].
  assert (config (exec env schedule (fresh env files)) = ∅) as ->;
    [|done].
  by apply (reachable_logged_out_empty schedule (fresh env files)).
Qed.

(** [IGCLI()] gives that object or none at all: with the three variables
    of [autologin] set, the constructor raises [TypeError]. *)
Lemma IGCLI_init_cases files :
  IGCLI_init env files
  = if env_set env "IG_API_KEY" && env_set env "IG_ID" && env_set env "IG_PWD"
    then inl TypeError else inr (fresh env files).
Proof.
  unfold IGCLI_init, autologin.
  by destruct (env_set env "IG_API_KEY" && env_set env "IG_ID"
               && env_set env "IG_PWD").
Qed.

(** ** Aliases and the command line *)

Lemma snoc_append (cur : string) c s : snoc cur c +:+ s = cur +:+ String c s.
Proof. unfold snoc. by rewrite append_assoc. Qed.

Lemma split_on_go_word s : forall rest cur,
  no_space s = true ->
  split_on_go " " (s +:+ rest) cur = split_on_go " " rest (cur +:+ s).
Proof.
  induction s as [|c s IH]; intros rest cur Hs.
  - by rewrite append_nil_r.
  - change (String c s +:+ rest) with (String c (s +:+ rest)).
    unfold no_space in Hs. simpl in Hs. apply andb_prop in Hs as [Hc Hs].
    simpl. rewrite decide_False.
    + rewrite IH by done. by rewrite snoc_append.
    + intros ->. done.
Qed.

Lemma split_on_go_space rest cur :
  split_on_go " " (String " " rest) cur = cur :: split_on_go " " rest "".
Proof. reflexivity. Qed.

(** [' '.join(l).split(' ')] gives [l] back when no token holds a space
    and there is a token. *)
Lemma split_join_words l : forall x cur,
  no_space x = true -> Forall (fun t => no_space t = true) l ->
  split_on_go " " (join " " (x :: l)) cur = (cur +:+ x) :: l.
Proof.
  induction l as [|y l IH]; intros x cur Hx Hl.
  - simpl join. rewrite <- (append_nil_r x) at 1.
    by rewrite split_on_go_word.
  - apply Forall_cons in Hl as [Hy Hl].
    change (join " " (x :: y :: l)) with (x +:+ " " +:+ join " " (y :: l)).
    rewrite split_on_go_word by done.
    change (" " +:+ join " " (y :: l)) with (String " " (join " " (y :: l))).
    rewrite split_on_go_space. by rewrite IH.
Qed.

Lemma cmd_alias_run (w : world) d name exp :
  config w !! "alias" = Some (VDict d) ->
  _cmd__alias (name :: exp) w
  = (inr tt,
     (msg_out ("Added alias: " +:+ name +:+ " = " +:+ join " " exp)
        (set_config (<["alias" := VDict (<[name := join " " exp]> d)]> (config w))
                    w)).2).
Proof. intros Hd. unfold _cmd__alias. msimpl. by rewrite Hd. Qed.

(** X1: an alias defined with at least one word gives those words back
    when its name is met on a later line. *)
Theorem alias_then_expand (w : world) d name exp :
  config w !! "alias" = Some (VDict d) ->
  exp <> [] -> Forall (fun t => no_space t = true) exp ->
  (_cmd__alias (name :: exp) w).1 = inr tt
  /\ replace_aliases [name] [] (_cmd__alias (name :: exp) w).2
     = (inr exp, (_cmd__alias (name :: exp) w).2).
Proof.
  intros Hd Hne Hexp. rewrite (cmd_alias_run w d) by done.
  split; [done|]. cbn [snd].
  rewrite (replace_aliases_closed (<[name := join " " exp]> d)).
  - simpl. unfold expand_token. rewrite lookup_insert_eq.
    destruct exp as [|x exp]; [done|].
    apply Forall_cons in Hexp as [Hx Hexp].
    unfold split_space. rewrite split_join_words by done.
    by rewrite app_nil_r.
  - unfold msg_out, modify. wsimpl. by rewrite lookup_insert_eq.
Qed.

Lemma dispatch_alias rest (w : world) :
  dispatch env "alias" rest w = _cmd__alias rest w.
Proof. reflexivity. Qed.

(** X2: the words of an [alias] line go through the alias loop like
    those of any other line before the handler sees them. *)
Theorem alias_line_is_expanded (w : world) d text args :
  config w !! "alias" = Some (VDict d) -> d !! "alias" = None ->
  split_ws text = "alias" :: args ->
  parse env text w = _cmd__alias (flat_map (expand_token d) args) w
  /\ (forall a e b rest more,
        args = a :: more -> d !! a = Some e -> split_space e = b :: rest ->
        b <> a ->
        exists d',
          config (parse env text w).2 !! "alias" = Some (VDict d')
          /\ d' !! a = Some e
          /\ d' !! b = Some (join " " (rest ++ flat_map (expand_token d) more))).
Proof.
  intros Hd Hno Htext.
  assert (parse env text w = _cmd__alias (flat_map (expand_token d) args) w)
    as Hrun.
  { rewrite <- dispatch_alias. apply parse_tokens.
    rewrite (replace_aliases_closed d) by done.
    rewrite Htext. simpl. unfold expand_token at 1. by rewrite Hno. }
  split; [done|].
  intros a e b rest more -> Ha Hb Hne. rewrite Hrun.
  simpl flat_map. unfold expand_token at 1. rewrite Ha, Hb.
  change ((b :: rest) ++ flat_map (expand_token d) more)%list
    with (b :: (rest ++ flat_map (expand_token d) more))%list.
  rewrite (cmd_alias_run w d) by done.
  eexists. unfold msg_out, modify. wsimpl. rewrite lookup_insert_eq.
  split; [reflexivity|].
  rewrite lookup_insert_eq. by rewrite lookup_insert_ne.
Qed.

Lemma append_inj_l (p a b : string) : p +:+ a = p +:+ b -> a = b.
Proof.
  induction p as [|x p IH]; [done|].
  change (String x (p +:+ a) = String x (p +:+ b) -> a = b).
  intros [= Heq]. auto.
Qed.

Lemma assoc_unknown_command a0 :
  a0 ∉ command_names -> assoc ("_cmd__" +:+ a0) (commands env) = None.
Proof.
  intros Hno. unfold commands. simpl.
  repeat (let Heq := fresh "Heq" in case_decide as Heq;
          [exfalso; apply Hno; unfold command_names;
           match type of Heq with
           | ?l = _ =>
               let r := eval vm_compute in (String.substring 6 (String.length l - 6) l) in
               change l with ("_cmd__" +:+ r) in Heq
           end;
           apply append_inj_l in Heq; subst a0; set_solver |]).
  done.
Qed.

(** X3: a line whose first word, after the alias loop, is none of the nine
    command names is answered by one message; no handler runs and nothing
    else changes. *)
Theorem parse_unrecognised (w : world) d text a0 rest :
  config w !! "alias" = Some (VDict d) ->
  flat_map (expand_token d) (split_ws text) = a0 :: rest ->
  a0 ∉ command_names ->
  parse env text w
  = (inr tt,
     set_scr (set_msg_field
                (msg_field (scr w) +:+ NL +:+ "Unrecognised command: " +:+ a0)
                (scr w)) w).
Proof.
  intros Hd Hargs Hno.
  rewrite (parse_tokens text w a0 rest).
  - unfold dispatch. by rewrite assoc_unknown_command.
  - rewrite (replace_aliases_closed d) by done. by rewrite Hargs.
Qed.

(** ** Starting a session *)

Lemma guard_false (w : world) :
  positions_thread (hs w) = None \/ trackers_thread (hs w) = None ->
  bool_decide (is_Some (positions_thread (hs w)))
  && bool_decide (is_Some (trackers_thread (hs w))) = false.
Proof.
  intros [Hn|Hn]; rewrite Hn.
  - by rewrite (bool_decide_eq_false_2 (is_Some None)) by (by intros [? ?]).
  - rewrite (bool_decide_eq_false_2 (is_Some None)) by (by intros [? ?]).
    apply andb_false_r.
Qed.

Lemma start_threads_run (w : world) n :
  authd w = true ->
  positions_thread (hs w) = None \/ trackers_thread (hs w) = None ->
  config w !! "refresh" = Some (VInt n) ->
  exists w',
    start_threads env w = (inr tt, w')
    /\ pool (glob w')
       = (pool (glob w) ++
          map (started n (S (generation (glob w))))
              [update_positions_task; update_activity_task;
               update_orders_task; update_trackers_task])%list
    /\ hs w' = {| positions_thread := Some (length (pool (glob w)));
                  activity_thread := Some (length (pool (glob w)) + 1);
                  orders_thread := Some (length (pool (glob w)) + 2);
                  trackers_thread := Some (length (pool (glob w)) + 3) |}
    /\ g_stop_threads (glob w')
       = Some (default (length (events (glob w))) (g_stop_threads (glob w)))
    /\ events (glob w')
       = match g_stop_threads (glob w) with
         | Some _ => events (glob w)
         | None => (events (glob w) ++ [false])%list
         end
    /\ config w' = config w /\ authd w' = true /\ _id w' = _id w
    /\ client w' = client w /\ scr w' = scr w /\ errors w' = errors w.
Proof.
  intros Hauth Hhs Hr.
  unfold start_threads, start_threads_body, reset_stop_threads, Event. msimpl.
  rewrite Hauth, guard_false by done.
  destruct (g_stop_threads (glob w)) eqn:Hg; wsimpl;
    (erewrite create_and_start_run by (wsimpl; exact Hr));
    eexists; (split; [reflexivity|]); wsimpl; rewrite ?Hg; done.
Qed.

(** X4: [start_threads], when the session holds no complete set of
    handles, creates exactly four timers, for the positions, the activity,
    the orders and the trackers in that order, each with the interval
    [config['refresh']] and each started; the session holds their handles,
    and the global holds an Event again. *)
Theorem start_threads_creates_four (w : world) n :
  authd w = true ->
  positions_thread (hs w) = None \/ trackers_thread (hs w) = None ->
  config w !! "refresh" = Some (VInt n) ->
  (start_threads env w).1 = inr tt
  /\ pool (glob (start_threads env w).2)
     = (pool (glob w) ++
        [started n (S (generation (glob w))) update_positions_task;
         started n (S (generation (glob w))) update_activity_task;
         started n (S (generation (glob w))) update_orders_task;
         started n (S (generation (glob w))) update_trackers_task])%list
  /\ hs (start_threads env w).2
     = {| positions_thread := Some (length (pool (glob w)));
          activity_thread := Some (length (pool (glob w)) + 1);
          orders_thread := Some (length (pool (glob w)) + 2);
          trackers_thread := Some (length (pool (glob w)) + 3) |}
  /\ g_stop_threads (glob (start_threads env w).2)
     = Some (default (length (events (glob w))) (g_stop_threads (glob w))).
Proof.
  intros Hauth Hhs Hr.
  destruct (start_threads_run w n) as (w' & -> & Hp & Hh & Hg & _); try done.
Qed.

(** What [load_config] leaves alone. *)
Lemma load_config_keeps filename (w : world) :
  glob (load_config env filename w).2 = glob w
  /\ hs (load_config env filename w).2 = hs w
  /\ authd (load_config env filename w).2 = authd w
  /\ _id (load_config env filename w).2 = _id w
  /\ client (load_config env filename w).2 = client w
  /\ errors (load_config env filename w).2 = errors w.
Proof.
  unfold load_config, load_config_body, open_read, len_value. msimpl.
  destruct (authd w) eqn:Ha; wsimpl; [|done].
  destruct (files (glob w) !! filename) as [[l|]|]; wsimpl; [| |done].
  - destruct (dict_truthy l); wsimpl.
    + destruct (dict_truthy (default ∅ (l !! _id w))); wsimpl;
        repeat (match goal with
                | |- context [match ?x !! ?k with _ => _ end] =>
                    destruct (x !! k) as [[]|]
                end; wsimpl); done.
    + done.
  - done.
Qed.

(** The load of an entry that is there. *)
Lemma load_config_entry (w : world) i l e :
  authd w = true -> _id w = Some i ->
  files (glob w) !! "config.yml" = Some (Some l) ->
  l !! Some i = Some e -> dict_truthy e = true ->
  (forall k, e !! "tracked" <> Some (VInt k)) ->
  (load_config env "config.yml" w).1 = inr tt
  /\ config (load_config env "config.yml" w).2 = e ∪ config_default.
Proof.
  intros Hauth Hid Hfile Hi He Htr.
  split; [|by eapply load_config_partial_entry].
  assert (dict_truthy l = true) as Hl.
  { unfold dict_truthy. destruct (size l) eqn:Hs; [|done].
    apply map_size_empty_iff in Hs. subst. by rewrite lookup_empty in Hi. }
  unfold load_config, load_config_body, open_read. msimpl.
  rewrite Hauth. wsimpl. rewrite Hfile. wsimpl. rewrite Hl, Hid, Hi. wsimpl.
  change (default ∅ (Some e)) with e. rewrite He. wsimpl.
  rewrite backfill_defaults.
  assert (is_Some ((e ∪ config_default) !! "refresh")) as [vr Hvr].
  { rewrite lookup_union. destruct (e !! "refresh"); by eexists. }
  assert (is_Some ((e ∪ config_default) !! "currency")) as [vc Hvc].
  { rewrite lookup_union. destruct (e !! "currency"); by eexists. }
  assert (exists vt, (e ∪ config_default) !! "tracked" = Some vt
                     /\ forall k, vt <> VInt k) as (vt & Hvt' & Hvt).
  { rewrite lookup_union. destruct (e !! "tracked") as [v|] eqn:Et.
    - exists v. split; [done|]. intros k ->. by eapply Htr.
    - by eexists. }
  rewrite Hvr. wsimpl. rewrite Hvc. wsimpl. rewrite Hvt'.
  wsimpl. unfold len_value. msimpl.
  destruct vt as [k| | |]; [by destruct (Hvt k)|done..].
Qed.

Lemma login_accepted (w : world) c i p :
  client w = Some c -> client_login c i p = inr true ->
  login env i p w
  = (load_config env "config.yml";; start_threads env;; ret true)
      (set_id (Some i) (set_authd true w)).
Proof.
  intros Hc Hyes. unfold login at 1. unfold the_client.
  cbv [bind get ret raise call modify]. by rewrite Hc, Hyes.
Qed.

(** X5: a login the service accepts, for an account that has an entry in
    [config.yml], makes the session authenticated under that id, loads the
    entry with the defaults filled in and starts the four timers with the
    refresh interval of the loaded configuration. *)
Theorem login_starts_session (w : world) c i p l e n :
  client w = Some c -> client_login c i p = inr true ->
  files (glob w) !! "config.yml" = Some (Some l) ->
  l !! Some i = Some e -> dict_truthy e = true ->
  (forall k, e !! "tracked" <> Some (VInt k)) ->
  (e ∪ config_default) !! "refresh" = Some (VInt n) ->
  positions_thread (hs w) = None \/ trackers_thread (hs w) = None ->
  exists w',
    login env i p w = (inr true, w')
    /\ authd w' = true /\ _id w' = Some i
    /\ config w' = e ∪ config_default
    /\ pool (glob w')
       = (pool (glob w) ++
          map (started n (S (generation (glob w))))
              [update_positions_task; update_activity_task;
               update_orders_task; update_trackers_task])%list
    /\ is_Some (g_stop_threads (glob w')).
Proof.
  intros Hc Hyes Hfile Hi He Htr Hn Hhs.
  rewrite (login_accepted w c) by done.
  set (w0 := set_id (Some i) (set_authd true w)).
  destruct (load_config_entry w0 i l e) as [Hok Hcfg]; try done.
  destruct (load_config_keeps "config.yml" w0)
    as (Hglob & Hhs1 & Ha1 & Hid1 & _).
  unfold bind at 1.
  destruct (load_config env "config.yml" w0) as [r w1]. simpl in *. subst r.
  destruct (start_threads_run w1 n) as (w2 & Hrun & Hp & _ & Hg & _ & Hc2 & Ha2 & Hid2 & _).
  - by rewrite Ha1.
  - by rewrite Hhs1.
  - by rewrite Hcfg.
  - exists w2. unfold bind. rewrite Hrun. unfold ret.
    split; [done|]. split; [done|]. split; [by rewrite Hid2, Hid1|].
    split; [by rewrite Hc2|]. split; [by rewrite Hp, Hglob|].
    rewrite Hg. by eexists.
Qed.

Lemma login_refused (w : world) i p :
  match client w with
  | Some c => client_login c i p <> inr true
  | None => True
  end ->
  (login env i p w).2 = w.
Proof.
  intros Hno. unfold login, the_client. cbv [bind get ret raise call modify].
  destruct (client w) as [c|]; [|done].
  destruct (client_login c i p) as [x|[|]]; done.
Qed.

(** X6: a login the service does not accept (it answers no, it raises, or
    there is no client yet) leaves the session exactly as it was. *)
Theorem login_without_success (w : world) i p :
  match client w with
  | Some c => client_login c i p <> inr true
  | None => True
  end ->
  (login env i p w).2 = w
  /\ (login env i p w).1 <> inr true
  /\ (client w = None -> (login env i p w).1 = inl (AttributeError "login")).
Proof.
  intros Hno. unfold login, the_client. cbv [bind get ret raise call modify].
  destruct (client w) as [c|]; [|done].
  destruct (client_login c i p) as [x|[|]]; done.
Qed.

(** X7: [login] is not undone when the load fails.  With the service
    saying yes and no file [config.yml], [FileNotFoundError] leaves [login]
    after the session was marked authenticated: the id is set, the
    configuration is what it was and no timer is created. *)
Theorem login_load_failure (w : world) c i p :
  client w = Some c -> client_login c i p = inr true ->
  files (glob w) !! "config.yml" = None ->
  login env i p w
  = (inl (FileNotFoundError "config.yml"),
     (msg_out ("Loading " +:+ i +:+ " configuration...")
        (set_id (Some i) (set_authd true w))).2)
  /\ authd (login env i p w).2 = true
  /\ config (login env i p w).2 = config w
  /\ pool (glob (login env i p w).2) = pool (glob w)
  /\ hs (login env i p w).2 = hs w.
Proof.
  intros Hc Hyes Hfile.
  assert (login env i p w
          = (inl (FileNotFoundError "config.yml"),
             (msg_out ("Loading " +:+ i +:+ " configuration...")
                (set_id (Some i) (set_authd true w))).2)) as ->.
  { rewrite (login_accepted w c) by done.
    unfold load_config, load_config_body, open_read. msimpl. wsimpl.
    by rewrite Hfile. }
  done.
Qed.

(** X8: a login into a session whose timers are running loads the
    configuration of the new account but creates no timer: the guard of
    [start_threads] writes its error record, the old timers stay with the
    interval they were created with, and [login] still answers yes. *)
Theorem login_while_running (w : world) c i p l e :
  client w = Some c -> client_login c i p = inr true ->
  files (glob w) !! "config.yml" = Some (Some l) ->
  l !! Some i = Some e -> dict_truthy e = true ->
  (forall k, e !! "tracked" <> Some (VInt k)) ->
  is_Some (positions_thread (hs w)) -> is_Some (trackers_thread (hs w)) ->
  (login env i p w).1 = inr true
  /\ _id (login env i p w).2 = Some i
  /\ config (login env i p w).2 = e ∪ config_default
  /\ pool (glob (login env i p w).2) = pool (glob w)
  /\ hs (login env i p w).2 = hs w
  /\ errors (login env i p w).2 = (errors w ++ ["Threads already running!"])%list.
Proof.
  intros Hc Hyes Hfile Hi He Htr Hp Ht.
  set (w0 := set_id (Some i) (set_authd true w)).
  destruct (load_config_entry w0 i l e) as [Hok Hcfg]; try done.
  destruct (load_config_keeps "config.yml" w0)
    as (Hglob & Hhs1 & Ha1 & Hid1 & _ & Herr).
  assert (login env i p w
          = (inr true,
             set_errors (errors (load_config env "config.yml" w0).2
                         ++ ["Threads already running!"])
                        (load_config env "config.yml" w0).2)) as ->.
  { rewrite (login_accepted w c) by done. fold w0.
    unfold bind at 1.
    destruct (load_config env "config.yml" w0) as [r w1]. simpl in *. subst r.
    unfold start_threads, start_threads_body. msimpl.
    rewrite Ha1, Hhs1. by rewrite !bool_decide_eq_true_2 by done. }
  wsimpl. by rewrite Hglob, Herr, Hhs1.
Qed.

Create HintDb blind.

(** ** Saving and loading *)

Lemma truthy_or_empty {K} `{Countable K} {V} (l : gmap K V) :
  (if dict_truthy l then l else ∅) = l.
Proof.
  unfold dict_truthy. destruct (size l) eqn:Hs; [|done].
  apply map_size_empty_iff in Hs. by subst.
Qed.

Lemma write_config_run (w : world) doc :
  authd w = true -> files (glob w) !! config_file w = Some doc ->
  write_config env w
  = (inr tt,
     set_glob (set_files
                 (<[config_file w :=
                      Some (<[_id w := dump_value w <$> config w]>
                              (default ∅ doc))]> (files (glob w)))
                 (glob w)) w).
Proof.
  intros Hauth Hfile. unfold write_config, write_config_body, open_read.
  msimpl. rewrite Hauth, Hfile. destruct doc as [l|]; [|done].
  by rewrite truthy_or_empty.
Qed.

(** X9: what was saved is what the next load gives.  After [write_config]
    on the file [config.yml], [load_config] rebuilds the configuration of
    the account, defaults added for the keys it lacks, and the tracked
    markets are those of the session that saved. *)
Theorem save_then_load (w : world) i doc :
  authd w = true -> _id w = Some i -> config_file w = "config.yml" ->
  files (glob w) !! "config.yml" = Some doc -> config w <> ∅ ->
  (write_config env w).1 = inr tt
  /\ config (load_config env "config.yml" (write_config env w).2).2
     = (dump_value w <$> config w) ∪ config_default
  /\ (forall l, tracked_of w = Some l ->
        tracked_of (load_config env "config.yml" (write_config env w).2).2
        = Some l).
Proof.
  intros Hauth Hid Hcf Hfile Hne.
  rewrite (write_config_run w doc) by (by rewrite ?Hcf).
  split; [done|]. cbn [snd].
  set (w1 := set_glob _ w).
  assert (config (load_config env "config.yml" w1).2
          = (dump_value w <$> config w) ∪ config_default) as Hcfg.
  { apply (load_config_partial_entry w1 i
             (<[_id w := dump_value w <$> config w]> (default ∅ doc))).
    - done.
    - done.
    - unfold w1. wsimpl. by rewrite Hcf, lookup_insert_eq.
    - by rewrite Hid, lookup_insert_eq.
    - unfold dict_truthy. rewrite map_size_fmap.
      destruct (size (config w)) eqn:Hs; [|done].
      by apply map_size_empty_iff in Hs. }
  split; [done|].
  intros l Hl. unfold tracked_of in *. rewrite Hcfg.
  destruct (config w !! "tracked") as [[| |r|]|] eqn:Ht; try done.
  injection Hl as <-.
  rewrite lookup_union, lookup_fmap, Ht. done.
Qed.

(** X11: [write_config] opens the file [config_file] for reading first,
    so it cannot create it: with no such file, [save] raises
    [FileNotFoundError], writes no message and changes nothing.  With the
    file there, [write_config] replaces the entry of the account with the
    configuration (lists by content) and keeps the entries of the other
    accounts and the other files. *)
Theorem write_config_entries (w : world) :
  authd w = true ->
  (files (glob w) !! config_file w = None ->
   forall args,
     _cmd__save env args w = (inl (FileNotFoundError (config_file w)), w))
  /\ (forall doc, files (glob w) !! config_file w = Some doc ->
        (write_config env w).1 = inr tt
        /\ (exists l',
              files (glob (write_config env w).2) !! config_file w
              = Some (Some l')
              /\ l' !! _id w = Some (dump_value w <$> config w)
              /\ forall j, j <> _id w -> l' !! j = default ∅ doc !! j)
        /\ (forall f, f <> config_file w ->
              files (glob (write_config env w).2) !! f = files (glob w) !! f)
        /\ config (write_config env w).2 = config w).
Proof.
  intros Hauth. split.
  - intros Hfile args.
    unfold _cmd__save, write_config, write_config_body, open_read. msimpl.
    by rewrite Hauth, Hfile.
  - intros doc Hfile. rewrite (write_config_run w doc) by done.
    split; [done|]. wsimpl. split; [|split; [|done]].
    + eexists. rewrite lookup_insert_eq. split; [reflexivity|].
      rewrite lookup_insert_eq. split; [done|].
      intros j Hj. by rewrite lookup_insert_ne.
    + intros f Hf. by rewrite lookup_insert_ne.
Qed.

(** ** What [login] does not look at *)

Section Blind.

Variable f : string.
Variable fs : gmap string document.

#[local] Abbreviation unseen := (@blind num f fs).
#[local] Abbreviation moved := (@transplanted num f fs).

Lemma blind_ret {A} (a : A) : unseen (ret a).
Proof. by intros w HP. Qed.

Lemma blind_raise {A} x : unseen (raise x : M A).
Proof. by intros w HP. Qed.

Lemma blind_call {A} (r : exn + A) : unseen (call r).
Proof. destruct r; [apply blind_raise | apply blind_ret]. Qed.

Lemma blind_bind {A B} (m : M A) (k : A -> M B) :
  unseen m -> (forall a, unseen (k a)) -> unseen (bind m k).
Proof.
  intros Hm Hk w HP. unfold bind. destruct (Hm w HP) as [-> HP1].
  destruct (m w) as [[x|a] w1]; cbn [fst snd] in *; [done|].
  by apply Hk.
Qed.

(** A computation that starts by reading the state. *)
Lemma blind_get_bind {A} (k : world -> M A) :
  (forall w0, unseen (k w0)) ->
  (forall w, files (glob w) !! "config.yml" = fs !! "config.yml" ->
             k (moved w) = k w) ->
  unseen (bind get k).
Proof.
  intros Hk Hsame w HP. unfold bind, get. rewrite (Hsame w HP).
  by apply Hk.
Qed.

Lemma blind_modify (g : world -> world) :
  (forall w, g (moved w) = moved (g w)) ->
  (forall w, files (glob (g w)) = files (glob w)) ->
  unseen (modify g).
Proof.
  intros Hg Hfiles w HP. unfold modify. cbn [fst snd].
  by rewrite Hg, Hfiles.
Qed.

Ltac blind_step :=
  lazymatch goal with
  | |- unseen (match ?x with _ => _ end) => destruct x
  | |- unseen (ret _) => apply blind_ret
  | |- unseen (raise _) => apply blind_raise
  | |- unseen (call _) => apply blind_call
  | |- unseen (modify _) => apply blind_modify; intros ?; reflexivity
  | |- unseen (bind get _) =>
      apply blind_get_bind; [ intros ? | intros ? ?; reflexivity ]
  | |- unseen (bind _ _) => apply blind_bind; [ | intros ? ]
  | |- _ => first [ solve [auto with blind nocore] | progress cbv zeta ]
  end.

Ltac blindness := repeat blind_step.

Lemma blind_msg_out text : unseen (msg_out text).
Proof. unfold msg_out. blindness. Qed.

Lemma blind_log_error text : unseen (log_error text).
Proof. unfold log_error. blindness. Qed.

Lemma blind_getitem key : unseen (getitem key).
Proof. unfold getitem. blindness. Qed.

Lemma blind_as_int v : unseen (as_int v).
Proof. unfold as_int. blindness. Qed.

Lemma blind_the_client name : unseen (the_client name).
Proof. unfold the_client. blindness. Qed.

Lemma blind_len_value v : unseen (len_value v).
Proof.
  unfold len_value. apply blind_get_bind.
  - intros w0. blindness.
  - intros w HP. by destruct v as [| |[]|].
Qed.

Hint Resolve blind_msg_out blind_log_error blind_getitem blind_as_int
  blind_the_client blind_len_value : blind.

Lemma blind_req_auth m : unseen m -> unseen (req_auth env m).
Proof. intros Hm. unfold req_auth. blindness. Qed.

Lemma blind_open_read : unseen (open_read "config.yml").
Proof.
  unfold open_read. apply blind_get_bind.
  - intros w0. blindness.
  - intros w HP. cbv beta. cbn [transplanted glob set_files files].
    by rewrite HP.
Qed.

Lemma blind_load_config : unseen (load_config env "config.yml").
Proof.
  pose proof blind_open_read.
  apply blind_req_auth. unfold load_config_body.
  apply blind_get_bind; [|done]. intros w0.
  apply blind_bind; [blindness|]. intros _.
  apply blind_bind; [blindness|]. intros loaded.
  apply blind_bind.
  { destruct loaded as [l|]; [|blindness].
    destruct (dict_truthy l); [|blindness].
    apply blind_bind; [blindness|]. intros _.
    apply blind_get_bind; [|done]. intros w1.
    destruct (dict_truthy (config w1)); blindness. }
  intros _. blindness.
Qed.

Lemma blind_RepeatTimer func v : unseen (RepeatTimer func v).
Proof. unfold RepeatTimer. blindness. Qed.

Lemma blind_thread_start h : unseen (thread_start h).
Proof.
  destruct h as [tid|]; [|apply blind_raise].
  intros w HP. unfold thread_start.
  cbn [transplanted glob set_files pool].
  destruct (pool (glob w) !! tid) as [t|]; [|done].
  by destruct (t_pc t).
Qed.

Lemma blind_Event : unseen Event.
Proof. unfold Event. blindness. Qed.

Hint Resolve blind_RepeatTimer blind_thread_start blind_Event : blind.

Lemma blind_reset_stop_threads : unseen reset_stop_threads.
Proof. unfold reset_stop_threads. blindness. Qed.

Lemma blind_create_and_start : unseen create_and_start.
Proof. unfold create_and_start. blindness. Qed.

Hint Resolve blind_reset_stop_threads blind_create_and_start : blind.

Lemma blind_start_threads : unseen (start_threads env).
Proof. apply blind_req_auth. unfold start_threads_body. blindness. Qed.

Lemma blind_login i p : unseen (login env i p).
Proof.
  pose proof blind_load_config. pose proof blind_start_threads.
  unfold login. blindness.
Qed.

End Blind.

(** X12: [login] looks neither at [config_file] nor at any path but
    [config.yml], the path [load_config] opens by default.  In a process
    with another [config_file] and another file system that holds the same
    document at the path [config.yml], [login] has the same outcome and ends
    in the same state, those two differences apart; so it loads the same
    configuration, whatever the variable [IG_CLI_CONFIG] names. *)
Theorem login_ignores_config_file (w : world) f fs i p :
  files (glob w) !! "config.yml" = fs !! "config.yml" ->
  login env i p (transplanted f fs w)
  = ((login env i p w).1, transplanted f fs (login env i p w).2)
  /\ config (login env i p (transplanted f fs w)).2
     = config (login env i p w).2.
Proof.
  intros HP. destruct (blind_login f fs i p w HP) as [-> _]. done.
Qed.


(** ** The list of the defaults *)

Lemma add_tracker_default (w : world) c e :
  authd w = true -> client w = Some c ->
  config w !! "tracked" = Some (VList DefaultTracked) ->
  get_market c e = inr tt ->
  add_tracker env e w
  = (inr tt,
     set_glob (set_default_tracked (default_tracked (glob w) ++ [e])
                                   (glob w)) w).
Proof.
  intros Hauth Hc Ht He.
  unfold add_tracker, add_tracker_body, append_tracked. msimpl.
  rewrite Hauth, Hc. wsimpl. rewrite He. wsimpl. by rewrite Ht.
Qed.

(** X13: the list of tracked markets a session gets from the defaults is
    the list object of [config_default] itself.  A market tracked in such
    a session is appended to the default, and the next load that falls
    back on the defaults, for any account, starts with that market
    tracked. *)
Theorem default_list_leaks (w : world) c e j :
  authd w = true -> client w = Some c ->
  files (glob w) !! "config.yml" = Some None ->
  get_market c e = inr tt ->
  let w1 := (load_config env "config.yml" w).2 in
  let w2 := (add_tracker env e w1).2 in
  let w3 := (load_config env "config.yml" (set_id j w2)).2 in
  tracked_of w1 = Some (default_tracked (glob w))
  /\ default_tracked (glob w2) = (default_tracked (glob w) ++ [e])%list
  /\ tracked_of w3 = Some (default_tracked (glob w) ++ [e])%list.
Proof.
  intros Hauth Hc Hfile He w1 w2 w3.
  destruct (load_config_empty_store w Hauth Hfile) as [_ Hcfg1].
  destruct (load_config_keeps "config.yml" w)
    as (Hglob1 & _ & Ha1 & _ & Hc1 & _).
  fold w1 in Hcfg1, Hglob1, Ha1, Hc1.
  assert (w2 = set_glob (set_default_tracked (default_tracked (glob w1) ++ [e])
                                             (glob w1)) w1) as Hw2.
  { unfold w2. rewrite (add_tracker_default w1 c); try done.
    - by rewrite Ha1.
    - by rewrite Hc1.
    - by rewrite Hcfg1. }
  split.
  { unfold tracked_of. rewrite Hcfg1.
    change (config_default !! "tracked") with (Some (VList DefaultTracked)).
    cbn [tracked_list]. by rewrite Hglob1. }
  split; [rewrite Hw2; wsimpl; by rewrite Hglob1|].
  destruct (load_config_empty_store (set_id j w2)) as [_ Hcfg3].
  - rewrite Hw2. wsimpl. by rewrite Ha1.
  - rewrite Hw2. wsimpl. by rewrite Hglob1.
  - destruct (load_config_keeps "config.yml" (set_id j w2)) as (Hglob3 & _).
    fold w3 in Hcfg3, Hglob3.
    unfold tracked_of. rewrite Hcfg3.
    change (config_default !! "tracked") with (Some (VList DefaultTracked)).
    cbn [tracked_list]. rewrite Hglob3, Hw2. wsimpl.
    by rewrite Hglob1.
Qed.

(** ** Tracking and untracking *)

Lemma remove_first_notin e l : e ∉ l -> remove_first e l = l.
Proof.
  induction l as [|y l IH]; [done|].
  intros Hno. apply not_elem_of_cons in Hno as [Hne Hno].
  simpl. rewrite decide_False by done. by rewrite IH.
Qed.

Lemma remove_first_snoc e l : e ∉ l -> remove_first e (l ++ [e]) = l.
Proof.
  induction l as [|y l IH]; intros Hno; simpl.
  - by rewrite decide_True.
  - apply not_elem_of_cons in Hno as [Hne Hno].
    rewrite decide_False by done. by rewrite IH.
Qed.

Lemma remove_first_app_in e l l' :
  e ∈ l -> remove_first e (l ++ l') = (remove_first e l ++ l')%list.
Proof.
  induction l as [|y l IH]; intros Hin; [by apply elem_of_nil in Hin|].
  simpl. destruct (decide (y = e)); [done|].
  apply elem_of_cons in Hin as [->|Hin]; [done|]. by rewrite IH.
Qed.

Lemma tracked_of_msg_out text (w : world) :
  tracked_of (msg_out text w).2 = tracked_of w.
Proof.
  unfold tracked_of, msg_out, modify. wsimpl.
  by destruct (config w !! "tracked") as [[| |[]|]|].
Qed.

Lemma del_tracker_run (w : world) l e :
  authd w = true -> tracked_of w = Some l ->
  exists w', del_tracker env e w = (inr tt, w')
    /\ tracked_of w' = Some (remove_first e l)
    /\ authd w' = true /\ scr w' = scr w /\ client w' = client w
    /\ (e ∉ l -> w' = w).
Proof.
  intros Hauth Hl. unfold tracked_of in Hl.
  unfold del_tracker, del_tracker_body. msimpl. rewrite Hauth.
  destruct (config w !! "tracked") as [[| |r|]|] eqn:Ht; try done.
  injection Hl as <-. wsimpl.
  case_bool_decide as Hin.
  - destruct r as [|l0]; eexists; (split; [reflexivity|]);
      unfold tracked_of; wsimpl.
    + rewrite Ht. by cbn [tracked_list].
    + by rewrite lookup_insert_eq.
  - exists w. split; [done|]. unfold tracked_of. rewrite Ht.
    by rewrite remove_first_notin.
Qed.

Lemma for_each_del_tracker args : forall (w : world) l,
  authd w = true -> tracked_of w = Some l ->
  exists w', for_each (del_tracker env) args w = (inr tt, w')
    /\ tracked_of w' = Some (fold_left (fun acc e => remove_first e acc) args l)
    /\ authd w' = true /\ scr w' = scr w /\ client w' = client w.
Proof.
  induction args as [|e args IH]; intros w l Hauth Hl.
  - by exists w.
  - destruct (del_tracker_run w l e) as (w1 & Hrun & Hl1 & Ha1 & Hs1 & Hc1 & _);
      try done.
    destruct (IH w1 (remove_first e l)) as (w2 & Hrun2 & Hl2 & Ha2 & Hs2 & Hc2);
      try done.
    exists w2. simpl. unfold bind. rewrite Hrun, Hrun2.
    by rewrite Hs2, Hc2.
Qed.

(** X14: [stoptrack] takes its arguments one by one and removes the first
    occurrence of each from the tracked list; an epic that is not tracked is
    passed over in silence, and the message is written either way. *)
Theorem stoptrack_removes_first (w : world) l args :
  authd w = true -> tracked_of w = Some l ->
  exists w',
    _cmd__stoptrack env args w = (inr tt, w')
    /\ tracked_of w'
       = Some (fold_left (fun acc e => remove_first e acc) args l)
    /\ msg_field (scr w')
       = msg_field (scr w) +:+ NL +:+ "Removed tracked market(s)"
    /\ (Forall (fun e => e ∉ l) args -> tracked_of w' = Some l).
Proof.
  intros Hauth Hl.
  destruct (for_each_del_tracker args w l) as (w1 & Hrun & Hl1 & _ & Hs1 & _);
    try done.
  exists (msg_out "Removed tracked market(s)" w1).2.
  unfold _cmd__stoptrack, bind. rewrite Hrun.
  split; [done|]. rewrite tracked_of_msg_out, Hl1.
  split; [done|]. split; [unfold msg_out, modify; wsimpl; by rewrite Hs1|].
  intros Hno. f_equal. clear -Hno.
  induction Hno as [|e args He _ IH]; [done|].
  simpl. by rewrite remove_first_notin.
Qed.

(** X15: tracking one market the service knows and untracking it again
    gives the list back when the market was not tracked before.  When it
    was, the list has it once more at the end and once less where it first
    stood: nothing keeps a market from being tracked twice. *)
Theorem track_then_stoptrack (w : world) c l e :
  authd w = true -> client w = Some c -> tracked_of w = Some l ->
  get_market c e = inr tt ->
  tracked_of (_cmd__track env [e] w).2 = Some (l ++ [e])%list
  /\ tracked_of (_cmd__stoptrack env [e] (_cmd__track env [e] w).2).2
     = Some (if bool_decide (e ∈ l) then remove_first e l ++ [e] else l)%list.
Proof.
  intros Hauth Hc Hl He.
  destruct (add_tracker_accepted c w e l) as (w1 & Hrun & Hl1 & Ha1 & _);
    try done.
  assert (_cmd__track env [e] w
          = (inr tt, (msg_out "Added tracked market(s)" w1).2)) as ->.
  { unfold _cmd__track. simpl. unfold bind. by rewrite Hrun. }
  cbn [snd].
  set (w2 := (msg_out "Added tracked market(s)" w1).2).
  assert (tracked_of w2 = Some (l ++ [e])%list) as Hl2
    by (unfold w2; by rewrite tracked_of_msg_out).
  split; [done|].
  destruct (for_each_del_tracker [e] w2 (l ++ [e])%list)
    as (w3 & Hrun3 & Hl3 & _); try done.
  unfold _cmd__stoptrack, bind. rewrite Hrun3.
  rewrite tracked_of_msg_out, Hl3. simpl. f_equal.
  case_bool_decide as Hin.
  - by apply remove_first_app_in.
  - by apply remove_first_snoc.
Qed.

(** X16: [track] adds the epics the service knows, in the order given,
    and passes over every epic it answers with [NotFoundError]; the command
    returns. *)
Theorem track_skips_unknown (w : world) c l epics :
  authd w = true -> client w = Some c -> tracked_of w = Some l ->
  Forall (fun e => get_market c e = inr tt
                   \/ get_market c e = inl NotFoundError) epics ->
  (_cmd__track env epics w).1 = inr tt
  /\ tracked_of (_cmd__track env epics w).2
     = Some (l ++ filter (fun e => accepted c e = true) epics)%list.
Proof.
  intros Hauth Hc Hl Hall.
  destruct (track_skips_not_found c epics w l) as (w1 & Hrun & Hl1 & _);
    try done.
  unfold _cmd__track, bind. rewrite Hrun.
  by rewrite tracked_of_msg_out.
Qed.

(** ** The buffers *)

(** X17: the positions, the orders and the activity field are rebuilt from
    the answer of the service alone: the header line (none for the
    activity), then one line per item in the order of the answer, newlines
    between the lines and none after the last. *)
Theorem refresh_buffers (w : world) c :
  authd w = true -> client w = Some c ->
  (forall ps, get_positions_profitloss c = inr ps ->
     update_positions env w
     = (inr tt,
        set_scr (set_positions_field
                   (center_fill "-" 60 " POSITIONS " +:+ NL +:+
                    join NL (map position_line ps)) (scr w)) w))
  /\ (forall os, get_working_orders c = inr os ->
        update_orders env w
        = (inr tt,
           set_scr (set_orders_field
                      (center_fill "-" 60 " ORDERS " +:+ NL +:+
                       join NL (map order_line os)) (scr w)) w))
  /\ (forall acts, get_activity c = inr acts ->
        update_activity env w
        = (inr tt,
           set_scr (set_activity_field (join NL (map activity_line acts))
                                       (scr w)) w)).
Proof.
  intros Hauth Hc. repeat split.
  - intros ps Hps. unfold update_positions, update_positions_body. msimpl.
    rewrite Hauth, Hc. wsimpl. rewrite Hps.
    rewrite lines_loop_join by done. by rewrite append_assoc.
  - intros os Hos. unfold update_orders, update_orders_body. msimpl.
    rewrite Hauth, Hc. wsimpl. rewrite Hos.
    rewrite lines_loop_join by done. by rewrite append_assoc.
  - intros acts Hacts. unfold update_activity, update_activity_body. msimpl.
    rewrite Hauth, Hc. wsimpl. rewrite Hacts.
    by rewrite lines_loop_join by done.
Qed.

Lemma trackers_loop_state markets : forall i buf (w : world),
  (trackers_loop i markets buf w).2 = w.
Proof.
  induction markets as [|m rest IH]; intros i buf w; [done|].
  simpl. unfold len_value. msimpl.
  destruct (config w !! "tracked") as [[]|]; try done; apply IH.
Qed.

(** X18: a refresh that raises has changed nothing: the fields are
    assigned once, after the answer of the service has been formatted. *)
Theorem failed_refresh_changes_nothing f (w : world) x w' :
  run_task env f w = (inl x, w') -> w' = w.
Proof.
  destruct f; simpl.
  - by unfold update_status, modify.
  - unfold update_positions, update_positions_body. msimpl.
    destruct (authd w); [|done]. destruct (client w) as [c|]; [|congruence].
    destruct (get_positions_profitloss c); [congruence|done].
  - unfold update_activity, update_activity_body. msimpl.
    destruct (authd w); [|done]. destruct (client w) as [c|]; [|congruence].
    destruct (get_activity c); [congruence|done].
  - unfold update_orders, update_orders_body. msimpl.
    destruct (authd w); [|done]. destruct (client w) as [c|]; [|congruence].
    destruct (get_working_orders c); [congruence|done].
  - unfold update_trackers, update_trackers_body. msimpl.
    destruct (authd w); [|done]. destruct (client w) as [c|]; [|congruence].
    destruct (config w !! "tracked") as [[| |r|]|]; try congruence.
    wsimpl.
    destruct (get_markets c (tracked_list w r)) as [y|markets]; [congruence|].
    wsimpl.
    pose proof (trackers_loop_state markets 0
                  (center_fill "-" 60 " TRACKERS " +:+ NL) w) as Hw.
    destruct (trackers_loop 0 markets _ w) as [[y|buf] w1]; simpl in Hw;
      subst w1; [congruence|done].
Qed.

Lemma lines_loop_app {A} (line : A -> string) n items items' : forall i buf,
  lines_loop line n i (items ++ items') buf
  = lines_loop line n (i + length items) items' (lines_loop line n i items buf).
Proof.
  induction items as [|x rest IH]; intros i buf; simpl.
  - by rewrite Nat.add_0_r.
  - rewrite IH. f_equal. lia.
Qed.

(** Before the index the test waits for, every line gets its newline. *)
Lemma lines_loop_before {A} (line : A -> string) n items : forall i buf,
  i + length items < n ->
  lines_loop line n i items buf
  = buf +:+ join NL (map line items)
    +:+ match items with [] => "" | _ => NL end.
Proof.
  induction items as [|x rest IH]; intros i buf Hn; simpl.
  - by rewrite append_nil_r.
  - simpl in Hn. rewrite decide_True by lia. rewrite IH by lia.
    destruct rest as [|y rest]; simpl.
    + by rewrite !append_nil_r, !append_assoc.
    + by rewrite !append_assoc.
Qed.

(** Past it too. *)
Lemma lines_loop_past {A} (line : A -> string) n items : forall i buf,
  n <= i ->
  lines_loop line n i items buf
  = buf +:+ join "" (map (fun x => line x +:+ NL) items).
Proof.
  induction items as [|x rest IH]; intros i buf Hn; simpl.
  - by rewrite append_nil_r.
  - rewrite decide_True by lia. rewrite IH by lia.
    destruct rest as [|y rest]; simpl.
    + by rewrite !append_nil_r, !append_assoc.
    + by rewrite !append_assoc.
Qed.

(** X19: the last-line test of [update_trackers] counts the tracked epics,
    not the markets of the answer.  When the service answers with fewer
    markets than are tracked, every line ends with a newline, the last one
    too; when it answers with more, the lines beyond that count each end
    with a newline and the line at the count is joined to its successor. *)
Theorem update_trackers_count_mismatch (w : world) c r markets :
  authd w = true -> client w = Some c ->
  config w !! "tracked" = Some (VList r) ->
  get_markets c (tracked_list w r) = inr markets ->
  (length markets < length (tracked_list w r) ->
   trackers_field (scr (update_trackers env w).2)
   = center_fill "-" 60 " TRACKERS " +:+ NL +:+
     join NL (map tracker_line markets)
     +:+ match markets with [] => "" | _ => NL end)
  /\ (forall pre post,
        markets = (pre ++ post)%list ->
        length pre = length (tracked_list w r) ->
        trackers_field (scr (update_trackers env w).2)
        = center_fill "-" 60 " TRACKERS " +:+ NL +:+
          join NL (map tracker_line pre)
          +:+ join "" (map (fun m => tracker_line m +:+ NL) post)).
Proof.
  intros Hauth Hc Ht Hans.
  assert (trackers_field (scr (update_trackers env w).2)
          = lines_loop tracker_line (length (tracked_list w r)) 0 markets
              (center_fill "-" 60 " TRACKERS " +:+ NL)) as ->.
  { unfold update_trackers, update_trackers_body. msimpl.
    rewrite Hauth, Hc. wsimpl. rewrite Ht. wsimpl. rewrite Hans.
    by rewrite (trackers_loop_lines w r) by done. }
  split.
  - intros Hlt. rewrite lines_loop_before by (simpl; lia).
    by rewrite !append_assoc.
  - intros pre post -> Hlen.
    rewrite lines_loop_app, lines_loop_past by (simpl; lia).
    rewrite lines_loop_join by (simpl; lia).
    by rewrite !append_assoc.
Qed.

(** What each refresher leaves of the activity field. *)
Lemma update_positions_activity (w : world) :
  activity_field (scr (update_positions env w).2) = activity_field (scr w).
Proof.
  unfold update_positions, update_positions_body. msimpl.
  destruct (authd w); [|done]. destruct (client w) as [c|]; [|done].
  by destruct (get_positions_profitloss c).
Qed.

Lemma update_orders_activity (w : world) :
  activity_field (scr (update_orders env w).2) = activity_field (scr w).
Proof.
  unfold update_orders, update_orders_body. msimpl.
  destruct (authd w); [|done]. destruct (client w) as [c|]; [|done].
  by destruct (get_working_orders c).
Qed.

Lemma update_trackers_activity (w : world) :
  activity_field (scr (update_trackers env w).2) = activity_field (scr w).
Proof.
  unfold update_trackers, update_trackers_body. msimpl.
  destruct (authd w); [|done]. destruct (client w) as [c|]; [|done].
  destruct (config w !! "tracked") as [[| |r|]|]; try done.
  wsimpl.
  destruct (get_markets c (tracked_list w r)) as [y|markets]; [done|].
  wsimpl.
  pose proof (trackers_loop_state markets 0
                (center_fill "-" 60 " TRACKERS " +:+ NL) w) as Hw.
  destruct (trackers_loop 0 markets _ w) as [[y|buf] w1]; simpl in Hw;
    by subst w1.
Qed.

(** X20: the command [update] never touches the activity field, whatever
    the service answers and whether or not the command returns. *)
Theorem update_leaves_activity args (w : world) :
  activity_field (scr (_cmd__update env args w).2) = activity_field (scr w).
Proof.
  unfold _cmd__update, req_auth. unfold bind at 1, get.
  destruct (authd w); [|done].
  pose proof (update_positions_activity w) as H1.
  unfold bind at 1.
  destruct (update_positions env w) as [[x|[]] w1]; cbn [snd] in *; [done|].
  pose proof (update_orders_activity w1) as H2.
  unfold bind at 1.
  destruct (update_orders env w1) as [[x|[]] w2]; cbn [snd] in *;
    [congruence|].
  pose proof (update_trackers_activity w2) as H3.
  unfold bind at 1.
  destruct (update_trackers env w2) as [[x|[]] w3]; cbn [snd] in *;
    [congruence|].
  unfold msg_out, modify. wsimpl. congruence.
Qed.

(** ** Invariants of the session *)

(** X21: nothing logs a session out.  Once [authd] is true it is true
    after every call and every step of a timer, [logout] included. *)
Theorem logged_in_forever schedule : forall w : world,
  authd w = true -> authd (exec env schedule w) = true.
Proof.
  induction schedule as [|l schedule IH]; intros w Ha; [done|].
  simpl. apply IH. by apply step_stays_logged_in.
Qed.

Lemma login_accepted_authd (w : world) c i p :
  client w = Some c -> client_login c i p = inr true ->
  authd (login env i p w).2 = true.
Proof.
  intros Hc Hyes. rewrite (login_accepted w c) by done.
  set (w1 := set_id (Some i) (set_authd true w)).
  assert (stays_logged_in w1 (load_config env "config.yml" w1).2) as H1
    by (apply (stable_load_config stays_logged_in);
        [ exact stays_refl | exact stays_trans | exact stays_glob ]).
  specialize (H1 eq_refl). unfold bind at 1.
  destruct (load_config env "config.yml" w1) as [[x|[]] w2]; [done|].
  assert (stays_logged_in w2 (start_threads env w2).2) as H2
    by (apply (stable_start_threads stays_logged_in);
        [ exact stays_refl | exact stays_trans | exact stays_glob
        | exact stays_timer | exact stays_start | exact stays_reset ]).
  specialize (H2 H1). unfold bind.
  by destruct (start_threads env w2) as [[x|[]] w3].
Qed.

Lemma serve_logged_out_bare r (w : world) :
  authd w = false -> bare w ->
  authd (serve env r w).2 = true \/ bare (serve env r w).2.
Proof.
  intros Ha Hbare. pose proof Hbare as (Hcfg & Hpool & Hhs).
  destruct r; simpl.
  - right. by rewrite parse_empty_config_state.
  - by right.
  - assert (authd (login env identifier password w).2 = true
            \/ (login env identifier password w).2 = w) as [Hin|Hsame].
    { destruct (client w) as [c|] eqn:Hc.
      - destruct (client_login c identifier password) as [x|[|]] eqn:Hyes.
        + right. apply login_refused. by rewrite Hc, Hyes.
        + left. by eapply login_accepted_authd.
        + right. apply login_refused. by rewrite Hc, Hyes.
      - right. apply login_refused. by rewrite Hc. }
    + left. unfold bind.
      by destruct (login env identifier password w) as [[x|b] w'].
    + right. unfold bind.
      destruct (login env identifier password w) as [[x|b] w']; simpl in *;
        by subst.
  - right. unfold logout. by rewrite guarded_logged_out.
  - right. unfold start_threads. by rewrite guarded_logged_out.
  - right. unfold stop_threads. by rewrite guarded_logged_out.
  - right. unfold restart_threads. by rewrite guarded_logged_out.
  - right. unfold exit_ctrl_q. msimpl. by destruct (g_stop_threads (glob w)).
Qed.

Lemma run_task_logged_out_bare f (w : world) :
  authd w = false ->
  authd (run_task env f w).2 = false
  /\ config (run_task env f w).2 = config w
  /\ glob (run_task env f w).2 = glob w
  /\ hs (run_task env f w).2 = hs w.
Proof.
  intros Ha. destruct f; simpl;
    [by unfold update_status
    |unfold update_positions|unfold update_activity
    |unfold update_orders|unfold update_trackers];
    by rewrite guarded_logged_out.
Qed.

Lemma bare_set_thread tid t (w : world) :
  bare w -> bare (set_thread tid t w).
Proof.
  intros (Hcfg & Hpool & Hhs). unfold bare, set_thread. wsimpl.
  by rewrite length_insert.
Qed.

Lemma step_logged_out_bare l (w : world) :
  (authd w = false -> bare w) ->
  authd (step env l w) = false -> bare (step env l w).
Proof.
  intros Hinv Hout. destruct (authd w) eqn:Ha.
  - pose proof (step_stays_logged_in l w Ha). congruence.
  - specialize (Hinv eq_refl). destruct l as [r|tid]; simpl in *.
    + destruct (serve_logged_out_bare r w Ha Hinv); [congruence|done].
    + unfold step_thread in *.
      destruct (pool (glob w) !! tid) as [t|]; [|done].
      destruct (t_pc t); try done.
      * destruct (g_stop_threads (glob w)); by apply bare_set_thread.
      * destruct (is_set w e); by apply bare_set_thread.
      * destruct (run_task_logged_out_bare (t_func t) w Ha)
          as (_ & Hcfg & Hglob & Hhs).
        destruct Hinv as (Hc0 & Hp0 & Hh0).
        destruct (run_task env (t_func t) w) as [[x|[]] w']; simpl in *;
          apply bare_set_thread; unfold bare; by rewrite Hcfg, Hglob, Hhs.
Qed.

(** X22: as long as nobody is logged in, the session of a new object has
    the empty configuration, holds no timer handle and has created no timer
    besides the status timer, whatever was typed and whichever steps the
    status timer took. *)
Theorem logged_out_session_is_bare schedule files :
  authd (exec env schedule (fresh env files)) = false ->
  bare (exec env schedule (fresh env files)).
Proof.
  assert (forall w : world, (authd w = false -> bare w) ->
            authd (exec env schedule w) = false -> bare (exec env schedule w))
    as Hall.
  { induction schedule as [|l schedule IH]; intros w Hinv; [done|].
    simpl. apply IH. intros Hout. by apply step_logged_out_bare. }
  apply Hall. intros _. done.
Qed.

(** ** The Event flags *)

Lemma step_undisturbed_flags l (w : world) e :
  is_set w e = true -> is_set (step env l w) e = true.
Proof.
  intros He. destruct l as [r|tid]; simpl.
  - by apply (serve_undisturbed r w).
  - unfold step_thread.
    destruct (pool (glob w) !! tid) as [t|]; [|done].
    destruct (t_pc t); try done.
    + by destruct (g_stop_threads (glob w)).
    + by destruct (is_set w e0).
    + pose proof (run_task_undisturbed (t_func t) w) as [Hup _].
      specialize (Hup e He).
      by destruct (run_task env (t_func t) w) as [[x|[]] w'].
Qed.

(** X23: an Event that is set stays set: no call and no timer step
    brings a flag down again. *)
Theorem flags_only_go_up schedule : forall (w : world) e,
  is_set w e = true -> is_set (exec env schedule w) e = true.
Proof.
  induction schedule as [|l schedule IH]; intros w e He; [done|].
  simpl. by apply IH, step_undisturbed_flags.
Qed.

(** ** Stopping *)

(** X24: after [stop_threads] the global holds no Event, and every call
    that goes for it raises [AttributeError] and changes nothing: a second
    [stop_threads], [restart_threads] (which therefore cannot start a
    stopped session), the key binding [exit_ctrl_q] and [__del__]. *)
Theorem stopped_session_cannot_stop (w : world) e :
  authd w = true -> g_stop_threads (glob w) = Some e ->
  (stop_threads env w).1 = inr tt
  /\ stop_threads env (stop_threads env w).2
     = (inl (AttributeError "set"), (stop_threads env w).2)
  /\ restart_threads env (stop_threads env w).2
     = (inl (AttributeError "set"), (stop_threads env w).2)
  /\ exit_ctrl_q (stop_threads env w).2
     = (inl (AttributeError "set"), (stop_threads env w).2)
  /\ __del__ env (stop_threads env w).2
     = (inl (AttributeError "set"), (stop_threads env w).2).
Proof.
  intros Hauth Hg. rewrite (stop_threads_run w e) by done. cbn [fst snd].
  split; [done|].
  assert (forall w1 : world, authd w1 = true -> g_stop_threads (glob w1) = None ->
            stop_threads env w1 = (inl (AttributeError "set"), w1)) as Hstop.
  { intros w1 Ha1 Hg1. unfold stop_threads, stop_threads_body. msimpl.
    by rewrite Ha1, Hg1. }
  split; [by apply Hstop|]. split; [|split].
  - unfold restart_threads, req_auth. cbv [bind get]. wsimpl. rewrite Hauth.
    by rewrite Hstop.
  - unfold exit_ctrl_q. msimpl. by wsimpl.
  - unfold __del__. by apply Hstop.
Qed.

(** The composition the other way round. *)
Lemma restart_threads_run (w : world) e n :
  authd w = true -> g_stop_threads (glob w) = Some e ->
  config w !! "refresh" = Some (VInt n) ->
  exists w',
    restart_threads env w = (inr tt, w')
    /\ pool (glob w')
       = (pool (glob w) ++
          map (started n (S (generation (glob w))))
              [update_positions_task; update_activity_task;
               update_orders_task; update_trackers_task])%list
    /\ g_stop_threads (glob w') = Some (length (events (glob w)))
    /\ events (glob w') = (<[e := true]> (events (glob w)) ++ [false])%list
    /\ hs w' = {| positions_thread := Some (length (pool (glob w)));
                  activity_thread := Some (length (pool (glob w)) + 1);
                  orders_thread := Some (length (pool (glob w)) + 2);
                  trackers_thread := Some (length (pool (glob w)) + 3) |}.
Proof.
  intros Hauth Hg Hr.
  unfold restart_threads, req_auth. cbv [bind get]. rewrite Hauth.
  rewrite (stop_threads_run w e) by done.
  match goal with
  | |- context [start_threads env ?w1] =>
      destruct (start_threads_run w1 n) as (w2 & -> & Hp & Hh & Hg2 & He2 & _);
        [done | by left | done |]
  end.
  exists w2. split; [done|]. revert Hp Hh Hg2 He2. wsimpl.
  rewrite length_insert. by intros -> -> -> ->.
Qed.

(** X25: [restart_threads] on a running session sets the Event the
    global holds, installs a new Event with its flag down, and creates four
    new timers of the next generation with the refresh interval of the
    configuration; the session holds the new handles. *)
Theorem restart_threads_new_generation (w : world) e n :
  authd w = true -> g_stop_threads (glob w) = Some e ->
  e < length (events (glob w)) ->
  config w !! "refresh" = Some (VInt n) ->
  (restart_threads env w).1 = inr tt
  /\ pool (glob (restart_threads env w).2)
     = (pool (glob w) ++
        map (started n (S (generation (glob w))))
            [update_positions_task; update_activity_task;
             update_orders_task; update_trackers_task])%list
  /\ g_stop_threads (glob (restart_threads env w).2)
     = Some (length (events (glob w)))
  /\ is_set (restart_threads env w).2 e = true
  /\ is_set (restart_threads env w).2 (length (events (glob w))) = false
  /\ trackers_thread (hs (restart_threads env w).2)
     = Some (length (pool (glob w)) + 3).
Proof.
  intros Hauth Hg Hlt Hr.
  destruct (restart_threads_run w e n) as (w' & -> & Hp & Hg' & He' & Hh);
    try done.
  cbn [fst snd]. unfold is_set. rewrite Hp, Hg', He', Hh.
  split; [done|]. split; [done|]. split; [done|]. split; [|split; [|done]].
  - rewrite lookup_app_l by (by rewrite length_insert).
    by rewrite list_lookup_insert_eq.
  - rewrite lookup_app_r by (by rewrite length_insert).
    by rewrite length_insert, Nat.sub_diag.
Qed.

(** ** When nothing keeps the timers going *)

Lemma run_task_same_threads f (w : world) :
  same_threads w (run_task env f w).2.
Proof.
  apply (stable_run_task same_threads).
  - by split.
  - intros w1 w2 w3 (E1 & P1 & G1) (E2 & P2 & G2).
    unfold same_threads. repeat split; congruence.
  - intros w1 w2 He Hp Hg _. by split.
Qed.

Lemma quiescent_same_threads (w w' : world) :
  same_threads w w' -> quiescent w -> quiescent w'.
Proof.
  intros (He & Hp & Hg) [Hq1 Hq2]. unfold quiescent, is_set in *.
  rewrite He, Hp, Hg. by split.
Qed.

Lemma quiescent_set_thread tid t (w : world) :
  quiescent w -> (forall e, t_pc t = Waiting e -> is_set w e = true) ->
  quiescent (set_thread tid t w).
Proof.
  intros [Hq1 Hq2] Ht. split; [done|].
  intros tid' t' e'. unfold set_thread. wsimpl. intros Hlook Hpc.
  apply list_lookup_insert_Some in Hlook as [(-> & <- & _)|[_ Hlook]].
  - by apply Ht.
  - by eapply Hq2.
Qed.

(** One step of a timer in such a state: the state stays such, no
    function is called, and the thread that took the step is nearer to the
    end of [run]. *)
Lemma quiescent_step tid (w : world) :
  quiescent w ->
  quiescent (step_thread env tid w)
  /\ forall tid' t, pool (glob w) !! tid' = Some t ->
       exists t', pool (glob (step_thread env tid w)) !! tid' = Some t'
         /\ t_ticks t' = t_ticks t
         /\ steps_left t' <= steps_left t
         /\ (tid' = tid -> steps_left t' <= steps_left t - 1).
Proof.
  intros Hq. pose proof Hq as [Hq1 Hq2]. unfold step_thread.
  destruct (pool (glob w) !! tid) as [t0|] eqn:Ht0.
  2:{ split; [done|]. intros tid' t Ht. exists t. repeat split; try done.
      intros ->. congruence. }
  assert (forall (w1 : world) t1,
            pool (glob w1) = pool (glob w) ->
            t_ticks t1 = t_ticks t0 -> steps_left t1 <= steps_left t0 - 1 ->
            forall tid' t, pool (glob w) !! tid' = Some t ->
              exists t', pool (glob (set_thread tid t1 w1)) !! tid' = Some t'
                /\ t_ticks t' = t_ticks t
                /\ steps_left t' <= steps_left t
                /\ (tid' = tid -> steps_left t' <= steps_left t - 1)) as Hset.
  { intros w1 t1 Hp Hticks Hleft tid' t Ht. unfold set_thread. wsimpl.
    rewrite Hp. destruct (decide (tid' = tid)) as [->|Hne].
    - assert (t = t0) as -> by congruence.
      exists t1. rewrite list_lookup_insert_eq by (by eapply lookup_lt_Some).
      repeat split; [done|lia|done].
    - exists t. rewrite list_lookup_insert_ne by done.
      repeat split; done. }
  destruct (t_pc t0) eqn:Hpc.
  - split; [done|]. intros tid' t Ht. exists t. repeat split; try done.
    intros ->. assert (t = t0) as -> by congruence.
    unfold steps_left. rewrite Hpc. lia.
  - destruct (g_stop_threads (glob w)) as [e|] eqn:Hg.
    + split.
      * apply quiescent_set_thread; [done|]. simpl. intros e' [= <-]. auto.
      * apply Hset; [done|done|]. unfold steps_left. simpl. rewrite Hpc. lia.
    + split.
      * apply quiescent_set_thread; [done|]. done.
      * apply Hset; [done|done|]. unfold steps_left. simpl. rewrite Hpc. lia.
  - rewrite (Hq2 tid t0 e) by done. split.
    + apply quiescent_set_thread; [done|]. done.
    + apply Hset; [done|done|]. unfold steps_left. simpl. rewrite Hpc. lia.
  - pose proof (run_task_same_threads (t_func t0) w) as Hsame.
    destruct (run_task env (t_func t0) w) as [[x|[]] w1]; simpl in Hsame;
      (split;
       [ apply quiescent_set_thread;
         [by eapply quiescent_same_threads|done]
       | apply Hset; [by destruct Hsame as (_ & ? & _)|done|];
         unfold steps_left; simpl; rewrite Hpc; lia ]).
  - split; [done|]. intros tid' t Ht. exists t. repeat split; try done.
    intros ->. assert (t = t0) as -> by congruence.
    unfold steps_left. rewrite Hpc. lia.
  - split; [done|]. intros tid' t Ht. exists t. repeat split; try done.
    intros ->. assert (t = t0) as -> by congruence.
    unfold steps_left. rewrite Hpc. lia.
Qed.

Lemma quiescent_exec schedule : forall w : world,
  quiescent w -> Forall (fun l => timer_step l = true) schedule ->
  quiescent (exec env schedule w)
  /\ forall tid t, pool (glob w) !! tid = Some t ->
       exists t', pool (glob (exec env schedule w)) !! tid = Some t'
         /\ t_ticks t' = t_ticks t /\ steps_left t' <= steps_left t.
Proof.
  induction schedule as [|l schedule IH]; intros w Hq Hall.
  - split; [done|]. intros tid t Ht. by exists t.
  - apply Forall_cons in Hall as [Hl Hall].
    destruct l as [r|tid0]; [done|]. simpl.
    destruct (quiescent_step tid0 w Hq) as [Hq1 Hstep].
    destruct (IH _ Hq1 Hall) as [Hq2 Hrest].
    split; [done|]. intros tid t Ht.
    destruct (Hstep tid t Ht) as (t1 & Ht1 & Hticks1 & Hleft1 & _).
    destruct (Hrest tid t1 Ht1) as (t2 & Ht2 & Hticks2 & Hleft2).
    exists t2. repeat split; [done|congruence|lia].
Qed.

Lemma steps_left_idle t : steps_left t = 0 -> idle t = true.
Proof. unfold steps_left, idle. by destruct (t_pc t). Qed.

(** In such a state no function is called again, and three steps of its
    own bring any timer out of [run]. *)
Lemma quiescent_ends schedule (w : world) tid t :
  quiescent w -> Forall (fun l => timer_step l = true) schedule ->
  pool (glob w) !! tid = Some t ->
  (exists t', pool (glob (exec env schedule w)) !! tid = Some t'
     /\ t_ticks t' = t_ticks t)
  /\ (exists t',
        pool (glob (exec env (schedule ++ [Thread tid; Thread tid; Thread tid])
                      w)) !! tid = Some t'
        /\ t_ticks t' = t_ticks t /\ idle t' = true).
Proof.
  intros Hq Hall Ht.
  destruct (quiescent_exec schedule w Hq Hall) as [Hq1 Hrest].
  destruct (Hrest tid t Ht) as (t1 & Ht1 & Hticks1 & Hleft1).
  split; [by exists t1|].
  unfold exec in *. rewrite fold_left_app. simpl.
  set (w1 := fold_left _ schedule w) in *.
  destruct (quiescent_step tid w1 Hq1) as [Hq2 Hs1].
  destruct (Hs1 tid t1 Ht1) as (t2 & Ht2 & Hticks2 & _ & Hleft2).
  destruct (quiescent_step tid _ Hq2) as [Hq3 Hs2].
  destruct (Hs2 tid t2 Ht2) as (t3 & Ht3 & Hticks3 & _ & Hleft3).
  destruct (quiescent_step tid _ Hq3) as [Hq4 Hs3].
  destruct (Hs3 tid t3 Ht3) as (t4 & Ht4 & Hticks4 & _ & Hleft4).
  exists t4. split; [done|]. split; [congruence|].
  apply steps_left_idle.
  assert (steps_left t <= 3) by (unfold steps_left; destruct (t_pc t); lia).
  specialize (Hleft2 eq_refl). specialize (Hleft3 eq_refl).
  specialize (Hleft4 eq_refl). lia.
Qed.

Lemma quiescent_event_set (w : world) e g :
  e < length (events (glob w)) ->
  (forall tid t e', pool (glob w) !! tid = Some t -> t_pc t = Waiting e' ->
                    e' = e \/ is_set w e' = true) ->
  (g = Some e \/ g = None) ->
  quiescent
    (set_glob (set_g_stop_threads g
                 (set_events (<[e := true]> (events (glob w))) (glob w))) w).
Proof.
  intros Hlt Hwait Hg.
  assert (forall e', e' = e \/ is_set w e' = true ->
            default false (<[e := true]> (events (glob w)) !! e') = true)
    as Hup.
  { intros e' [->|He'].
    - by rewrite list_lookup_insert_eq.
    - destruct (decide (e = e')) as [->|Hne].
      + by rewrite list_lookup_insert_eq.
      + by rewrite list_lookup_insert_ne. }
  split; unfold is_set; wsimpl.
  - intros e' He'. apply Hup. left. destruct Hg as [->| ->]; congruence.
  - intros tid t e' Ht Hpc. apply Hup. by eapply Hwait.
Qed.

(** X26: Ctrl-Q ends every timer.  Once [exit_ctrl_q] has set the Event
    the global holds, and as long as the interactive thread makes no
    further call, no timer calls its function again, the status timer
    included, and each has left [run] after at most three steps of its own.
    (The timers that are waiting must be waiting on that Event or on one
    that is set already.) *)
Theorem exit_ends_the_timers (w : world) e schedule tid t :
  g_stop_threads (glob w) = Some e -> e < length (events (glob w)) ->
  (forall tid t e', pool (glob w) !! tid = Some t -> t_pc t = Waiting e' ->
                    e' = e \/ is_set w e' = true) ->
  Forall (fun l => timer_step l = true) schedule ->
  pool (glob w) !! tid = Some t ->
  (exit_ctrl_q w).1 = inr tt
  /\ (exists t', pool (glob (exec env schedule (exit_ctrl_q w).2)) !! tid
                 = Some t'
        /\ t_ticks t' = t_ticks t)
  /\ (exists t',
        pool (glob (exec env (schedule ++ [Thread tid; Thread tid; Thread tid])
                      (exit_ctrl_q w).2)) !! tid = Some t'
        /\ t_ticks t' = t_ticks t /\ idle t' = true).
Proof.
  intros Hg Hlt Hwait Hall Ht.
  assert (exit_ctrl_q w
          = (inr tt,
             set_glob (set_g_stop_threads (Some e)
                         (set_events (<[e := true]> (events (glob w)))
                                     (glob w))) w)) as ->.
  { unfold exit_ctrl_q, event_set. msimpl. rewrite Hg.
    destruct w as [[] ? ? ? ? ? ? ? ? ?]. simpl in *. by subst. }
  split; [done|]. cbn [snd].
  apply quiescent_ends; [|done|done].
  apply quiescent_event_set; auto.
Qed.

(** X27: [stop_threads] ends every timer too, the status timer
    included: as long as no call follows that starts timers again, no
    function is called any more; a timer that was waiting leaves the loop
    and one that reaches the loop head finds the global empty and dies of
    the [AttributeError]. *)
Theorem stop_ends_the_timers (w : world) e schedule tid t :
  authd w = true ->
  g_stop_threads (glob w) = Some e -> e < length (events (glob w)) ->
  (forall tid t e', pool (glob w) !! tid = Some t -> t_pc t = Waiting e' ->
                    e' = e \/ is_set w e' = true) ->
  Forall (fun l => timer_step l = true) schedule ->
  pool (glob w) !! tid = Some t ->
  (exists t', pool (glob (exec env schedule (stop_threads env w).2)) !! tid
              = Some t'
     /\ t_ticks t' = t_ticks t)
  /\ (exists t',
        pool (glob (exec env (schedule ++ [Thread tid; Thread tid; Thread tid])
                      (stop_threads env w).2)) !! tid = Some t'
        /\ t_ticks t' = t_ticks t /\ idle t' = true)
  /\ (t_pc t = LoopHead ->
      (t_pc <$> pool (glob (step_thread env tid (stop_threads env w).2)) !! tid)
      = Some (Crashed (AttributeError "wait"))).
Proof.
  intros Hauth Hg Hlt Hwait Hall Ht.
  rewrite (stop_threads_run w e) by done. cbn [snd].
  assert (quiescent
            (set_glob (set_g_stop_threads None
                         (set_events (<[e := true]> (events (glob w)))
                                     (glob w))) (set_hs no_handles w))) as Hq.
  { pose proof (quiescent_event_set w e None Hlt Hwait) as Hq.
    destruct Hq as [Hq1 Hq2]; [by right|]. by split. }
  destruct (quiescent_ends schedule _ tid t Hq Hall) as [H1 H2]; [done|].
  split; [done|]. split; [done|].
  intros Hpc. unfold step_thread. wsimpl. rewrite Ht, Hpc.
  unfold set_thread. wsimpl.
  rewrite list_lookup_insert_eq by (by eapply lookup_lt_Some). done.
Qed.

(** ** After [logout] *)

(** X28: what [logout] leaves behind, the timers still running.  The
    configuration is empty, so every line with a token raises
    [KeyError: 'alias'] and the next call of [update_trackers] raises
    [KeyError: 'tracked'], which ends the trackers timer; and the status
    line still says Online, with the id [None]. *)
Theorem after_logout (w : world) c :
  authd w = true -> client w = Some c ->
  (forall text, split_ws text <> [] ->
     parse env text (logout env w).2
     = (inl (KeyError "alias"), (logout env w).2))
  /\ update_trackers env (logout env w).2
     = (inl (KeyError "tracked"), (logout env w).2)
  /\ status env (logout env w).2
     = now env +:+ " || Status: Online | ID: None "
  /\ pool (glob (logout env w).2) = pool (glob w).
Proof.
  intros Hauth Hc.
  assert (logout env w
          = (inl (AttributeError "stop_treads"), set_config ∅ (set_id None w)))
    as ->.
  { unfold logout, logout_body. msimpl. rewrite Hauth. done. }
  cbn [snd]. split; [|split; [|split]].
  - intros text Htext. by apply parse_without_alias_table.
  - unfold update_trackers, update_trackers_body. msimpl. wsimpl.
    rewrite Hauth. wsimpl. rewrite Hc. wsimpl. by rewrite lookup_empty.
  - unfold status, get_time. wsimpl. rewrite Hauth. simpl.
    by rewrite !append_assoc.
  - done.
Qed.

(** ** [buy] *)

(** X29: [buy] looks the market up before it submits.  A
    [BadRequestError] of the lookup is answered by a message and the
    command returns; any other exception of the lookup, [NotFoundError]
    among them, and any exception of the submission leave the command, and
    the message of success is written only after the service took the
    order. *)
Theorem buy_outcomes (w : world) c size epic currency :
  client w = Some c -> config w !! "currency" = Some currency ->
  (get_market c epic = inl BadRequestError ->
   _cmd__buy [size; epic] w
   = msg_out ("Unable to find market: " +:+ epic) w)
  /\ (forall x, get_market c epic = inl x -> x <> BadRequestError ->
        _cmd__buy [size; epic] w = (inl x, w))
  /\ (forall x, get_market c epic = inr tt ->
        add_position c "BUY" "MARKET" epic size currency = inl x ->
        _cmd__buy [size; epic] w = (inl x, w))
  /\ (get_market c epic = inr tt ->
      add_position c "BUY" "MARKET" epic size currency = inr tt ->
      _cmd__buy [size; epic] w
      = msg_out ("Submitted position on " +:+ epic +:+ " @ " +:+ size +:+ " "
                 +:+ str_value w currency) w).
Proof.
  intros Hc Hcur. unfold _cmd__buy. msimpl. rewrite Hcur, Hc. wsimpl.
  split; [|split; [|split]].
  - by intros ->.
  - intros x -> Hx. by destruct x.
  - intros x -> Hadd. wsimpl. rewrite Hc. by rewrite Hadd.
  - intros -> Hadd. wsimpl. rewrite Hc. by rewrite Hadd.
Qed.

(** ** Wrong numbers of arguments *)

(** X30: [api] and [login] check the number of their arguments and answer
    a wrong one with their usage line; [buy] unpacks without a check and
    raises [ValueError]; [search] and [alias] index without a check and
    raise [IndexError] when given nothing.  None of them changes anything
    else. *)
Theorem wrong_arity args (w : world) :
  (length args <> 1 ->
   _cmd__api env args w = msg_out "Invalid syntax, expected: api <key>" w)
  /\ (length args <> 2 ->
      _cmd__login env args w
      = msg_out "Invalid syntax, expected: login: <username> <password>" w)
  /\ (length args <> 2 -> _cmd__buy args w = (inl ValueError, w))
  /\ (args = [] -> is_Some (client w) ->
      _cmd__search args w = (inl IndexError, w))
  /\ (args = [] -> is_Some (config w !! "alias") ->
      _cmd__alias args w = (inl IndexError, w)).
Proof.
  split; [|split; [|split; [|split]]].
  - intros Hn. by destruct args as [|? [|? ?]].
  - intros Hn. by destruct args as [|? [|? [|? ?]]].
  - intros Hn. by destruct args as [|? [|? [|? ?]]].
  - intros -> [c Hc]. unfold _cmd__search. msimpl. by rewrite Hc.
  - intros -> [v Hv]. unfold _cmd__alias. msimpl. by rewrite Hv.
Qed.

(** ** The status timer *)

Lemma set_thread_lookup tid t (w : world) :
  tid < length (pool (glob w)) ->
  pool (glob (set_thread tid t w)) !! tid = Some t.
Proof.
  intros Hlt. unfold set_thread. wsimpl. by rewrite list_lookup_insert_eq.
Qed.

Lemma set_thread_length tid t (w : world) :
  length (pool (glob (set_thread tid t w))) = length (pool (glob w)).
Proof. unfold set_thread. wsimpl. by rewrite length_insert. Qed.

Lemma step_at_loop_head tid (w : world) t e :
  pool (glob w) !! tid = Some t -> t_pc t = LoopHead ->
  g_stop_threads (glob w) = Some e ->
  step_thread env tid w = set_thread tid (set_pc (Waiting e) t) w.
Proof. intros Ht Hpc Hg. unfold step_thread. by rewrite Ht, Hpc, Hg. Qed.

Lemma step_times_out tid (w : world) t e :
  pool (glob w) !! tid = Some t -> t_pc t = Waiting e ->
  is_set w e = false ->
  step_thread env tid w = set_thread tid (tick t) w.
Proof. intros Ht Hpc He. unfold step_thread. by rewrite Ht, Hpc, He. Qed.

Lemma step_in_update_status tid (w : world) t :
  pool (glob w) !! tid = Some t -> t_pc t = InAction ->
  t_func t = update_status_task ->
  step_thread env tid w
  = set_thread tid (set_pc LoopHead t) (update_status env w).2.
Proof. intros Ht Hpc Hf. unfold step_thread. by rewrite Ht, Hpc, Hf. Qed.

Lemma status_turn tid (w : world) t e :
  pool (glob w) !! tid = Some t -> t_func t = update_status_task ->
  t_pc t = LoopHead ->
  g_stop_threads (glob w) = Some e -> is_set w e = false ->
  pool (glob (exec env (turns tid 1) w)) !! tid = Some (after_calls 1 t)
  /\ g_stop_threads (glob (exec env (turns tid 1) w)) = Some e
  /\ is_set (exec env (turns tid 1) w) e = false
  /\ authd (exec env (turns tid 1) w) = authd w
  /\ _id (exec env (turns tid 1) w) = _id w
  /\ config (exec env (turns tid 1) w) = config w
  /\ status_field (scr (exec env (turns tid 1) w)) = status env w.
Proof.
  intros Ht Hf Hpc Hg He.
  assert (tid < length (pool (glob w))) as Hlt by (by eapply lookup_lt_Some).
  simpl.
  rewrite (step_at_loop_head tid w t e) by done.
  rewrite (step_times_out tid (set_thread tid (set_pc (Waiting e) t) w)
             (set_pc (Waiting e) t) e);
    [|by apply set_thread_lookup|done|done].
  rewrite (step_in_update_status tid
             (set_thread tid (tick (set_pc (Waiting e) t))
                (set_thread tid (set_pc (Waiting e) t) w))
             (tick (set_pc (Waiting e) t)));
    [|apply set_thread_lookup; by rewrite set_thread_length|done|done].
  unfold update_status, modify, set_thread, is_set in *. wsimpl.
  rewrite list_lookup_insert_eq by (by rewrite !length_insert).
  unfold after_calls, set_pc, tick, status. wsimpl.
  by rewrite Nat.add_1_r.
Qed.

(** X10: a timer is kept going by its own function returning and the
    Event staying unset.  For the status timer, whose function cannot
    raise: [k] turns of its loop with nothing in between are [k] calls of
    [update_status], after which the timer is at the loop head again and the
    status field shows the status line of the session, which the calls do
    not change otherwise. *)
Theorem status_timer_keeps_ticking k : forall (w : world) tid t e,
  pool (glob w) !! tid = Some t -> t_func t = update_status_task ->
  t_pc t = LoopHead ->
  g_stop_threads (glob w) = Some e -> is_set w e = false ->
  pool (glob (exec env (turns tid k) w)) !! tid = Some (after_calls k t)
  /\ authd (exec env (turns tid k) w) = authd w
  /\ config (exec env (turns tid k) w) = config w
  /\ (0 < k -> status_field (scr (exec env (turns tid k) w)) = status env w).
Proof.
  induction k as [|k IH]; intros w tid t e Ht Hf Hpc Hg He.
  - simpl. split; [|split; [done|split; [done|lia]]].
    rewrite Ht. f_equal. destruct t; unfold after_calls; simpl in *.
    subst. by rewrite Nat.add_0_r.
  - destruct (status_turn tid w t e) as (Ht1 & Hg1 & He1 & Ha1 & Hi1 & Hc1 & Hs1);
      try done.
    change (exec env (turns tid (S k)) w)
      with (exec env (turns tid k) (exec env (turns tid 1) w)).
    set (w1 := exec env (turns tid 1) w) in *.
    destruct (IH w1 tid (after_calls 1 t) e) as (Ht2 & Ha2 & Hc2 & Hs2);
      try done.
    split; [|split; [congruence|split; [congruence|]]].
    + rewrite Ht2. unfold after_calls. simpl. do 2 f_equal. lia.
    + intros _. destruct k as [|k].
      * done.
      * rewrite Hs2 by lia. unfold status. by rewrite Ha1, Hi1.
Qed.

End Properties.


(** * The statements at concrete inputs *)

Ltac run := vm_compute; reflexivity.

(** C10 on a blank line typed into a new object. *)
Lemma parse_no_tokens_IndexError_witness :
  (replace_aliases (split_ws "   ") []
     (fresh quiet_env files_me)).1 = inr []
  /\ parse quiet_env "   " (fresh quiet_env files_me)
     = (inl IndexError, fresh quiet_env files_me).
Proof.
  split; [reflexivity|].
  apply (parse_no_tokens_IndexError quiet_env "   "). reflexivity.
Defined.

(** C5, as stated, fails where an expansion is not a list of words
    separated by single spaces.  After the command [alias x] the alias [x]
    has the empty expansion; the line [x] then becomes the one empty token,
    where the whitespace-tokenized expansion has no token, and [parse]
    reports the unrecognised command [''] instead of raising. *)
Lemma alias_expansion_keeps_empty_token :
  config aliased !! "alias" = Some (VDict (<["x" := ""]> aliases_me))
  /\ (replace_aliases (split_ws "x") [] aliased).1
     <> inr (flat_map (expand_token_ws (<["x" := ""]> aliases_me))
                      (split_ws "x"))
  /\ (replace_aliases (split_ws "x") [] aliased).1 = inr [""]
  /\ flat_map (expand_token_ws (<["x" := ""]> aliases_me)) (split_ws "x") = []
  /\ parse quiet_env "x" aliased = msg_out "Unrecognised command: " aliased.
Proof.
  split; [run|]. split; [vm_compute; discriminate|]. repeat split; run.
Defined.

(** C5 as amended, on the alias [a -> "b c"] where [b] is an alias too. *)
Lemma alias_expansion_single_pass_witness :
  config logged_in !! "alias" = Some (VDict aliases_me)
  /\ (replace_aliases (split_ws "a") [] logged_in
      = (inr (flat_map (expand_token aliases_me) (split_ws "a")), logged_in)
      /\ (forall a e b rest,
            split_ws "a" = [a] -> aliases_me !! a = Some e ->
            split_space e = b :: rest ->
            parse quiet_env "a" logged_in = dispatch quiet_env b rest logged_in)).
Proof.
  assert (config logged_in !! "alias" = Some (VDict aliases_me)) as Hd
    by run.
  split; [exact Hd|].
  exact (alias_expansion_single_pass quiet_env logged_in aliases_me "a" Hd).
Defined.

(** C8 on a store that has entries, none of them for the account. *)
Lemma load_config_no_entry_witness :
  authd loading_other = true /\ _id loading_other = Some "me"
  /\ (load_config quiet_env "config.yml" loading_other).1
     = inl (KeyError "refresh")
  /\ config (load_config quiet_env "config.yml" loading_other).2 = ∅.
Proof.
  split; [reflexivity|]. split; [reflexivity|].
  apply (load_config_no_entry quiet_env loading_other "me"
           {[ Some "other" := {[ "refresh" := VInt 9 ]} ]}); run.
Defined.

(** C4 on the session logged in as "me". *)
Lemma logout_raises_AttributeError_witness :
  authd logged_in = true
  /\ (logout quiet_env logged_in).1 = inl (AttributeError "stop_treads")
  /\ events (glob (logout quiet_env logged_in).2) = [false]
  /\ hs (logout quiet_env logged_in).2 = hs logged_in
  /\ authd (logout quiet_env logged_in).2 = true.
Proof.
  assert (authd logged_in = true) as Hauth by run.
  split; [exact Hauth|].
  destruct (logout_raises_AttributeError quiet_env logged_in Hauth)
    as (Hrun & Hev & _ & Hhs & Ha).
  rewrite Hrun in *. split; [reflexivity|]. split; [|by split].
  rewrite Hev. run.
Defined.

(** C3 on the command [update], typed into a new object and typed after a
    login that was refused. *)
Lemma parse_logged_out_KeyError_witness :
  authd (exec quiet_env [Main (SetApi "key"); Main (Login "me" "guess")]
           (fresh quiet_env files_me)) = false
  /\ parse quiet_env "update" (fresh quiet_env files_me)
     = (inl (KeyError "alias"), fresh quiet_env files_me)
  /\ (parse quiet_env "update"
        (exec quiet_env [Main (SetApi "key"); Main (Login "me" "guess")]
           (fresh quiet_env files_me))).1
     = inl (KeyError "alias").
Proof.
  split; [run|]. split.
  - apply (parse_logged_out_KeyError quiet_env [] files_me "update");
      [run | vm_compute; discriminate].
  - rewrite (parse_logged_out_KeyError quiet_env
               [Main (SetApi "key"); Main (Login "me" "guess")]
               files_me "update");
      [reflexivity | run | vm_compute; discriminate].
Defined.

(** C6 on [track epic1 badepic epic2]. *)
Lemma track_bad_request_aborts_witness :
  get_market quiet_client "epic2" = inr tt
  /\ exists w',
       _cmd__track quiet_env (["epic1"] ++ "badepic" :: ["epic2"]) logged_in
       = (inl BadRequestError, w')
       /\ tracked_of w' = Some ([] ++ ["epic1"])%list
       /\ msg_field (scr w') = msg_field (scr logged_in).
Proof.
  split; [reflexivity|].
  apply (track_bad_request_aborts quiet_env quiet_client logged_in []
           ["epic1"] "badepic" ["epic2"]); [run | run | run | | run].
  repeat constructor.
Defined.

(** C9, as stated, fails where the answer of the service is not the list
    of the tracked markets.  With two epics tracked and one market detail
    returned, the field holds one line and ends with a newline; with the
    details returned in the reverse order, the field lists the second
    tracked market first; and when the request raises, the field is not
    written at all and the exception leaves the task. *)
Lemma answer_decides_trackers_buffer :
  tracked_of tracking_terse = Some ["epic1"; "epic2"]
  /\ trackers_field (scr (update_trackers quiet_env tracking_terse).2)
     = center_fill "-" 60 " TRACKERS " +:+ NL +:+
       tracker_line (quote "epic1") +:+ NL
  /\ trackers_field (scr (update_trackers quiet_env tracking_terse).2)
     <> center_fill "-" 60 " TRACKERS " +:+ NL +:+
        join NL [tracker_line (quote "epic1"); tracker_line (quote "epic2")]
  /\ tracked_of tracking_backward = Some ["epic1"; "epic2"]
  /\ trackers_field (scr (update_trackers quiet_env tracking_backward).2)
     = center_fill "-" 60 " TRACKERS " +:+ NL +:+
       join NL [tracker_line (quote "epic2"); tracker_line (quote "epic1")]
  /\ trackers_field (scr (update_trackers quiet_env tracking_backward).2)
     <> center_fill "-" 60 " TRACKERS " +:+ NL +:+
        join NL [tracker_line (quote "epic1"); tracker_line (quote "epic2")]
  /\ tracked_of tracking_down = Some ["epic1"; "epic2"]
  /\ update_trackers quiet_env tracking_down
     = (inl (OtherError "ConnectionError"), tracking_down)
  /\ trackers_field (scr tracking_down) = "".
Proof.
  split; [run|]. split; [run|]. split; [vm_compute; discriminate|].
  split; [run|]. split; [run|]. split; [vm_compute; discriminate|].
  split; [run|]. split; run.
Defined.

(** C9 as amended, on two tracked markets whose high is null and whose bid
    is zero, the service answering with the details of both in the stored
    order. *)
Lemma update_trackers_buffer_witness :
  tracked_of tracking = Some ["epic1"; "epic2"]
  /\ get_markets quiet_client ["epic1"; "epic2"]
     = inr [quote "epic1"; quote "epic2"]
  /\ update_trackers quiet_env tracking
     = (inr tt,
        set_scr (set_trackers_field
                   (center_fill "-" 60 " TRACKERS " +:+ NL +:+
                    join NL (map tracker_line [quote "epic1"; quote "epic2"]))
                   (scr tracking)) tracking)
  /\ tracker_line (quote "epic1")
     = "epic1           ||        10 |         - ||         - |        12"
  /\ tracker_line (quote "epic2")
     = "epic2           ||        10 |         - ||         - |        12".
Proof.
  split; [run|]. split; [reflexivity|].
  destruct (update_trackers_buffer quiet_env tracking quiet_client
              DefaultTracked ltac:(run) ltac:(run) ltac:(run))
    as (Hrun & _).
  split; [|split; run].
  apply Hrun; run.
Defined.

(** C2, as stated, fails on a positions request that raises: the thread
    was inside its function, the function raised, and the thread is not
    back at the loop head but dead; three more turns of the scheduler do
    not bring another call. *)
Lemma raising_tick_is_not_caught :
  ((fun t => (t_func t, t_pc t, t_ticks t)) <$> pool (glob failing_tick) !! 1)
  = Some (update_positions_task, InAction, 1)
  /\ (run_task flaky_env update_positions_task failing_tick).1
     = inl (OtherError "ConnectionError")
  /\ (t_pc <$> pool (glob (step_thread flaky_env 1 failing_tick)) !! 1)
     <> Some LoopHead
  /\ ((fun t => (t_pc t, t_ticks t)) <$>
        pool (glob (exec flaky_env [Thread 1; Thread 1; Thread 1; Thread 1]
                      failing_tick)) !! 1)
     = Some (Crashed (OtherError "ConnectionError"), 1).
Proof.
  split; [run|]. split; [run|].
  split; [|run]. vm_compute. discriminate.
Defined.

(** C2 as amended, on the same tick. *)
Lemma failing_tick_ends_loop_witness :
  pool (glob failing_tick) !! 1
  = Some {| t_func := update_positions_task; t_interval := 5; t_gen := 1;
            t_pc := InAction; t_ticks := 1 |}
  /\ exists t',
       pool (glob (exec flaky_env [Thread 1; Main RestartThreads; Thread 1]
                     (step_thread flaky_env 1 failing_tick))) !! 1 = Some t'
       /\ t_pc t' = Crashed (OtherError "ConnectionError") /\ t_ticks t' = 1.
Proof.
  assert (pool (glob failing_tick) !! 1
          = Some {| t_func := update_positions_task; t_interval := 5;
                    t_gen := 1; t_pc := InAction; t_ticks := 1 |}) as Ht
    by run.
  split; [exact Ht|].
  destruct (failing_tick_ends_loop flaky_env failing_tick 1 _ Ht eq_refl)
    as [Hfail _].
  apply (Hfail (OtherError "ConnectionError")
               (run_task flaky_env update_positions_task failing_tick).2).
  run.
Defined.

(** C1, as stated, fails on a restart that finds the positions timer
    inside its function.  The timer was created by the first
    [start_threads]; after the restart the global holds the Event of the
    second; the old timer then reads the global, waits on the new Event and
    calls its function again.  It is the stop of the second generation that
    ends it. *)
Lemma old_task_runs_in_new_generation :
  ((fun t => (t_func t, t_gen t, t_pc t, t_ticks t)) <$>
     pool (glob before_restart) !! 1)
  = Some (update_positions_task, 1, InAction, 1)
  /\ generation (glob after_restart) = 2
  /\ is_set after_restart 0 = true
  /\ g_stop_threads (glob after_restart) = Some 1
  /\ ((fun t => (t_gen t, t_pc t, t_ticks t)) <$>
        pool (glob after_second_tick) !! 1)
     = Some (1, InAction, 2)
  /\ (t_ticks <$> pool (glob after_second_tick) !! 1)
     <> (t_ticks <$> pool (glob after_restart) !! 1)
  /\ (t_pc <$> pool (glob (exec quiet_env [Thread 1; Thread 1]
                             after_second_tick)) !! 1)
     = Some (Waiting 1)
  /\ (t_pc <$> pool (glob (exec quiet_env
                             [Thread 1; Thread 1; Main StopThreads; Thread 1]
                             after_second_tick)) !! 1)
     = Some Finished.
Proof.
  repeat split; first [run | vm_compute; discriminate].
Defined.

(** C1 as amended, on the activity timer, blocked in [wait] when the
    session is stopped and started again. *)
Lemma stopped_generation_at_rest_witness :
  pool (glob before_restart) !! 2
  = Some {| t_func := update_activity_task; t_interval := 5; t_gen := 1;
            t_pc := Waiting 0; t_ticks := 0 |}
  /\ g_stop_threads
       (glob (start_threads quiet_env (stop_threads quiet_env before_restart).2).2)
     = Some 1
  /\ is_set (start_threads quiet_env (stop_threads quiet_env before_restart).2).2 1
     = false
  /\ is_set (start_threads quiet_env (stop_threads quiet_env before_restart).2).2 0
     = true
  /\ (exists t',
        pool (glob (exec quiet_env
                      [Main StartThreads; Thread 6; Thread 2; Thread 2;
                       Main StopThreads; Thread 2]
                      (stop_threads quiet_env before_restart).2)) !! 2 = Some t'
        /\ t_ticks t' = 0)
  /\ (forall t',
        pool (glob (exec quiet_env
                      [Main StartThreads; Thread 6; Thread 2; Thread 2;
                       Main StopThreads; Thread 2]
                      (stop_threads quiet_env before_restart).2)) !! 6 = Some t' ->
        t_pc t' <> Waiting 0).
Proof.
  assert (pool (glob before_restart) !! 2
          = Some {| t_func := update_activity_task; t_interval := 5;
                    t_gen := 1; t_pc := Waiting 0; t_ticks := 0 |}) as Ht
    by run.
  split; [exact Ht|].
  destruct (stopped_generation_at_rest quiet_env before_restart 0 2 _
              [Main StartThreads; Thread 6; Thread 2; Thread 2;
               Main StopThreads; Thread 2]
              ltac:(run) ltac:(run) ltac:(exists false; run) Ht eq_refl)
    as (_ & (Hg & Hnew & Hold) & (t' & Ht' & Hticks & _) & Haway).
  split; [exact Hg|]. split; [exact Hnew|]. split; [exact Hold|].
  split; [exists t'; by split|].
  intros t6. apply (Haway 6 t6). vm_compute. lia.
Defined.

(** C7, as stated, fails on the same restart.  [start_threads] ran while
    the old positions timer was inside its function and created four new
    timers; afterwards five refreshers are in their loops, two of them
    for the positions. *)
Lemma restart_leaves_five_refreshers :
  (t_pc <$> pool (glob before_restart) !! 1) = Some InAction
  /\ length (pool (glob after_restart)) = length (pool (glob before_restart)) + 4
  /\ live_refreshers after_second_tick = 5
  /\ ~ live_refreshers after_second_tick <= 4
  /\ ((fun t => (t_func t, live t)) <$> pool (glob after_second_tick) !! 1)
     = Some (update_positions_task, true)
  /\ ((fun t => (t_func t, live t)) <$> pool (glob after_second_tick) !! 5)
     = Some (update_positions_task, true).
Proof.
  repeat split; first [run | vm_compute; lia].
Defined.

(** C7 as amended, on the session logged in as "me". *)
Lemma start_threads_guard_witness :
  authd logged_in = true
  /\ hs logged_in = {| positions_thread := Some 1; activity_thread := Some 2;
                       orders_thread := Some 3; trackers_thread := Some 4 |}
  /\ start_threads quiet_env logged_in
     = (inr tt,
        set_errors (errors logged_in ++ ["Threads already running!"]) logged_in).
Proof.
  split; [run|]. split; [run|].
  apply (start_threads_guard quiet_env logged_in); [run | | ];
    eexists; run.
Defined.

(** ** More runs *)

(** A login against the store without an entry for the account: [login]
    raises out of [load_config], the session is marked authenticated, its
    configuration is empty and no timer has been started. *)
Example login_without_entry :
  let w := exec quiet_env log_in (fresh quiet_env files_other) in
  authd w = true /\ config w = ∅ /\ length (pool (glob w)) = 1
  /\ (login quiet_env "me" "secret"
        (set_client (Some quiet_client)
           (fresh quiet_env files_other))).1
     = inl (KeyError "refresh").
Proof. repeat split; run. Qed.

(** With an empty store the session gets a copy of the defaults, which has
    no alias table: every command typed afterwards raises. *)
Example defaults_have_no_alias_table :
  let w := exec quiet_env log_in (fresh quiet_env files_empty) in
  config w = config_default
  /\ (parse quiet_env "update" w).1 = inl (KeyError "alias")
  /\ (parse quiet_env "alias t track" w).1 = inl (KeyError "alias").
Proof. repeat split; run. Qed.

(** The list of the defaults is one object: what [track] appends to a
    back-filled configuration is appended to the class attribute, and the
    next load back-fills a list that is not empty. *)
Example default_list_is_shared :
  config tracking !! "tracked" = Some (VList DefaultTracked)
  /\ default_tracked (glob tracking) = ["epic1"; "epic2"]
  /\ tracked_of (load_config quiet_env "config.yml" tracking).2
     = Some ["epic1"; "epic2"].
Proof. repeat split; run. Qed.

(** An epic rejected as not found is skipped and reported, the others are
    tracked. *)
Example track_not_found_is_skipped :
  let w := (parse quiet_env "track epic1 nosuch epic2" logged_in).2 in
  (parse quiet_env "track epic1 nosuch epic2" logged_in).1 = inr tt
  /\ tracked_of w = Some ["epic1"; "epic2"]
  /\ msg_field (scr w)
     = msg_field (scr logged_in) +:+ NL +:+ "Unable to find market: nosuch"
       +:+ NL +:+ "Added tracked market(s)".
Proof. repeat split; run. Qed.

(** The same line with the epic rejected as a bad request. *)
Example track_bad_request_is_fatal :
  let w := (parse quiet_env "track epic1 badepic epic2" logged_in).2 in
  (parse quiet_env "track epic1 badepic epic2" logged_in).1
  = inl BadRequestError
  /\ tracked_of w = Some ["epic1"]
  /\ msg_field (scr w) = msg_field (scr logged_in).
Proof. repeat split; run. Qed.

(** The alias [a -> "b c"] selects the handler of [b]; that [b] is an
    alias for [update] plays no role, and no handler has that name. *)
Example alias_of_alias_is_not_expanded :
  aliases_me !! "b" = Some "update"
  /\ parse quiet_env "a" logged_in
     = msg_out "Unrecognised command: b" logged_in.
Proof. split; run. Qed.

Example split_ws_demo : split_ws "  track  a b " = ["track"; "a"; "b"].
Proof. reflexivity. Qed.

Example split_space_demo : split_space "b  c" = ["b"; ""; "c"].
Proof. reflexivity. Qed.

Example header_demo :
  center_fill "-" 60 " TRACKERS "
  = "------------------------- TRACKERS -------------------------".
Proof. reflexivity. Qed.

(** * Further statements at concrete inputs *)

(** X1 on the alias [p] for [track epic1]. *)
Lemma alias_then_expand_witness :
  config logged_in !! "alias" = Some (VDict aliases_me)
  /\ (_cmd__alias ("p" :: ["track"; "epic1"]) logged_in).1 = inr tt
  /\ replace_aliases ["p"] [] (_cmd__alias ("p" :: ["track"; "epic1"]) logged_in).2
     = (inr ["track"; "epic1"],
        (_cmd__alias ("p" :: ["track"; "epic1"]) logged_in).2).
Proof.
  split; [run|].
  apply (alias_then_expand logged_in aliases_me "p" ["track"; "epic1"]);
    [run | discriminate | repeat constructor].
Defined.

(** X2 on the line [alias a z], [a] standing for [b c]: the alias that is
    written is [b], and [a] is what it was. *)
Lemma alias_line_is_expanded_witness :
  split_ws "alias a z" = "alias" :: ["a"; "z"]
  /\ aliases_me !! "a" = Some "b c"
  /\ exists d',
       config (parse quiet_env "alias a z" logged_in).2 !! "alias"
       = Some (VDict d')
       /\ d' !! "a" = Some "b c"
       /\ d' !! "b" = Some (join " " (["c"] ++ flat_map (expand_token aliases_me) ["z"])).
Proof.
  split; [run|]. split; [run|].
  destruct (alias_line_is_expanded quiet_env logged_in aliases_me "alias a z"
              ["a"; "z"] ltac:(run) ltac:(run) ltac:(run)) as [_ Hre].
  apply (Hre "a" "b c" "b" ["c"] ["z"]); [reflexivity | run | run | discriminate].
Defined.

(** X3 on the line [hello there]. *)
Lemma parse_unrecognised_witness :
  flat_map (expand_token aliases_me) (split_ws "hello there")
  = "hello" :: ["there"]
  /\ parse quiet_env "hello there" logged_in
     = (inr tt,
        set_scr (set_msg_field
                   (msg_field (scr logged_in) +:+ NL +:+
                    "Unrecognised command: " +:+ "hello")
                   (scr logged_in)) logged_in).
Proof.
  split; [run|].
  apply (parse_unrecognised quiet_env logged_in aliases_me "hello there"
           "hello" ["there"]); [run | run |].
  intros Hin. unfold command_names in Hin.
  repeat (apply elem_of_cons in Hin as [Hin|Hin]; [discriminate|]).
  by apply elem_of_nil in Hin.
Defined.

(** X4 on the stopped session. *)
Lemma start_threads_creates_four_witness :
  hs stopped = no_handles
  /\ length (pool (glob stopped)) = 5
  /\ (start_threads quiet_env stopped).1 = inr tt
  /\ pool (glob (start_threads quiet_env stopped).2)
     = (pool (glob stopped) ++
        [started 5 (S (generation (glob stopped))) update_positions_task;
         started 5 (S (generation (glob stopped))) update_activity_task;
         started 5 (S (generation (glob stopped))) update_orders_task;
         started 5 (S (generation (glob stopped))) update_trackers_task])%list
  /\ hs (start_threads quiet_env stopped).2
     = {| positions_thread := Some (length (pool (glob stopped)));
          activity_thread := Some (length (pool (glob stopped)) + 1);
          orders_thread := Some (length (pool (glob stopped)) + 2);
          trackers_thread := Some (length (pool (glob stopped)) + 3) |}
  /\ g_stop_threads (glob (start_threads quiet_env stopped).2)
     = Some (default (length (events (glob stopped)))
                     (g_stop_threads (glob stopped))).
Proof.
  split; [run|]. split; [run|].
  apply (start_threads_creates_four quiet_env stopped 5); [run | left; run | run].
Defined.

(** X5 on the login of "me". *)
Lemma login_starts_session_witness :
  client ready = Some quiet_client
  /\ exists w',
       login quiet_env "me" "secret" ready = (inr true, w')
       /\ authd w' = true /\ _id w' = Some "me"
       /\ config w' = entry_me ∪ config_default
       /\ pool (glob w')
          = (pool (glob ready) ++
             map (started 5 (S (generation (glob ready))))
                 [update_positions_task; update_activity_task;
                  update_orders_task; update_trackers_task])%list
       /\ is_Some (g_stop_threads (glob w')).
Proof.
  split; [run|].
  apply (login_starts_session quiet_env ready quiet_client "me" "secret"
           entries_me);
    [run | run | run | run | run | | run | left; run].
  intros k. vm_compute. discriminate.
Defined.

(** X6 on a wrong password. *)
Lemma login_without_success_witness :
  client_login quiet_client "me" "guess" = inr false
  /\ (login quiet_env "me" "guess" ready).2 = ready
  /\ (login quiet_env "me" "guess" ready).1 <> inr true
  /\ (client ready = None ->
      (login quiet_env "me" "guess" ready).1 = inl (AttributeError "login")).
Proof.
  split; [run|].
  apply (login_without_success quiet_env ready "me" "guess").
  vm_compute. discriminate.
Defined.

(** X7 where there is no [config.yml]. *)
Lemma login_load_failure_witness :
  files (glob ready_no_file) !! "config.yml" = None
  /\ login quiet_env "me" "secret" ready_no_file
     = (inl (FileNotFoundError "config.yml"),
        (msg_out ("Loading " +:+ "me" +:+ " configuration...")
           (set_id (Some "me") (set_authd true ready_no_file))).2)
  /\ authd (login quiet_env "me" "secret" ready_no_file).2 = true
  /\ config (login quiet_env "me" "secret" ready_no_file).2
     = config ready_no_file
  /\ pool (glob (login quiet_env "me" "secret" ready_no_file).2)
     = pool (glob ready_no_file)
  /\ hs (login quiet_env "me" "secret" ready_no_file).2 = hs ready_no_file.
Proof.
  split; [run|].
  apply (login_load_failure quiet_env ready_no_file quiet_client "me" "secret");
    run.
Defined.

(** X8 on a second login of "me". *)
Lemma login_while_running_witness :
  hs logged_in
  = {| positions_thread := Some 1; activity_thread := Some 2;
       orders_thread := Some 3; trackers_thread := Some 4 |}
  /\ (login quiet_env "me" "secret" logged_in).1 = inr true
  /\ _id (login quiet_env "me" "secret" logged_in).2 = Some "me"
  /\ config (login quiet_env "me" "secret" logged_in).2
     = entry_me ∪ config_default
  /\ pool (glob (login quiet_env "me" "secret" logged_in).2)
     = pool (glob logged_in)
  /\ hs (login quiet_env "me" "secret" logged_in).2 = hs logged_in
  /\ errors (login quiet_env "me" "secret" logged_in).2
     = (errors logged_in ++ ["Threads already running!"])%list.
Proof.
  split; [run|].
  apply (login_while_running quiet_env logged_in quiet_client "me" "secret"
           entries_me);
    [run | run | run | run | run | | by eexists | by eexists].
  intros k. vm_compute. discriminate.
Defined.

(** X9 on the session that tracks two markets. *)
Lemma save_then_load_witness :
  tracked_of tracking = Some ["epic1"; "epic2"]
  /\ (write_config quiet_env tracking).1 = inr tt
  /\ config (load_config quiet_env "config.yml"
               (write_config quiet_env tracking).2).2
     = (dump_value tracking <$> config tracking) ∪ config_default
  /\ (forall l, tracked_of tracking = Some l ->
        tracked_of (load_config quiet_env "config.yml"
                      (write_config quiet_env tracking).2).2 = Some l).
Proof.
  split; [run|].
  apply (save_then_load quiet_env tracking "me"
           (Some entries_me));
    [run | run | run | run |].
  intros Heq. apply (f_equal (fun m => m !! "refresh")) in Heq.
  vm_compute in Heq. discriminate.
Defined.

(** X11 with the file gone, and on the session that tracks two
    markets. *)
Lemma write_config_entries_witness :
  files (glob fileless) !! config_file fileless = None
  /\ _cmd__save quiet_env [] fileless
     = (inl (FileNotFoundError (config_file fileless)), fileless)
  /\ files (glob tracking) !! config_file tracking = Some (Some entries_me)
  /\ (write_config quiet_env tracking).1 = inr tt
  /\ exists l',
       files (glob (write_config quiet_env tracking).2) !! config_file tracking
       = Some (Some l')
       /\ l' !! _id tracking = Some (dump_value tracking <$> config tracking)
       /\ forall j, j <> _id tracking ->
            l' !! j = default ∅ (Some entries_me) !! j.
Proof.
  split; [run|]. split.
  { destruct (write_config_entries quiet_env fileless ltac:(run)) as [Hno _].
    apply Hno. run. }
  split; [run|].
  destruct (write_config_entries quiet_env tracking ltac:(run)) as [_ Hyes].
  destruct (Hyes (Some entries_me) ltac:(run)) as (Hok & Hent & _).
  split; [exact Hok | exact Hent].
Defined.

(** X12 on the login of "me" in a process started with
    [IG_CLI_CONFIG=mine.yml], the file [mine.yml] beside [config.yml]. *)
Lemma login_ignores_config_file_witness :
  config_file (transplanted "mine.yml" files_two ready) = "mine.yml"
  /\ login quiet_env "me" "secret" (transplanted "mine.yml" files_two ready)
     = ((login quiet_env "me" "secret" ready).1,
        transplanted "mine.yml" files_two
          (login quiet_env "me" "secret" ready).2)
  /\ config (login quiet_env "me" "secret"
               (transplanted "mine.yml" files_two ready)).2
     = config (login quiet_env "me" "secret" ready).2.
Proof.
  split; [reflexivity|].
  apply (login_ignores_config_file quiet_env ready "mine.yml" files_two
           "me" "secret").
  run.
Defined.

(** X13: "me" tracks a market on the defaults, "you" starts with it. *)
Lemma default_list_leaks_witness :
  default_tracked (glob on_defaults) = []
  /\ tracked_of
       (load_config quiet_env "config.yml"
          (set_id (Some "you")
             (add_tracker quiet_env "epic1"
                (load_config quiet_env "config.yml" on_defaults).2).2)).2
     = Some ([] ++ ["epic1"])%list.
Proof.
  split; [run|].
  apply (default_list_leaks quiet_env on_defaults quiet_client "epic1"
           (Some "you")); run.
Defined.

(** X14 on [stoptrack epic2 nosuch]. *)
Lemma stoptrack_removes_first_witness :
  tracked_of tracking = Some ["epic1"; "epic2"]
  /\ exists w',
       _cmd__stoptrack quiet_env ["epic2"; "nosuch"] tracking = (inr tt, w')
       /\ tracked_of w'
          = Some (fold_left (fun acc e => remove_first e acc)
                            ["epic2"; "nosuch"] ["epic1"; "epic2"])
       /\ msg_field (scr w')
          = msg_field (scr tracking) +:+ NL +:+ "Removed tracked market(s)"
       /\ (Forall (fun e => e ∉ ["epic1"; "epic2"]) ["epic2"; "nosuch"] ->
           tracked_of w' = Some ["epic1"; "epic2"]).
Proof.
  split; [run|].
  apply (stoptrack_removes_first quiet_env tracking ["epic1"; "epic2"]
           ["epic2"; "nosuch"]); run.
Defined.

(** X15 on a market that is tracked already. *)
Lemma track_then_stoptrack_witness :
  tracked_of tracking = Some ["epic1"; "epic2"]
  /\ tracked_of (_cmd__track quiet_env ["epic1"] tracking).2
     = Some (["epic1"; "epic2"] ++ ["epic1"])%list
  /\ tracked_of (_cmd__stoptrack quiet_env ["epic1"]
                   (_cmd__track quiet_env ["epic1"] tracking).2).2
     = Some (if bool_decide ("epic1" ∈ ["epic1"; "epic2"])
             then remove_first "epic1" ["epic1"; "epic2"] ++ ["epic1"]
             else ["epic1"; "epic2"])%list.
Proof.
  split; [run|].
  apply (track_then_stoptrack quiet_env tracking quiet_client
           ["epic1"; "epic2"] "epic1"); run.
Defined.

(** X16 on [track epic1 nosuch epic2]. *)
Lemma track_skips_unknown_witness :
  get_market quiet_client "nosuch" = inl NotFoundError
  /\ (_cmd__track quiet_env ["epic1"; "nosuch"; "epic2"] logged_in).1 = inr tt
  /\ tracked_of (_cmd__track quiet_env ["epic1"; "nosuch"; "epic2"] logged_in).2
     = Some ([] ++ filter (fun e => accepted quiet_client e = true)
                          ["epic1"; "nosuch"; "epic2"])%list.
Proof.
  split; [run|].
  apply (track_skips_unknown quiet_env logged_in quiet_client []
           ["epic1"; "nosuch"; "epic2"]); [run | run | run |].
  repeat (constructor; [first [left; reflexivity | right; reflexivity]|]).
  constructor.
Defined.

(** X17 on a service with two positions, one working order and two
    lines of activity. *)
Lemma refresh_buffers_witness :
  client watching = Some busy_client
  /\ positions_field (scr (update_positions quiet_env watching).2)
     = "------------------------ POSITIONS -------------------------"
       +:+ NL +:+
       "BUY  Gold             2.00 USD @    1800.00 ||         15"
       +:+ NL +:+
       "SELL Oil - US Crude  10.00 GBP @      75.00 ||       -120"
  /\ orders_field (scr (update_orders quiet_env watching).2)
     = "-------------------------- ORDERS --------------------------"
       +:+ NL +:+
       "BUY  Silver           5.00 USD @      23.00 "
  /\ activity_field (scr (update_activity quiet_env watching).2)
     = "2024-01-01 S&L             Gold          +2 USD @       1800 ||     ACCEPT"
       +:+ NL +:+
       "2024-01-02 Order           Silver        +5 USD @         23 ||     REJECT"
  /\ trackers_field (scr (update_positions quiet_env watching).2)
     = trackers_field (scr watching).
Proof.
  split; [run|].
  destruct (refresh_buffers quiet_env watching busy_client ltac:(run)
              ltac:(run)) as (Hpos & Hord & Hact).
  rewrite (Hpos [gold; oil] eq_refl), (Hord [silver_order] eq_refl),
    (Hact [opened; refused] eq_refl).
  split; [run|]. split; [run|]. split; run.
Defined.

(** X18 on the positions request that fails. *)
Lemma failed_refresh_changes_nothing_witness :
  (run_task flaky_env update_positions_task failing_tick).1
  = inl (OtherError "ConnectionError")
  /\ (run_task flaky_env update_positions_task failing_tick).2 = failing_tick.
Proof.
  split; [run|].
  apply (failed_refresh_changes_nothing flaky_env update_positions_task
           failing_tick (OtherError "ConnectionError")).
  run.
Defined.

(** X19 on two tracked markets and an answer for the first: the line of
    the first market ends with a newline. *)
Lemma update_trackers_count_mismatch_witness :
  tracked_of tracking_terse = Some ["epic1"; "epic2"]
  /\ get_markets terse_client ["epic1"; "epic2"] = inr [quote "epic1"]
  /\ trackers_field (scr (update_trackers quiet_env tracking_terse).2)
     = center_fill "-" 60 " TRACKERS " +:+ NL +:+
       join NL (map tracker_line [quote "epic1"]) +:+ NL.
Proof.
  split; [run|]. split; [reflexivity|].
  destruct (update_trackers_count_mismatch quiet_env tracking_terse
              terse_client DefaultTracked [quote "epic1"]
              ltac:(run) ltac:(run) ltac:(run) ltac:(run)) as [Hshort _].
  apply Hshort. vm_compute. lia.
Defined.

(** X21 on the session of "me": a logout, a step of a timer and a line
    later it is still authenticated. *)
Lemma logged_in_forever_witness :
  authd logged_in = true
  /\ authd (exec quiet_env [Main Logout; Thread 1; Main (Parse "update")]
              logged_in) = true.
Proof.
  split; [run|].
  apply (logged_in_forever quiet_env
           [Main Logout; Thread 1; Main (Parse "update")] logged_in).
  run.
Defined.

(** X22 after a refused login, a step of the status timer and the line
    [track epic1]. *)
Lemma logged_out_session_is_bare_witness :
  bare (exec quiet_env
          [Main (SetApi "key"); Main (Login "me" "guess"); Thread 0;
           Main (Parse "track epic1")] (fresh quiet_env files_me)).
Proof.
  apply (logged_out_session_is_bare quiet_env
           [Main (SetApi "key"); Main (Login "me" "guess"); Thread 0;
            Main (Parse "track epic1")] files_me).
  run.
Defined.

(** X23 on the Event of the first generation, after the restart. *)
Lemma flags_only_go_up_witness :
  is_set after_restart 0 = true
  /\ is_set (exec quiet_env [Main RestartThreads; Thread 5; Main StopThreads]
               after_restart) 0 = true.
Proof.
  split; [run|].
  apply (flags_only_go_up quiet_env
           [Main RestartThreads; Thread 5; Main StopThreads] after_restart 0).
  run.
Defined.

(** X24 on the session of "me". *)
Lemma stopped_session_cannot_stop_witness :
  g_stop_threads (glob logged_in) = Some 0
  /\ (stop_threads quiet_env logged_in).1 = inr tt
  /\ stop_threads quiet_env (stop_threads quiet_env logged_in).2
     = (inl (AttributeError "set"), (stop_threads quiet_env logged_in).2)
  /\ restart_threads quiet_env (stop_threads quiet_env logged_in).2
     = (inl (AttributeError "set"), (stop_threads quiet_env logged_in).2)
  /\ exit_ctrl_q (stop_threads quiet_env logged_in).2
     = (inl (AttributeError "set"), (stop_threads quiet_env logged_in).2)
  /\ __del__ quiet_env (stop_threads quiet_env logged_in).2
     = (inl (AttributeError "set"), (stop_threads quiet_env logged_in).2).
Proof.
  split; [run|].
  apply (stopped_session_cannot_stop quiet_env logged_in 0); run.
Defined.

(** X25 on the session of "me". *)
Lemma restart_threads_new_generation_witness :
  length (pool (glob logged_in)) = 5 /\ events (glob logged_in) = [false]
  /\ (restart_threads quiet_env logged_in).1 = inr tt
  /\ pool (glob (restart_threads quiet_env logged_in).2)
     = (pool (glob logged_in) ++
        map (started 5 (S (generation (glob logged_in))))
            [update_positions_task; update_activity_task;
             update_orders_task; update_trackers_task])%list
  /\ g_stop_threads (glob (restart_threads quiet_env logged_in).2)
     = Some (length (events (glob logged_in)))
  /\ is_set (restart_threads quiet_env logged_in).2 0 = true
  /\ is_set (restart_threads quiet_env logged_in).2
            (length (events (glob logged_in))) = false
  /\ trackers_thread (hs (restart_threads quiet_env logged_in).2)
     = Some (length (pool (glob logged_in)) + 3).
Proof.
  split; [run|]. split; [run|].
  apply (restart_threads_new_generation quiet_env logged_in 0 5);
    [run | run | vm_compute; lia | run].
Defined.

(** The timers of [before_restart] that wait, wait on the Event 0. *)
Lemma before_restart_waits tid t e' :
  pool (glob before_restart) !! tid = Some t -> t_pc t = Waiting e' ->
  e' = 0 \/ is_set before_restart e' = true.
Proof.
  intros Ht Hpc. left.
  destruct tid as [|[|[|[|[|tid]]]]]; vm_compute in Ht; simplify_eq;
    vm_compute in Hpc; congruence.
Defined.

(** X26 on the positions timer, inside its function when Ctrl-Q is
    pressed. *)
Lemma exit_ends_the_timers_witness :
  ((fun t => (t_pc t, t_ticks t)) <$> pool (glob before_restart) !! 1)
  = Some (InAction, 1)
  /\ exists t',
       pool (glob (exec quiet_env
                     ([Thread 2; Thread 1; Thread 0]
                      ++ [Thread 1; Thread 1; Thread 1])
                     (exit_ctrl_q before_restart).2)) !! 1 = Some t'
       /\ t_ticks t' = 1 /\ idle t' = true.
Proof.
  split; [run|].
  destruct (exit_ends_the_timers quiet_env before_restart 0
              [Thread 2; Thread 1; Thread 0] 1
              {| t_func := update_positions_task; t_interval := 5; t_gen := 1;
                 t_pc := InAction; t_ticks := 1 |}
              ltac:(run) ltac:(vm_compute; lia) before_restart_waits)
    as (_ & _ & Hend); [repeat constructor | run | exact Hend].
Defined.

(** X27 on the status timer, at the loop head when the session is
    stopped. *)
Lemma stop_ends_the_timers_witness :
  ((fun t => (t_func t, t_pc t)) <$> pool (glob before_restart) !! 0)
  = Some (update_status_task, LoopHead)
  /\ (exists t',
        pool (glob (exec quiet_env [Thread 1; Thread 0; Thread 0]
                      (stop_threads quiet_env before_restart).2)) !! 0
        = Some t'
        /\ t_ticks t' = 0)
  /\ (t_pc <$> pool (glob (step_thread quiet_env 0
                             (stop_threads quiet_env before_restart).2)) !! 0)
     = Some (Crashed (AttributeError "wait")).
Proof.
  split; [run|].
  destruct (stop_ends_the_timers quiet_env before_restart 0
              [Thread 1; Thread 0; Thread 0] 0
              {| t_func := update_status_task; t_interval := 1; t_gen := 0;
                 t_pc := LoopHead; t_ticks := 0 |}
              ltac:(run) ltac:(run) ltac:(vm_compute; lia) before_restart_waits)
    as (Hticks & _ & Hcrash); [repeat constructor | run |].
  split; [exact Hticks | exact (Hcrash eq_refl)].
Defined.

(** X28 on the session of "me". *)
Lemma after_logout_witness :
  (forall text, split_ws text <> [] ->
     parse quiet_env text (logout quiet_env logged_in).2
     = (inl (KeyError "alias"), (logout quiet_env logged_in).2))
  /\ update_trackers quiet_env (logout quiet_env logged_in).2
     = (inl (KeyError "tracked"), (logout quiet_env logged_in).2)
  /\ status quiet_env (logout quiet_env logged_in).2
     = now quiet_env +:+ " || Status: Online | ID: None "
  /\ pool (glob (logout quiet_env logged_in).2) = pool (glob logged_in).
Proof.
  apply (after_logout quiet_env logged_in quiet_client); run.
Defined.

(** X29 on [buy 2 badepic] and [buy 2 nosuch]. *)
Lemma buy_outcomes_witness :
  config logged_in !! "currency" = Some (VStr "USD")
  /\ _cmd__buy ["2"; "badepic"] logged_in
     = msg_out ("Unable to find market: " +:+ "badepic") logged_in
  /\ _cmd__buy ["2"; "nosuch"] logged_in = (inl NotFoundError, logged_in).
Proof.
  split; [run|]. split.
  - destruct (buy_outcomes logged_in quiet_client "2" "badepic" (VStr "USD")
                ltac:(run) ltac:(run)) as [Hbad _].
    apply Hbad. reflexivity.
  - run.
Defined.

(** X10 on the status timer of a new object: five turns. *)
Lemma status_timer_keeps_ticking_witness :
  pool (glob (exec quiet_env (turns 0 5) (fresh quiet_env files_me))) !! 0
  = Some {| t_func := update_status_task; t_interval := 1; t_gen := 0;
            t_pc := LoopHead; t_ticks := 5 |}
  /\ status_field (scr (exec quiet_env (turns 0 5) (fresh quiet_env files_me)))
     = "Mon 01 Jan 2024 | 00:00:00 || Status: Offline |".
Proof.
  destruct (status_timer_keeps_ticking quiet_env 5 (fresh quiet_env files_me) 0
              {| t_func := update_status_task; t_interval := 1; t_gen := 0;
                 t_pc := LoopHead; t_ticks := 0 |} 0
              ltac:(run) ltac:(run) ltac:(run) ltac:(run) ltac:(run))
    as (Hpool & _ & _ & Hstatus).
  split; [exact Hpool|]. rewrite Hstatus by lia. run.
Defined.
